(** * schema-object: a shallow embedding of the typecast engine, the property
      interceptors, the typed array wrapper, the object instance and the
      schema compiler, with the properties of the specification.

    The development follows the ES6 source of the library (the second half of
    the bundle): [typecast], [normalizeProperties], [defineGetter],
    [defineSetter], [writeValue], [clearField], [SchemaArray],
    [SchemaObjectInstance].

    Layout:
    - [Host]: the JavaScript built-ins the library calls (number parsing and
      printing, [Date.parse], regular expressions).  They are parameters: every
      theorem holds for every host.
    - [data]: plain JavaScript values, what a caller passes in and what
      [toObject] hands back.  [cell]: what an instance stores (a plain value, a
      [SchemaArray], a nested instance).
    - [Engine]: the functions of the library over compiled field descriptors,
      by recursion on the schema (a schema that nests itself is outside the
      model, as it is outside the library).
    - [Compiler]: [normalizeProperties] and the constructor's normalization
      loop over a heap of objects with identity, for the frame properties. *)

From Stdlib Require Import Floats String Ascii List ZArith Bool Lia DecimalString.
Import ListNotations.
Local Open Scope string_scope.
Local Open Scope list_scope.

Set Implicit Arguments.
Set Warnings "-register-all".

(* ================================================================== *)
(** ** Numbers *)

(** JavaScript numbers are binary64 floats: Rocq's primitive floats. *)
Abbreviation num := float.

Definition num_of_Z (z : Z) : num :=
  if (z <? 0)%Z then PrimFloat.opp (PrimFloat.of_uint63 (Uint63.of_Z (- z)))
  else PrimFloat.of_uint63 (Uint63.of_Z z).

Definition num_of_nat (n : nat) : num := num_of_Z (Z.of_nat n).

(** Truncation toward zero of a finite number (ToIntegerOrInfinity). *)
Definition trunc_Z (x : num) : Z :=
  match Prim2SF x with
  | S754_finite s m e =>
      let v := if (0 <=? e)%Z then (Zpos m * 2 ^ e)%Z
               else (Zpos m / 2 ^ (- e))%Z in
      if s then (- v)%Z else v
  | _ => 0%Z
  end.

(** [TimeClip] of the language: the time value of [new Date(x)]. *)
Definition TimeClip (x : num) : num :=
  if negb (PrimFloat.is_finite x) then PrimFloat.nan
  else if PrimFloat.ltb 8.64e15%float (PrimFloat.abs x) then PrimFloat.nan
  else PrimFloat.add (num_of_Z (trunc_Z x)) PrimFloat.zero.

(* ================================================================== *)
(** ** Plain values *)

(** What callers pass to the library and read back from [toObject].  A date
    carries its time value ([nan] for an invalid date); a regular expression its
    source; a function its name. Objects keep their keys in enumeration
    order. *)
Inductive data : Type :=
| DUndef
| DNull
| DBool (b : bool)
| DNum (n : num)
| DStr (s : string)
| DDate (t : num)
| DRegex (src : string)
| DFun (f : string)
| DArr (xs : list data)
| DObj (kvs : list (string * data)).

(** The built-ins of the JavaScript host that the library relies on. *)
Record Host : Type := {
  StringToNumber : string -> num;     (* Number(s), s * 1, isNaN(s), isFinite(s) *)
  NumberToString : num -> string;     (* n + '' *)
  parseFloat : string -> num;
  Date_parse : string -> num;
  DateToString : num -> string;       (* toString of a valid Date *)
  FunctionToString : string -> string;
  FunctionLength : string -> num;
  RegExp_test : string -> string -> bool   (* source, subject *)
}.

Fixpoint lookup {A : Type} (k : string) (kvs : list (string * A)) : option A :=
  match kvs with
  | [] => None
  | (k', v) :: rest => if String.eqb k' k then Some v else lookup k rest
  end.

(** [o[k] = v]: replaces the binding in place, or appends it. *)
Fixpoint upsert {A : Type} (k : string) (v : A) (kvs : list (string * A))
  : list (string * A) :=
  match kvs with
  | [] => [(k, v)]
  | (k', v') :: rest =>
      if String.eqb k' k then (k, v) :: rest else (k', v') :: upsert k v rest
  end.

Definition truthy (v : data) : bool :=
  match v with
  | DUndef | DNull => false
  | DBool b => b
  | DNum n => negb (PrimFloat.is_nan n || PrimFloat.is_zero n)
  | DStr s => negb (String.eqb s "")
  | _ => true
  end.

(** lodash's [_.isObject]: objects and functions, not [null]. *)
Definition isObject (v : data) : bool :=
  match v with
  | DDate _ | DRegex _ | DFun _ | DArr _ | DObj _ => true
  | _ => false
  end.

Definition isArray (v : data) : bool :=
  match v with DArr _ => true | _ => false end.
Definition isString (v : data) : bool :=
  match v with DStr _ => true | _ => false end.
Definition isNumber (v : data) : bool :=
  match v with DNum _ => true | _ => false end.
Definition isBoolean (v : data) : bool :=
  match v with DBool _ => true | _ => false end.
Definition isDate (v : data) : bool :=
  match v with DDate _ => true | _ => false end.
Definition isUndefined (v : data) : bool :=
  match v with DUndef => true | _ => false end.

(** [typeof v === 'object'] *)
Definition typeof_object (v : data) : bool :=
  match v with
  | DNull | DDate _ | DRegex _ | DArr _ | DObj _ => true
  | _ => false
  end.

Fixpoint string_of_digits (fuel : nat) (n : nat) (acc : string) : string :=
  match fuel with
  | O => acc
  | S fuel' =>
      let d := String (ascii_of_nat (48 + n mod 10)) acc in
      if Nat.ltb n 10 then d else string_of_digits fuel' (n / 10) d
  end.

(** Decimal spelling of an array index. *)
Definition index_key (n : nat) : string := string_of_digits (S n) n "".

Fixpoint indexed_from (n : nat) (xs : list data) : list (string * data) :=
  match xs with
  | [] => []
  | x :: rest => (index_key n, x) :: indexed_from (S n) rest
  end.

Fixpoint chars_of (s : string) : list data :=
  match s with
  | EmptyString => []
  | String c rest => DStr (String c EmptyString) :: chars_of rest
  end.

(** The enumerable own keys of a value with their values, as [for .. in] and
    [_.each] visit them. *)
Definition enum_entries (v : data) : list (string * data) :=
  match v with
  | DObj kvs => kvs
  | DArr xs => indexed_from 0 xs
  | DStr s => indexed_from 0 (chars_of s)
  | _ => []
  end.

(** lodash's [_.size] of an object value. *)
Definition size (v : data) : nat :=
  match v with
  | DObj kvs => List.length kvs
  | DArr xs => List.length xs
  | DStr s => String.length s
  | _ => 0
  end.

(** lodash's [_.toArray] of an object value: the values of its entries. *)
Definition toArray_data (v : data) : list data :=
  match v with
  | DArr xs => xs
  | DObj kvs => map snd kvs
  | DStr s => chars_of s
  | _ => []
  end.

Section HostFunctions.
Variable H : Host.

Fixpoint ToString (v : data) : string :=
  match v with
  | DUndef => "undefined"
  | DNull => "null"
  | DBool true => "true"
  | DBool false => "false"
  | DNum n => NumberToString H n
  | DStr s => s
  | DDate t => if PrimFloat.is_nan t then "Invalid Date" else DateToString H t
  | DRegex src => ("/" ++ src ++ "/")%string
  | DFun f => FunctionToString H f
  | DArr xs =>
      (fix join (l : list data) : string :=
         match l with
         | [] => ""
         | x :: rest =>
             let sx := match x with
                       | DUndef | DNull => ""
                       | _ => ToString x
                       end in
             match rest with
             | [] => sx
             | _ => (sx ++ "," ++ join rest)%string
             end
         end) xs
  | DObj _ => "[object Object]"
  end.

Definition b2n (b : bool) : num :=
  if b then PrimFloat.one else PrimFloat.zero.

Definition ToNumber (v : data) : num :=
  match v with
  | DUndef => PrimFloat.nan
  | DNull => PrimFloat.zero
  | DBool b => b2n b
  | DNum n => n
  | DStr s => StringToNumber H s
  | DDate t => t
  | _ => StringToNumber H (ToString v)
  end.

(** [isNumeric(n)]: [!isNaN(parseFloat(n)) && isFinite(n)]. *)
Definition isNumeric (v : data) : bool :=
  negb (PrimFloat.is_nan (parseFloat H (ToString v)))
  && PrimFloat.is_finite (ToNumber v).

(** The operand of a relational comparison: a string stays a string, a date
    gives its time value, other objects their string. *)
Definition ToPrimitive_number (v : data) : data :=
  match v with
  | DDate t => DNum t
  | DRegex _ | DFun _ | DArr _ | DObj _ => DStr (ToString v)
  | _ => v
  end.

Fixpoint string_ltb (a b : string) : bool :=
  match a, b with
  | EmptyString, EmptyString => false
  | EmptyString, String _ _ => true
  | String _ _, EmptyString => false
  | String x a', String y b' =>
      if Nat.ltb (nat_of_ascii x) (nat_of_ascii y) then true
      else if Nat.ltb (nat_of_ascii y) (nat_of_ascii x) then false
      else string_ltb a' b'
  end.

(** [a < b] *)
Definition js_lt (a b : data) : bool :=
  match ToPrimitive_number a, ToPrimitive_number b with
  | DStr x, DStr y => string_ltb x y
  | pa, pb => PrimFloat.ltb (ToNumber pa) (ToNumber pb)
  end.

(** [a > b] *)
Definition js_gt (a b : data) : bool := js_lt b a.

(** [a === b].  Two objects are the same only when they are one reference;
    the model keeps no references, so object operands compare as distinct. *)
Definition strict_eq (a b : data) : bool :=
  match a, b with
  | DUndef, DUndef => true
  | DNull, DNull => true
  | DBool x, DBool y => Bool.eqb x y
  | DNum x, DNum y => PrimFloat.eqb x y
  | DStr x, DStr y => String.eqb x y
  | _, _ => false
  end.

(** [xs.indexOf(v) === -1] *)
Definition not_in_array (v : data) (xs : list data) : bool :=
  negb (existsb (strict_eq v) xs).

(** [s.substr(0, len)] *)
Definition substr0 (s : string) (len : data) : string :=
  let n := ToNumber len in
  if PrimFloat.is_nan n then ""
  else if PrimFloat.leb n PrimFloat.zero then ""
  else if PrimFloat.leb (num_of_nat (String.length s)) n then s
  else String.substring 0 (Z.to_nat (trunc_Z n)) s.

Fixpoint replace_char (c : ascii) (by_ : string) (s : string) : string :=
  match s with
  | EmptyString => EmptyString
  | String x rest =>
      if Ascii.eqb x c then (by_ ++ replace_char c by_ rest)%string
      else String x (replace_char c by_ rest)
  end.
End HostFunctions.

(* ================================================================== *)
(** ** Error taxonomy *)

(** The classes of the library's errors, [SetterError] and its subclasses. *)
Inductive err_class : Type :=
| SetterError
| CastError
| StringCastError
| NumberCastError
| ArrayCastError
| ObjectCastError
| DateCastError
| ValidationError
| StringValidationError
| StringEnumValidationError
| StringMinLengthValidationError
| StringMaxLengthValidationError
| StringRegexValidationError
| NumberValidationError
| NumberMinValidationError
| NumberMaxValidationError
| DateValidationError
| DateParseValidationError.

(** [static errorCode()] of each class. *)
Definition errorCode (c : err_class) : Z :=
  match c with
  | SetterError => 1000
  | CastError => 1100
  | StringCastError => 1101
  | NumberCastError => 1102
  | ArrayCastError => 1103
  | ObjectCastError => 1104
  | DateCastError => 1105
  | ValidationError => 1200
  | StringValidationError => 1210
  | StringEnumValidationError => 1211
  | StringMinLengthValidationError => 1212
  | StringMaxLengthValidationError => 1213
  | StringRegexValidationError => 1214
  | NumberValidationError => 1220
  | NumberMinValidationError => 1221
  | NumberMaxValidationError => 1222
  | DateValidationError => 1230
  | DateParseValidationError => 1231
  end%Z.

(** The [errorType] field a constructor chain leaves on the error: the one set
    by the [CastError] or by the [ValidationError] constructor. *)
Definition errorType (c : err_class) : option string :=
  match c with
  | SetterError => None
  | CastError | StringCastError | NumberCastError | ArrayCastError
  | ObjectCastError | DateCastError => Some "CastError"
  | _ => Some "ValidationError"
  end.

(** The message a validation error class falls back on
    ([errorMessage = errorMessage || '...']). *)
Definition default_message (c : err_class) : string :=
  match c with
  | StringCastError => "String type cannot typecast Object or Array types."
  | ArrayCastError => "Array type cannot typecast non-Array types."
  | ObjectCastError => "Object type cannot typecast non-Object types."
  | DateCastError => "Date type cannot typecast Array or Object types."
  | StringEnumValidationError => "String does not exist in enum list."
  | StringMinLengthValidationError =>
      "String length too short to meet minLength requirement."
  | StringMaxLengthValidationError =>
      "String length too long to meet maxLength requirement."
  | StringRegexValidationError =>
      "String does not match regular expression pattern."
  | NumberMinValidationError => "Number is too small to meet min requirement."
  | NumberMaxValidationError => "Number is too big to meet max requirement."
  | DateParseValidationError => "Could not parse date."
  | _ => ""
  end.

(* ================================================================== *)
(** ** Stored values *)

(** What an instance holds in a field: a plain value, a [SchemaArray] with its
    elements, or a nested instance with its raw store ([_obj]) and its error
    log ([_errors]).  What can be thrown: an error of the taxonomy with its
    [errorMessage], [setValue], [originalValue] and the name of its
    [fieldSchema]; a [TypeError] or [RangeError] of the runtime; or whatever a
    user function raises. *)
Inductive cell : Type :=
| CVal (d : data)
| CArr (elems : list cell)
| CInst (obj : list (string * cell)) (errs : list exn)
with exn : Type :=
| SetterErr (cls : err_class) (errorMessage : data) (setValue : cell)
            (originalValue : cell) (field : string)
| TypeError (what : string)
| RangeError (what : string)
| UserThrow (payload : data).

Definition store := list (string * cell).

(** An instance: [_obj] and [_errors]. *)
Record inst : Type := Inst { i_obj : store; i_errors : list exn }.

Definition cell_of_inst (i : inst) : cell := CInst (i_obj i) (i_errors i).

Definition CUndef : cell := CVal DUndef.

(** [_obj[k]] *)
Definition slot (k : string) (o : store) : cell :=
  match lookup k o with
  | Some c => c
  | None => CUndef
  end.

Definition cell_truthy (c : cell) : bool :=
  match c with
  | CVal d => truthy d
  | _ => true
  end.

Definition cell_is_undefined (c : cell) : bool :=
  match c with
  | CVal DUndef => true
  | _ => false
  end.

Inductive outcome (A : Type) : Type :=
| Ok (a : A)
| Throw (e : exn).
Arguments Ok {A} a.
Arguments Throw {A} e.

(** The result of calling a function supplied by the user of the library. *)
Inductive ucall (A : Type) : Type :=
| Returned (a : A)
| Raised (payload : data).
Arguments Returned {A} a.
Arguments Raised {A} payload.

Definition of_ucall {A : Type} (r : ucall A) : outcome A :=
  match r with
  | Returned a => Ok a
  | Raised d => Throw (UserThrow d)
  end.

(** The functions a schema and its options name: transforms
    [(value, originalValue)], the getter hook, default producers, required
    predicates (they see the instance's fields), array filters, the
    [onBeforeValueSet] and [onValueSet] handlers [(value, name)] and the
    [toObject] hook.  They are pure functions of their arguments here. *)
Record User : Type := {
  call_transform : string -> data -> cell -> ucall data;
  call_getter : string -> cell -> ucall cell;
  call_default : string -> ucall data;
  call_required : string -> store -> ucall data;
  call_filter : string -> cell -> ucall data;
  call_onBeforeValueSet : string -> cell -> string -> ucall data;
  call_onValueSet : string -> cell -> string -> ucall data;
  call_toObject : string -> data -> ucall data
}.

(* ================================================================== *)
(** ** Compiled schema *)

(** The options of a factory that the modelled functions read.  The model is
    the strict mode of the library without dot notation and case-insensitive
    keys (the defaults), with the default constructor. *)
Record options : Type := {
  setUndefined : bool;
  preserveNull : bool;
  allowFalsyValues : bool;
  useDecimalNumberGroupSeparator : bool;
  onBeforeValueSet : option string;
  onValueSet : option string;
  toObject_hook : option string
}.

(** The scalar part of a Field Descriptor, as [normalizeProperties] leaves it.
    Constraints keep the raw value the declaration gave ([DUndef] when
    absent); hooks are the names of user functions. *)
Record base : Type := {
  name : string;
  type : string;
  index : string;
  transform : option string;
  stringTransform : option string;
  numberTransform : option string;
  booleanTransform : option string;
  dateTransform : option string;
  getter_hook : option string;   (* properties.getter *)
  clip : data;
  enum : data;
  minLength : data;
  maxLength : data;
  regex : data;
  min : data;
  max : data;
  default : data;
  readOnly : bool;
  invisible : bool;
  isAlias : bool;
  required : data;
  unique : bool;
  filter : option string
}.

(** A Field Descriptor with its [objectType] (the factory of a nested schema:
    its compiled schema and options) and its [arrayType]. *)
Inductive props : Type :=
| Props (b : base) (objectType : option schema) (arrayType : option props)
with schema : Type :=
| Schema (o : options) (fs : flds)
with flds : Type :=
| FNil
| FCons (k : string) (p : props) (rest : flds).

Definition p_base (p : props) : base := let (b, _, _) := p in b.
Definition p_objectType (p : props) : option schema := let (_, o, _) := p in o.
Definition p_arrayType (p : props) : option props := let (_, _, a) := p in a.
Definition s_options (s : schema) : options := let (o, _) := s in o.
Definition s_fields (s : schema) : flds := let (_, f) := s in f.

Fixpoint field (k : string) (fs : flds) : option props :=
  match fs with
  | FNil => None
  | FCons k' p rest => if String.eqb k' k then Some p else field k rest
  end.

Fixpoint field_count (fs : flds) : nat :=
  match fs with
  | FNil => 0
  | FCons _ _ rest => S (field_count rest)
  end.

(* ================================================================== *)
(** ** The Typecast Engine: scalar types *)

Definition bind {A B : Type} (m : outcome A) (f : A -> outcome B) : outcome B :=
  match m with
  | Ok a => f a
  | Throw e => Throw e
  end.

Notation "x <- m ;; k" := (bind m (fun x => k))
  (at level 61, m at next level, right associativity).

(** [v[k]] of a plain object. *)
Definition prop (v : data) (k : string) : data :=
  match v with
  | DObj kvs => match lookup k kvs with Some x => x | None => DUndef end
  | _ => DUndef
  end.

(** [new XCastError(setValue, originalValue, fieldSchema)] *)
Definition cast_error (c : err_class) (setValue orig : cell) (b : base) : exn :=
  SetterErr c (DStr (default_message c)) setValue orig (name b).

(** [new NumberCastError(sourceType, setValue, originalValue, fieldSchema)] *)
Definition number_cast_error (sourceType : string) (setValue orig : cell)
    (b : base) : exn :=
  SetterErr NumberCastError
    (DStr ("Number could not be typecast from the provided " ++ sourceType))
    setValue orig (name b).

(** [new XValidationError(errorMessage, setValue, originalValue, fieldSchema)]:
    [errorMessage = errorMessage || '<default>'] *)
Definition validation_error (c : err_class) (errorMessage : data)
    (setValue orig : cell) (b : base) : exn :=
  SetterErr c
    (if truthy errorMessage then errorMessage else DStr (default_message c))
    setValue orig (name b).

(** [detectCustomErrorMessage(key)], applied to [properties[key]]: the
    [value] and the [errorMessage] of the validation it returns. *)
Definition detectCustomErrorMessage (c : data) : outcome (data * data) :=
  match c with
  | DNull => Throw (TypeError "Cannot read property 'errorMessage' of null")
  | _ =>
      if typeof_object c && truthy (prop c "errorMessage")
         && truthy (prop c "value")
      then Ok (prop c "value", prop c "errorMessage")
      else match c with
           | DArr xs => Ok (nth 0 xs DUndef, nth 1 xs DUndef)
           | _ => Ok (c, DUndef)
           end
  end.

(** The same detection for [enum], whose bare form is itself an array. *)
Definition detect_enum (c : data) : outcome (data * data) :=
  match c with
  | DNull => Throw (TypeError "Cannot read property 'errorMessage' of null")
  | _ =>
      if typeof_object c && truthy (prop c "errorMessage")
         && truthy (prop c "value")
      then Ok (prop c "value", prop c "errorMessage")
      else match c with
           | DArr xs =>
               if isArray (nth 0 xs DUndef)
               then Ok (nth 0 xs DUndef, nth 1 xs DUndef)
               else Ok (c, DUndef)
           | _ => Ok (c, DUndef)
           end
  end.

Section Scalars.
Variable H : Host.
Variable U : User.

(** [value = hook.call(root, value, originalValue, properties)] when the
    hook is declared. *)
Definition apply_transform (hook : option string) (v : data) (orig : cell)
  : outcome data :=
  match hook with
  | None => Ok v
  | Some f => of_ucall (call_transform U f v orig)
  end.

(** [value.length] *)
Definition length_of (v : data) : outcome data :=
  match v with
  | DUndef | DNull => Throw (TypeError "Cannot read property 'length'")
  | DStr s => Ok (DNum (num_of_nat (String.length s)))
  | DArr xs => Ok (DNum (num_of_nat (List.length xs)))
  | DFun f => Ok (DNum (FunctionLength H f))
  | DObj _ => Ok (prop v "length")
  | _ => Ok DUndef
  end.

(** [value.substr(0, properties.maxLength)] *)
Definition clip_value (value : data) (len : data) : outcome data :=
  match value with
  | DStr s => Ok (DStr (substr0 H s len))
  | _ => Throw (TypeError "value.substr is not a function")
  end.

(** [regex.value.test(value)]; a constraint that is not a regular expression
    has no [test] method. *)
Definition regex_test (r : data) (value : data) : outcome bool :=
  match r with
  | DRegex src => Ok (RegExp_test H src (ToString H value))
  | _ => Throw (TypeError "regex.value.test is not a function")
  end.

(** [case 'string'] *)
Definition typecast_string (b : base) (v : data) (orig : cell)
  : outcome data :=
  if isObject v || isArray v
  then Throw (cast_error StringCastError (CVal v) orig b)
  else
    match v with
    | DUndef | DNull => Ok DUndef
    | _ =>
        value <- apply_transform (stringTransform b) (DStr (ToString H v)) orig ;;
        value <- (if negb (isUndefined (clip b))
                     && negb (isUndefined (maxLength b))
                  then clip_value value (maxLength b)
                  else Ok value) ;;
        enumValidation <- detect_enum (enum b) ;;
        if negb (isUndefined (fst enumValidation))
           && match fst enumValidation with
              | DArr xs => not_in_array value xs
              | _ => false
              end
        then Throw (validation_error StringEnumValidationError
                      (snd enumValidation) (CVal value) orig b)
        else
          minL <- detectCustomErrorMessage (minLength b) ;;
          short <- (if isUndefined (fst minL) then Ok false
                    else len <- length_of value ;; Ok (js_lt H len (fst minL))) ;;
          if (short : bool)
          then Throw (validation_error StringMinLengthValidationError
                        (snd minL) (CVal value) orig b)
          else
            maxL <- detectCustomErrorMessage (maxLength b) ;;
            long <- (if isUndefined (fst maxL) then Ok false
                     else len <- length_of value ;;
                          Ok (js_gt H len (fst maxL))) ;;
            if (long : bool)
            then Throw (validation_error StringMaxLengthValidationError
                          (snd maxL) (CVal value) orig b)
            else
              rx <- detectCustomErrorMessage (regex b) ;;
              mismatch <- (if truthy (fst rx)
                           then ok <- regex_test (fst rx) value ;; Ok (negb ok)
                           else Ok false) ;;
              if (mismatch : bool)
              then Throw (validation_error StringRegexValidationError
                            (snd rx) (CVal value) orig b)
              else Ok value
    end.

(** The digit-group separators of a string, normalized for parsing. *)
Definition normalize_separators (o : options) (s : string) : string :=
  if useDecimalNumberGroupSeparator o
  then replace_char "," "." (replace_char "." "" s)
  else replace_char "," "" s.

(** [case 'number'] *)
Definition typecast_number (o : options) (b : base) (v : data) (orig : cell)
  : outcome data :=
  match v with
  | DUndef | DNull => Ok DUndef
  | DStr EmptyString => Ok DUndef
  | _ =>
      let v1 := match v with DBool x => DNum (b2n x) | _ => v end in
      v2 <- match v1 with
            | DStr s =>
                let s' := normalize_separators o s in
                if PrimFloat.is_nan (StringToNumber H s')
                then Throw (number_cast_error "String" (CVal (DStr s')) orig b)
                else Ok (DStr s')
            | _ => Ok v1
            end ;;
      if isArray v2
      then Throw (number_cast_error "Array" (CVal v2) orig b)
      else if isObject v2
      then Throw (number_cast_error "Object" (CVal v2) orig b)
      else if negb (isNumeric H v2)
      then Throw (number_cast_error "Non-numeric" (CVal v2) orig b)
      else
        value <- apply_transform (numberTransform b) (DNum (ToNumber H v2)) orig ;;
        mn <- detectCustomErrorMessage (min b) ;;
        if negb (isUndefined (fst mn)) && js_lt H value (fst mn)
        then Throw (validation_error NumberMinValidationError
                      (snd mn) (CVal value) orig b)
        else
          mx <- detectCustomErrorMessage (max b) ;;
          if negb (isUndefined (fst mx)) && js_gt H value (fst mx)
          then Throw (validation_error NumberMaxValidationError
                        (snd mx) (CVal value) orig b)
          else Ok value
  end.

(** [case 'boolean'] *)
Definition typecast_boolean (b : base) (v : data) (orig : cell)
  : outcome data :=
  match v with
  | DUndef | DNull => Ok DUndef
  | DStr EmptyString => Ok DUndef
  | _ =>
      if strict_eq v (DStr "false") then Ok (DBool false)
      else if isNumeric H v
      then Ok (DBool (PrimFloat.ltb PrimFloat.zero
                        (PrimFloat.mul (ToNumber H v) PrimFloat.one)))
      else apply_transform (booleanTransform b) (DBool (truthy v)) orig
  end.

(** [new Date(x)] for the operand the date case builds. *)
Definition new_Date (x : data) : data :=
  match x with
  | DDate t => DDate t
  | _ => DDate (TimeClip (ToNumber H x))
  end.

(** [value == 'Invalid Date'] *)
Definition loose_eq_Invalid_Date (v : data) : bool :=
  match v with
  | DDate _ | DStr _ => String.eqb (ToString H v) "Invalid Date"
  | DNum n => PrimFloat.eqb n (StringToNumber H "Invalid Date")
  | _ => false
  end.

(** The value the date case goes on with: a string is parsed with
    [Date.parse]; what is then numeric becomes a date, its unit (seconds or
    milliseconds) read off the length of its spelling. *)
Definition date_of_input (v : data) : data :=
  let v1 := match v with
            | DStr s => DNum (Date_parse H s)
            | _ => v
            end in
  if isNumeric H v1
  then new_Date
         (if Nat.ltb 10 (String.length (ToString H v1))
          then v1
          else DNum (PrimFloat.mul (ToNumber H v1) 1000%float))
  else v1.

(** [case 'date'] *)
Definition typecast_date (b : base) (v : data) (orig : cell)
  : outcome data :=
  match v with
  | DUndef | DNull => Ok DUndef
  | DStr EmptyString => Ok DUndef
  | _ =>
      if negb (isDate v) && negb (isString v) && negb (isNumber v)
      then Throw (cast_error DateCastError (CVal v) orig b)
      else
        let v2 := date_of_input v in
        if loose_eq_Invalid_Date v2 || negb (isDate v2)
        then Throw (validation_error DateParseValidationError DNull
                      (CVal v2) orig b)
        else apply_transform (dateTransform b) v2 orig
  end.
End Scalars.

(* ================================================================== *)
(** ** Property interceptors, typed array wrapper and instances *)

Definition empty_inst : inst := Inst [] [].

(** [this[_privateKey]._errors.push(error)] *)
Definition log_error (e : exn) (i : inst) : inst :=
  Inst (i_obj i) (i_errors i ++ [e]).

(** [this[_privateKey]._obj[k] = c] *)
Definition set_slot (k : string) (c : cell) (i : inst) : inst :=
  Inst (upsert k c (i_obj i)) (i_errors i).

(** The index a field reads its value from: its own, or its target's for an
    alias ([indexOrAliasIndex]). *)
Definition indexOrAliasIndex (b : base) : string :=
  if String.eqb (type b) "alias" then index b else name b.

(** An object mutated in place is the object the field holds: when the
    previous value was read without a getter hook it is the content of the
    slot itself, and the slot shows the mutation. *)
Definition write_back (b : base) (c : cell) (i : inst) : inst :=
  match getter_hook b, lookup (indexOrAliasIndex b) (i_obj i) with
  | None, Some _ => set_slot (indexOrAliasIndex b) c i
  | _, _ => i
  end.

(** SameValueZero on stored values; containers are references of their own. *)
Definition same_value_zero (a b : cell) : bool :=
  match a, b with
  | CVal (DNum x), CVal (DNum y) =>
      PrimFloat.eqb x y || (PrimFloat.is_nan x && PrimFloat.is_nan y)
  | CVal x, CVal y => strict_eq x y
  | _, _ => false
  end.

Fixpoint map_outcome {A B : Type} (f : A -> outcome B) (l : list A)
  : outcome (list B) :=
  match l with
  | [] => Ok []
  | x :: rest =>
      y <- f x ;;
      ys <- map_outcome f rest ;;
      Ok (y :: ys)
  end.

Fixpoint filter_outcome {A : Type} (f : A -> outcome bool) (l : list A)
  : outcome (list A) :=
  match l with
  | [] => Ok []
  | x :: rest =>
      keep <- f x ;;
      ys <- filter_outcome f rest ;;
      Ok (if (keep : bool) then x :: ys else ys)
  end.

(** The redirection of an alias hands its target the value as an input. *)
Definition input_of_cell (c : cell) : outcome data :=
  match c with
  | CVal d => Ok d
  | _ => Throw (TypeError "a wrapper or an instance written through an alias")
  end.

(** Bounded knot for [this[fieldSchema.index] = value]: a setter that is
    handed the setter its alias fields redirect to.  An alias chain longer
    than the schema is a cycle: the runtime's stack overflows inside the
    innermost setter, whose [catch] logs the [RangeError]. *)
Fixpoint tie (n : nat)
    (step : (string -> data -> inst -> outcome unit * inst) ->
            string -> data -> inst -> outcome unit * inst)
  : string -> data -> inst -> outcome unit * inst :=
  match n with
  | O => fun _ _ i =>
           (Ok tt, log_error (RangeError "Maximum call stack size exceeded") i)
  | S m => step (tie m step)
  end.

Section Interceptors.
Variable H : Host.
Variable U : User.

(** [getter(value, properties)] *)
Definition getter (value : cell) (b : base) : outcome cell :=
  match getter_hook b with
  | None => Ok value
  | Some f => of_ucall (call_getter U f value)
  end.

(** [writeValue(value, fieldSchema)], with [redirect] for the assignment
    [this[fieldSchema.index] = value] of an alias. *)
Definition writeValue (o : options)
    (redirect : string -> data -> inst -> outcome unit * inst)
    (value : cell) (b : base) (i : inst) : outcome unit * inst :=
  match (match onBeforeValueSet o with
         | None => Ok true
         | Some f =>
             r <- of_ucall (call_onBeforeValueSet U f value (name b)) ;;
             Ok (negb (strict_eq r (DBool false)))
         end) with
  | Throw e => (Throw e, i)
  | Ok false => (Ok tt, i)
  | Ok true =>
      if String.eqb (type b) "alias"
      then match input_of_cell value with
           | Ok d => redirect (index b) d i
           | Throw e => (Throw e, i)
           end
      else
        let i' := set_slot (name b) value i in
        match onValueSet o with
        | None => (Ok tt, i')
        | Some f =>
            (r <- of_ucall (call_onValueSet U f value (name b)) ;; Ok tt, i')
        end
  end.

(** No alias is redirected when an object or array field is materialized. *)
Definition no_redirect : string -> data -> inst -> outcome unit * inst :=
  fun _ _ i => (Ok tt, i).

(** [SchemaArray.push(...args)] given the cast of one candidate against the
    element descriptor ([None] when the wrapper has no [arrayType]).  The
    elements after the call and the value returned. *)
Definition push_with (cast : option (data -> outcome cell)) (b : base)
    (elems : list cell) (args : list data) : outcome num * list cell :=
  match
    (values <- match cast with
               | Some c => map_outcome c args
               | None => Ok (map CVal args)
               end ;;
     values <- match filter b with
               | Some f =>
                   filter_outcome
                     (fun value =>
                        r <- of_ucall (call_filter U f value) ;; Ok (truthy r))
                     values
               | None => Ok values
               end ;;
     Ok (if unique b
         then List.filter
                (fun value => negb (existsb (same_value_zero value) elems))
                values
         else values))
  with
  | Throw e => (Throw e, elems)
  | Ok values =>
      (Ok (num_of_nat (List.length (elems ++ values))), elems ++ values)
  end.

(** [originalValue.length = 0; _.each(value, v => originalValue.push(v))]
    on a wrapper: the elements it holds when the loop ends or is left. *)
Fixpoint refill (cast : option (data -> outcome cell)) (b : base)
    (elems : list cell) (xs : list data) : outcome unit * list cell :=
  match xs with
  | [] => (Ok tt, elems)
  | x :: rest =>
      match push_with cast b elems [x] with
      | (Throw e, elems') => (Throw e, elems')
      | (Ok _, elems') => refill cast b elems' rest
      end
  end.

(** [case 'array'], given the cast of one element. *)
Definition typecast_array (cast : option (data -> outcome cell)) (b : base)
    (value : data) (orig : cell) : outcome cell * cell :=
  let value := if isObject value then DArr (toArray_data value) else value in
  match value with
  | DArr xs =>
      match orig with
      | CArr _ =>
          match refill cast b [] xs with
          | (Throw e, elems) => (Throw e, CArr elems)
          | (Ok _, elems) => (Ok (CArr elems), CArr elems)
          end
      | CVal (DArr _) => (Ok (CVal (DArr xs)), CVal (DArr xs))
      | CVal (DObj kvs) =>
          (Throw (TypeError "originalValue.push is not a function"),
           CVal (DObj (upsert "length" (DNum PrimFloat.zero) kvs)))
      | CVal (DDate _) | CVal (DRegex _) | CInst _ _ =>
          (Throw (TypeError "originalValue.push is not a function"), orig)
      | _ => (Throw (TypeError "Cannot assign to property 'length'"), orig)
      end
  | _ => (Throw (cast_error ArrayCastError (CVal value) orig b), orig)
  end.

(** [for (const key in value) schemaObject[key] = value[key]] *)
Fixpoint assign_all (set : string -> data -> inst -> outcome unit * inst)
    (entries : list (string * data)) (i : inst) : outcome unit * inst :=
  match entries with
  | [] => (Ok tt, i)
  | (k, v) :: rest =>
      match set k v i with
      | (Throw e, i') => (Throw e, i')
      | (Ok _, i') => assign_all set rest i'
      end
  end.

(** [this[name].length = 0] on what an array field holds. *)
Definition truncate (c : cell) : outcome cell :=
  match c with
  | CArr _ => Ok (CArr [])
  | CVal (DArr _) => Ok (CVal (DArr []))
  | CVal (DObj kvs) =>
      Ok (CVal (DObj (upsert "length" (DNum PrimFloat.zero) kvs)))
  | CVal (DDate _) | CVal (DRegex _) | CInst _ _ => Ok c
  | _ => Throw (TypeError "Cannot assign to property 'length'")
  end.

(** The value of a declared [default]: the literal, or what the producer
    returns. *)
Definition default_value (b : base) : outcome data :=
  match default b with
  | DFun f => of_ucall (call_default U f)
  | d => Ok d
  end.
End Interceptors.

Section Engine.
Variable H : Host.
Variable U : User.

(** The setter [defineSetter] installs, given the field's getter and its
    typecast: a no-op on a read-only field (unless the constructor has
    suspended [readOnly] to apply the default); otherwise everything runs
    under [try], and whatever is thrown is pushed on the error log. *)
Definition defineSetter_with
    (get : inst -> outcome cell * inst)
    (cast : data -> cell -> outcome cell * cell)
    (b : base) (o : options) (suspended : bool)
    (redirect : string -> data -> inst -> outcome unit * inst)
    (value : data) (i : inst) : outcome unit * inst :=
  if readOnly b && negb suspended then (Ok tt, i)
  else
    match get i with
    | (Throw e, i1) => (Ok tt, log_error e i1)
    | (Ok originalValue, i1) =>
        let (r, mutated) := cast value originalValue in
        let i2 := write_back b mutated i1 in
        match r with
        | Throw e => (Ok tt, log_error e i2)
        | Ok v =>
            match writeValue U o redirect v b i2 with
            | (Throw e, i3) => (Ok tt, log_error e i3)
            | (Ok _, i3) => (Ok tt, i3)
            end
        end
    end.

(** [clearField(index, properties)], given the field's getter and the
    [clear] of the nested instance its [objectType] makes. *)
Definition clearField_with
    (get : inst -> outcome cell * inst)
    (nested_clear : option (inst -> outcome unit * inst))
    (b : base) (o : options)
    (redirect : string -> data -> inst -> outcome unit * inst)
    (i : inst) : outcome unit * inst :=
  if isAlias b then (Ok tt, i)
  else if String.eqb (type b) "object" then
    match get i with
    | (Throw e, i1) => (Throw e, i1)
    | (Ok (CInst obj errs), i1) =>
        match nested_clear with
        | Some clr =>
            let (r, i') := clr (Inst obj errs) in
            (r, write_back b (cell_of_inst i') i1)
        | None => (Throw (TypeError "clear is not a function"), i1)
        end
    | (Ok _, i1) => (Throw (TypeError "clear is not a function"), i1)
    end
  else if String.eqb (type b) "array" then
    match get i with
    | (Throw e, i1) => (Throw e, i1)
    | (Ok c, i1) =>
        match truncate c with
        | Ok c' => (Ok tt, write_back b c' i1)
        | Throw e => (Throw e, i1)
        end
    end
  else writeValue U o redirect CUndef b i.

(** [case 'object'] with an [objectType], given the constructor, the
    [clear] and the field assignment of the nested schema. *)
Definition typecast_schema_object
    (construct_nested : data -> outcome inst)
    (clear_nested : inst -> outcome unit * inst)
    (set_nested : string -> data -> inst -> outcome unit * inst)
    (value : data) (originalValue : cell) : outcome cell * cell :=
  match originalValue with
  | CVal DUndef =>
      match construct_nested (DObj []) with
      | Throw e => (Throw e, originalValue)
      | Ok i0 =>
          match assign_all set_nested (enum_entries value) i0 with
          | (Throw e, _) => (Throw e, originalValue)
          | (Ok _, i1) => (Ok (cell_of_inst i1), originalValue)
          end
      end
  | CInst obj errs =>
      match clear_nested (Inst obj errs) with
      | (Throw e, i1) => (Throw e, cell_of_inst i1)
      | (Ok _, i1) =>
          match assign_all set_nested (enum_entries value) i1 with
          | (Throw e, i2) => (Throw e, cell_of_inst i2)
          | (Ok _, i2) => (Ok (cell_of_inst i2), cell_of_inst i2)
          end
      end
  | _ => (Throw (TypeError "schemaObject.clear is not a function"),
          originalValue)
  end.

(** What the object case needs of the factory in [objectType]: its
    constructor, the [clear] of its instances and the assignment of a field
    of its instances. *)
Record nested_ops : Type := {
  n_construct : data -> outcome inst;
  n_clear : inst -> outcome unit * inst;
  n_set : string -> data -> inst -> outcome unit * inst
}.

(** The body of [typecast(value, originalValue, properties)], given the cast
    of an array element and the operations of the nested factory: the cast
    value or the error thrown, and [originalValue] as the call leaves it (the
    array and object cases work on it in place). *)
Definition typecast_body (elem : option (data -> outcome cell))
    (nested : option nested_ops) (b : base) (o : options) (value : data)
    (originalValue : cell) : outcome cell * cell :=
  match apply_transform U (transform b) value originalValue with
  | Throw e => (Throw e, originalValue)
  | Ok value =>
      if match value with DNull => preserveNull o | _ => false end
      then (Ok (CVal DNull), originalValue)
      else if String.eqb (type b) "string" then
        (v <- typecast_string H U b value originalValue ;; Ok (CVal v),
         originalValue)
      else if String.eqb (type b) "number" then
        (v <- typecast_number H U o b value originalValue ;; Ok (CVal v),
         originalValue)
      else if String.eqb (type b) "boolean" then
        (v <- typecast_boolean H U b value originalValue ;; Ok (CVal v),
         originalValue)
      else if String.eqb (type b) "array" then
        typecast_array U elem b value originalValue
      else if String.eqb (type b) "object" then
        if negb (isObject value)
        then (Throw (cast_error ObjectCastError (CVal value) originalValue b),
              originalValue)
        else
          match nested with
          | Some n =>
              typecast_schema_object (n_construct n) (n_clear n) (n_set n)
                value originalValue
          | None => (Ok (CVal value), originalValue)
          end
      else if String.eqb (type b) "date" then
        (v <- typecast_date H U b value originalValue ;; Ok (CVal v),
         originalValue)
      else (Ok (CVal value), originalValue)
  end.

(** The body of the getter [defineGetter] installs, given the constructor of
    the nested factory: an object or array field that holds nothing is
    initialized first. *)
Definition defineGetter_body (construct_nested : option (data -> outcome inst))
    (b : base) (o : options) (i : inst) : outcome cell * inst :=
  let idx := indexOrAliasIndex b in
  match
    (if negb (cell_truthy (slot idx (i_obj i)))
        && (String.eqb (type b) "object" || String.eqb (type b) "array")
     then
       if String.eqb (type b) "object" then
         if negb (isUndefined (default b)) then
           match default_value U b with
           | Throw e => (Throw e, i)
           | Ok d => writeValue U o no_redirect (CVal d) b i
           end
         else
           match construct_nested with
           | Some mk =>
               match mk (DObj []) with
               | Throw e => (Throw e, i)
               | Ok i' => writeValue U o no_redirect (cell_of_inst i') b i
               end
           | None => writeValue U o no_redirect (CVal (DObj [])) b i
           end
       else writeValue U o no_redirect (CArr []) b i
     else (Ok tt, i))
  with
  | (Throw e, i1) => (Throw e, i1)
  | (Ok _, i1) =>
      match getter U (slot idx (i_obj i1)) b with
      | Ok c => (Ok c, i1)
      | Throw e => (Ok CUndef, log_error e i1)
      end
  end.

(** The constructor's loop over the declared defaults: [readOnly] is
    suspended for the assignment of a default. *)
Fixpoint apply_defaults
    (set : bool -> string -> data -> inst -> outcome unit * inst)
    (l : flds) (i : inst) : outcome inst :=
  match l with
  | FNil => Ok i
  | FCons k p rest =>
      if isUndefined (default (p_base p)) then apply_defaults set rest i
      else
        match default_value U (p_base p) with
        | Throw e => Throw e
        | Ok d =>
            match set true k d i with
            | (Throw e, _) => Throw e
            | (Ok _, i') => apply_defaults set rest i'
            end
        end
  end.

(** The body of [new SchemaObjectInstance(values)], given the assignment of
    a field (with [readOnly] suspended or not): the defaults, then the default
    constructor, which populates. *)
Definition construct_body
    (set : bool -> string -> data -> inst -> outcome unit * inst)
    (fs : flds) (values : data) : outcome inst :=
  match apply_defaults set fs empty_inst with
  | Throw e => Throw e
  | Ok i =>
      match assign_all (set false) (enum_entries values) i with
      | (Throw e, _) => Throw e
      | (Ok _, i') => Ok i'
      end
  end.

(** [typecast], the getter of a field, the constructor, the assignment
    [this[k] = v] over the fields of a schema (an unknown key is ignored in
    strict mode) and [clearField] over the fields of a schema, by recursion
    on the schema. *)
Fixpoint typecast (p : props) (o : options) (value : data)
    (originalValue : cell) {struct p} : outcome cell * cell :=
  typecast_body
    match p with
    | Props _ _ (Some pe) => Some (fun v => fst (typecast pe o v CUndef))
    | Props _ _ None => None
    end
    match p with
    | Props _ (Some (Schema o' fs' as s')) _ =>
        let set' :=
          tie (S (field_count fs'))
              (fun redirect => setter_walk fs' o' false redirect) in
        Some {| n_construct := construct s';
                n_clear := clear_walk fs' o' set';
                n_set := set' |}
    | Props _ None _ => None
    end
    (p_base p) o value originalValue

with defineGetter (p : props) (o : options) (i : inst) {struct p}
  : outcome cell * inst :=
  defineGetter_body
    match p with
    | Props _ (Some s) _ => Some (construct s)
    | Props _ None _ => None
    end
    (p_base p) o i

with construct (s : schema) (values : data) {struct s} : outcome inst :=
  match s with
  | Schema o fs =>
      construct_body
        (fun suspended =>
           if suspended
           then setter_walk fs o true
                  (tie (S (field_count fs))
                     (fun redirect => setter_walk fs o false redirect))
           else tie (S (field_count fs))
                  (fun redirect => setter_walk fs o false redirect))
        fs values
  end

with setter_walk (fs : flds) (o : options) (suspended : bool)
    (redirect : string -> data -> inst -> outcome unit * inst)
    (k : string) (value : data) (i : inst) {struct fs}
  : outcome unit * inst :=
  match fs with
  | FNil => (Ok tt, i)
  | FCons k' p rest =>
      if String.eqb k' k
      then defineSetter_with (defineGetter p o) (typecast p o) (p_base p) o
             suspended redirect value i
      else setter_walk rest o suspended redirect k value i
  end

with clear_walk (fs : flds) (o : options)
    (redirect : string -> data -> inst -> outcome unit * inst)
    (i : inst) {struct fs} : outcome unit * inst :=
  match fs with
  | FNil => (Ok tt, i)
  | FCons _ p rest =>
      match
        clearField_with (defineGetter p o)
          match p with
          | Props _ (Some (Schema o' fs')) _ =>
              Some (clear_walk fs' o'
                      (tie (S (field_count fs'))
                         (fun r => setter_walk fs' o' false r)))
          | Props _ None _ => None
          end
          (p_base p) o redirect i
      with
      | (Throw e, i') => (Throw e, i')
      | (Ok _, i') => clear_walk rest o redirect i'
      end
  end.
End Engine.

Section Instance.
Variable H : Host.
Variable U : User.

(** The assignment [instance[k] = value] on an instance of schema [s]. *)
Definition set_field (s : schema)
  : string -> data -> inst -> outcome unit * inst :=
  match s with
  | Schema o fs =>
      tie (S (field_count fs))
          (fun redirect => setter_walk H U fs o false redirect)
  end.

(** The read [instance[k]]. *)
Definition get_field (s : schema) (k : string) (i : inst)
  : outcome cell * inst :=
  match field k (s_fields s) with
  | Some p => defineGetter H U p (s_options s) i
  | None => (Ok CUndef, i)
  end.

(** The setter [defineSetter(index, properties)] installs. *)
Definition defineSetter (p : props) (o : options)
    (redirect : string -> data -> inst -> outcome unit * inst)
    (value : data) (i : inst) : outcome unit * inst :=
  defineSetter_with U (defineGetter H U p o) (typecast H U p o) (p_base p) o
    false redirect value i.

(** [populate(values)] *)
Definition populate (s : schema) (values : data) (i : inst)
  : outcome unit * inst :=
  assign_all (set_field s) (enum_entries values) i.

(** [clear()] *)
Definition clear (s : schema) (i : inst) : outcome unit * inst :=
  clear_walk H U (s_fields s) (s_options s) (set_field s) i.

(** The cast of one candidate of [push] against the element descriptor. *)
Definition element_cast (p : props) (o : options)
  : option (data -> outcome cell) :=
  match p_arrayType p with
  | Some pe => Some (fun v => fst (typecast H U pe o v CUndef))
  | None => None
  end.

(** [SchemaArray.push(...args)] on the wrapper of a field with descriptor
    [p], owned by an instance with options [o]. *)
Definition SchemaArray_push (p : props) (o : options)
    (elems : list cell) (args : list data) : outcome num * list cell :=
  push_with U (element_cast p o) (p_base p) elems args.

(** The operations of the factory in [objectType]. *)
Definition nested_of (p : props) : option nested_ops :=
  match p_objectType p with
  | Some s =>
      Some {| n_construct := construct H U s;
              n_clear := clear s;
              n_set := set_field s |}
  | None => None
  end.

(** The [clear] of the instances the factory in [objectType] makes. *)
Definition nested_clear (p : props)
  : option (inst -> outcome unit * inst) :=
  option_map clear (p_objectType p).

(** The assignment of a field by the constructor's defaults loop
    ([readOnly] suspended) or by anyone else. *)
Definition assign (s : schema) (suspended : bool)
  : string -> data -> inst -> outcome unit * inst :=
  if suspended
  then setter_walk H U (s_fields s) (s_options s) true (set_field s)
  else set_field s.

(** lodash's [_.clone] of a plain value, up to structure. *)
Definition clone_data (d : data) : data :=
  match d with
  | DFun _ => DObj []
  | _ => d
  end.

(** [SchemaArray.toArray()], given [toObject] on the instances the element
    descriptor makes: the plain array, and the elements afterwards. *)
Fixpoint toArray_with (elem_toObject : option (inst -> outcome data * inst))
    (elems : list cell) : outcome (list data) * list cell :=
  match elems with
  | [] => (Ok [], [])
  | c :: rest =>
      match
        match c with
        | CVal d => (Ok (if isObject d then clone_data d else d), c)
        | CInst obj errs =>
            match elem_toObject with
            | Some f =>
                let (r, i') := f (Inst obj errs) in (r, cell_of_inst i')
            | None => (Throw (TypeError "an instance without a schema"), c)
            end
        | CArr _ => (Throw (TypeError "a wrapper inside a wrapper"), c)
        end
      with
      | (Throw e, c') => (Throw e, c' :: rest)
      | (Ok d, c') =>
          let (r, rest') := toArray_with elem_toObject rest in
          (ds <- r ;; Ok (d :: ds), c' :: rest')
      end
  end.

(** What [toObject] writes for one field value ([None]: nothing), and the
    instance afterwards. *)
Definition toObject_value
    (nested : option (inst -> outcome data * inst))
    (elem_nested : option (inst -> outcome data * inst))
    (o : options) (b : base) (value : cell) (i : inst)
  : outcome (option data) * inst :=
  let keep (d : data) : option data :=
    if negb (isDate d) && negb (setUndefined o) && Nat.eqb (size d) 0
    then None else Some d in
  match value with
  | CVal d =>
      if isObject d then
        match d with
        | DArr _ => (Ok (keep d), write_back b (CVal (DArr [])) i)
        | DDate _ => (Ok (Some d), i)
        | _ => (Ok (keep (clone_data d)), i)
        end
      else (Ok (Some d), i)
  | CInst obj errs =>
      match nested with
      | Some f =>
          let (r, i') := f (Inst obj errs) in
          (d <- r ;; Ok (keep d), write_back b (cell_of_inst i') i)
      | None => (Throw (TypeError "an instance without a schema"), i)
      end
  | CArr elems =>
      let (r, elems') := toArray_with elem_nested elems in
      (ds <- r ;; Ok (keep (DArr ds)), write_back b (CArr elems') i)
  end.

(** [toObject()] *)
Fixpoint toObject (s : schema) (i : inst) {struct s} : outcome data * inst :=
  match s with
  | Schema o fs =>
      match toObject_walk fs o [] i with
      | (Throw e, i') => (Throw e, i')
      | (Ok getObj, i') =>
          match toObject_hook o with
          | Some f => (of_ucall (call_toObject U f (DObj getObj)), i')
          | None => (Ok (DObj getObj), i')
          end
      end
  end

with toObject_walk (fs : flds) (o : options) (getObj : list (string * data))
    (i : inst) {struct fs} : outcome (list (string * data)) * inst :=
  match fs with
  | FNil => (Ok getObj, i)
  | FCons index p rest =>
      if invisible (p_base p) then toObject_walk rest o getObj i
      else
        match defineGetter H U p o i with
        | (Throw e, i1) => (Throw e, i1)
        | (Ok value, i1) =>
            if cell_is_undefined value && negb (setUndefined o)
            then toObject_walk rest o getObj i1
            else
              match
                toObject_value
                  match p with
                  | Props _ (Some s') _ => Some (toObject s')
                  | Props _ None _ => None
                  end
                  match p with
                  | Props _ _ (Some (Props _ (Some s') _)) =>
                      Some (toObject s')
                  | _ => None
                  end
                  o (p_base p) value i1
              with
              | (Throw e, i2) => (Throw e, i2)
              | (Ok None, i2) => toObject_walk rest o getObj i2
              | (Ok (Some d), i2) =>
                  toObject_walk rest o (upsert index d getObj) i2
              end
        end
  end.

(** The test of [getErrors] on a required field: the reads of [this[index]]
    are those of the short-circuit
    [this[index] || typeof this[index] === 'boolean' ||
     allowFalsyValues && this[index] !== undefined]. *)
Definition provided (get : inst -> outcome cell * inst) (o : options)
    (i : inst) : outcome bool * inst :=
  match get i with
  | (Throw e, i1) => (Throw e, i1)
  | (Ok c1, i1) =>
      if cell_truthy c1 then (Ok true, i1)
      else
        match get i1 with
        | (Throw e, i2) => (Throw e, i2)
        | (Ok c2, i2) =>
            if match c2 with CVal (DBool _) => true | _ => false end
            then (Ok true, i2)
            else if allowFalsyValues o then
              match get i2 with
              | (Throw e, i3) => (Throw e, i3)
              | (Ok c3, i3) => (Ok (negb (cell_is_undefined c3)), i3)
              end
            else (Ok false, i2)
        end
  end.

(** The required-but-missing check of [getErrors] for one field: the error
    it pushes, if any. *)
Definition required_error (get : inst -> outcome cell * inst) (o : options)
    (index : string) (b : base) (i : inst) : outcome (option exn) * inst :=
  let message := DStr (index ++ " is required but not provided") in
  let (message, req) :=
    match required b with
    | DArr xs =>
        (if truthy (nth 1 xs DUndef) then nth 1 xs DUndef else message,
         nth 0 xs DUndef)
    | r => (message, r)
    end in
  if negb (truthy req) then (Ok None, i)
  else
    match (match req with
           | DFun f => r <- of_ucall (call_required U f (i_obj i)) ;; Ok (truthy r)
           | _ => Ok true
           end) with
    | Throw e => (Throw e, i)
    | Ok false => (Ok None, i)
    | Ok true =>
        match provided get o i with
        | (Throw e, i1) => (Throw e, i1)
        | (Ok true, i1) => (Ok None, i1)
        | (Ok false, i1) =>
            match get i1 with
            | (Throw e, i2) => (Throw e, i2)
            | (Ok setValue, i2) =>
                match get i2 with
                | (Throw e, i3) => (Throw e, i3)
                | (Ok originalValue, i3) =>
                    (Ok (Some (SetterErr SetterError message setValue
                                 originalValue (name b))), i3)
                end
            end
        end
    end.

(** [subError.fieldSchema.name = `${name}.${subError.fieldSchema.name}`] *)
Fixpoint prefix_errors (nm : string) (es : list exn) : outcome (list exn) :=
  match es with
  | [] => Ok []
  | SetterErr c m sv ov f :: rest =>
      rest' <- prefix_errors nm rest ;;
      Ok (SetterErr c m sv ov (nm ++ "." ++ f) :: rest')
  | _ :: _ => Throw (TypeError "Cannot read property 'name' of undefined")
  end.

(** The errors of the sub-SchemaObject of one field. *)
Definition sub_errors (get : inst -> outcome cell * inst)
    (nested : inst -> outcome (list exn) * inst)
    (nm : string) (b : base) (i : inst) : outcome (list exn) * inst :=
  match get i with
  | (Throw e, i1) => (Throw e, i1)
  | (Ok (CInst obj errs), i1) =>
      let (r, i') := nested (Inst obj errs) in
      (es <- r ;; prefix_errors nm es, write_back b (cell_of_inst i') i1)
  | (Ok _, i1) => (Throw (TypeError "getErrors is not a function"), i1)
  end.

(** The first loop of [getErrors()]: the required-but-missing errors, in
    schema order. *)
Fixpoint getErrors_required (fs : flds) (o : options) (errors : list exn)
    (i : inst) {struct fs} : outcome (list exn) * inst :=
  match fs with
  | FNil => (Ok errors, i)
  | FCons index p rest =>
      match required_error (defineGetter H U p o) o index (p_base p) i with
      | (Throw e, i1) => (Throw e, i1)
      | (Ok None, i1) => getErrors_required rest o errors i1
      | (Ok (Some e), i1) => getErrors_required rest o (errors ++ [e]) i1
      end
  end.

(** [getErrors()]: the logged errors, then the required-but-missing errors,
    then those of the sub-SchemaObjects.  (The library renames the shared
    descriptor of a nested required error in place; the model renames the
    error.) *)
Fixpoint getErrors (s : schema) (i : inst) {struct s}
  : outcome (list exn) * inst :=
  match s with
  | Schema o fs =>
      match getErrors_required fs o (i_errors i) i with
      | (Throw e, i1) => (Throw e, i1)
      | (Ok errors, i1) => getErrors_nested fs o errors i1
      end
  end

with getErrors_nested (fs : flds) (o : options) (errors : list exn)
    (i : inst) {struct fs} : outcome (list exn) * inst :=
  match fs with
  | FNil => (Ok errors, i)
  | FCons nm p rest =>
      match p with
      | Props b (Some s') _ =>
          if String.eqb (type b) "object" then
            match sub_errors (defineGetter H U p o) (getErrors s') nm b i with
            | (Throw e, i1) => (Throw e, i1)
            | (Ok es, i1) => getErrors_nested rest o (errors ++ es) i1
            end
          else getErrors_nested rest o errors i
      | Props _ None _ => getErrors_nested rest o errors i
      end
  end.

(** [new SchemaObjectInstance(values)] *)
Definition new_instance (s : schema) (values : data) : outcome inst :=
  construct H U s values.
End Instance.

(* ================================================================== *)
(** ** Descriptors from declarations, a reference host *)

Definition hook_of (d : data) : option string :=
  match d with
  | DFun f => Some f
  | _ => None
  end.

(** The descriptor with the given name and type tag whose other properties
    are read from a properties hash. *)
Definition descriptor (nm ty : string) (h : list (string * data)) : base :=
  let get k := prop (DObj h) k in
  {| name := nm;
     type := ty;
     index := match get "index" with DStr s => s | _ => "" end;
     transform := hook_of (get "transform");
     stringTransform := hook_of (get "stringTransform");
     numberTransform := hook_of (get "numberTransform");
     booleanTransform := hook_of (get "booleanTransform");
     dateTransform := hook_of (get "dateTransform");
     getter_hook := hook_of (get "getter");
     clip := get "clip";
     enum := get "enum";
     minLength := get "minLength";
     maxLength := get "maxLength";
     regex := get "regex";
     min := get "min";
     max := get "max";
     default := get "default";
     readOnly := truthy (get "readOnly");
     invisible := truthy (get "invisible");
     isAlias := strict_eq (get "isAlias") (DBool true);
     required := get "required";
     unique := truthy (get "unique");
     filter := hook_of (get "filter") |}.

(** The options a factory starts from. *)
Definition default_options : options :=
  {| setUndefined := false;
     preserveNull := false;
     allowFalsyValues := true;
     useDecimalNumberGroupSeparator := false;
     onBeforeValueSet := None;
     onValueSet := None;
     toObject_hook := None |}.

Definition is_digit (c : ascii) : bool :=
  Nat.leb 48 (nat_of_ascii c) && Nat.leb (nat_of_ascii c) 57.

Fixpoint digits_value (s : string) (acc : Z) : option Z :=
  match s with
  | EmptyString => Some acc
  | String c rest =>
      if is_digit c
      then digits_value rest (acc * 10 + Z.of_nat (nat_of_ascii c - 48))%Z
      else None
  end.

(** Signed decimal integer literals, the fragment of the host's number
    syntax the examples use. *)
Definition integer_literal (s : string) : option Z :=
  match s with
  | EmptyString => None
  | String "-" rest =>
      match rest with
      | EmptyString => None
      | _ => option_map Z.opp (digits_value rest 0%Z)
      end
  | _ => digits_value s 0%Z
  end.

Definition print_integer (x : num) : string :=
  if PrimFloat.is_nan x then "NaN"
  else if PrimFloat.eqb (num_of_Z (trunc_Z x)) x
  then NilEmpty.string_of_int (Z.to_int (trunc_Z x))
  else "Infinity".

(** A host for the examples: exact on integers below 2^53 and on the strings
    that spell them. *)
Definition reference_host : Host :=
  {| StringToNumber := fun s =>
       match s with
       | EmptyString => PrimFloat.zero
       | _ => match integer_literal s with
              | Some z => num_of_Z z
              | None => PrimFloat.nan
              end
       end;
     NumberToString := print_integer;
     parseFloat := fun s =>
       match integer_literal s with
       | Some z => num_of_Z z
       | None => PrimFloat.nan
       end;
     Date_parse := fun _ => PrimFloat.nan;
     DateToString := fun _ => "Thu Jan 01 1970 00:00:00 GMT+0000";
     FunctionToString := fun f => ("function " ++ f ++ "() { [native code] }")%string;
     FunctionLength := fun _ => PrimFloat.zero;
     RegExp_test := fun src s =>
       match String.index 0 src s with Some _ => true | None => false end |}.

(** User functions for the examples: ["exclaim"] appends an exclamation mark,
    ["nothing"] returns [undefined], ["veto"] returns [false]; any other name
    is the identity. *)
Definition reference_user : User :=
  {| call_transform := fun f v _ =>
       if String.eqb f "exclaim"
       then Returned (DStr (ToString reference_host v ++ "!"))
       else Returned v;
     call_getter := fun f c =>
       if String.eqb f "nothing" then Returned CUndef else Returned c;
     call_default := fun _ => Returned DUndef;
     call_required := fun _ _ => Returned (DBool true);
     call_filter := fun _ _ => Returned (DBool true);
     call_onBeforeValueSet := fun f _ _ =>
       if String.eqb f "veto" then Returned (DBool false) else Returned DUndef;
     call_onValueSet := fun _ _ _ => Returned DUndef;
     call_toObject := fun _ d => Returned d |}.

(* ================================================================== *)
(** ** The Schema Compiler over a heap *)

(** Raw declarations are objects with identity: [normalizeProperties] is
    modelled over a heap, so that what it writes, and where, can be stated. *)
Module Compiler.

Definition loc := nat.

Inductive jval : Type :=
| JUndef
| JNull
| JBool (b : bool)
| JNum (n : num)
| JStr (s : string)
| JRef (l : loc).

(** Plain objects, arrays (their elements under the keys ["0"], ["1"], ...),
    functions with their [name], the classes [new SchemaObject(schema,
    options)] returns (named [SchemaObjectInstance], closed over the schema
    object they were given), and the other built-in objects [_.cloneDeep]
    copies. *)
Inductive okind : Type :=
| KPlain
| KArray
| KFunction (fname : string)
| KFactory (schema_object : loc)
| KBuiltin.

(** An object: its kind and its own enumerable properties, in order. *)
Record object : Type := { kind : okind; entries : list (string * jval) }.

Definition heap := list object.

Definition hread (h : heap) (l : loc) : option object := nth_error h l.

Fixpoint hupdate (h : heap) (l : loc) (o : object) : heap :=
  match h, l with
  | [], _ => []
  | _ :: t, O => o :: t
  | x :: t, S l' => x :: hupdate t l' o
  end.

(** [l[k] = v] *)
Definition hset (h : heap) (l : loc) (k : string) (v : jval) : heap :=
  match hread h l with
  | Some o => hupdate h l {| kind := kind o; entries := upsert k v (entries o) |}
  | None => h
  end.

(** A new object. *)
Definition halloc (h : heap) (o : object) : loc * heap :=
  (List.length h, h ++ [o]).

Definition jtruthy (v : jval) : bool :=
  match v with
  | JUndef | JNull => false
  | JBool b => b
  | JNum n => negb (PrimFloat.is_nan n || PrimFloat.is_zero n)
  | JStr s => negb (String.eqb s "")
  | JRef _ => true
  end.

Definition is_undef (v : jval) : bool :=
  match v with JUndef => true | _ => false end.

(** [v[k]], for [v] other than [null] and [undefined]. *)
Definition get (h : heap) (v : jval) (k : string) : jval :=
  match v with
  | JRef l =>
      match hread h l with
      | Some o =>
          match lookup k (entries o) with
          | Some x => x
          | None =>
              if String.eqb k "name" then
                match kind o with
                | KFunction f => JStr f
                | KFactory _ => JStr "SchemaObjectInstance"
                | _ => JUndef
                end
              else JUndef
          end
      | None => JUndef
      end
  | _ => JUndef
  end.

Definition own_entries (h : heap) (v : jval) : list (string * jval) :=
  match v with
  | JRef l => match hread h l with Some o => entries o | None => [] end
  | _ => []
  end.

Definition kind_of (h : heap) (v : jval) : option okind :=
  match v with
  | JRef l => option_map kind (hread h l)
  | _ => None
  end.

Definition jisObject (v : jval) : bool :=
  match v with JRef _ => true | _ => false end.

Definition jisArray (h : heap) (v : jval) : bool :=
  match kind_of h v with Some KArray => true | _ => false end.

Definition jisFunction (h : heap) (v : jval) : bool :=
  match kind_of h v with
  | Some (KFunction _) | Some (KFactory _) => true
  | _ => false
  end.

Definition lower_ascii (c : ascii) : ascii :=
  let n := nat_of_ascii c in
  if Nat.leb 65 n && Nat.leb n 90 then ascii_of_nat (n + 32) else c.

Fixpoint toLowerCase (s : string) : string :=
  match s with
  | EmptyString => EmptyString
  | String c rest => String (lower_ascii c) (toLowerCase rest)
  end.

(** The state of a deep clone: the heap and the clones made so far. *)
Definition cstate : Type := heap * list (loc * loc).

Fixpoint seen_clone (l : loc) (seen : list (loc * loc)) : option loc :=
  match seen with
  | [] => None
  | (a, b) :: rest => if Nat.eqb a l then Some b else seen_clone l rest
  end.

(** The properties of the source are cloned one by one into the clone [l']. *)
Fixpoint clone_entries (cl : jval -> cstate -> jval * cstate) (l' : loc)
    (es : list (string * jval)) (st : cstate) : cstate :=
  match es with
  | [] => st
  | (k, x) :: rest =>
      let (x', st1) := cl x st in
      clone_entries cl l' rest (hset (fst st1) l' k x', snd st1)
  end.

(** lodash's [baseClone] with [deep]: functions are kept by reference
    inside an object and give [{}] at the top; an object already cloned
    gives its clone. *)
Fixpoint clone (fuel : nat) (nested : bool) (v : jval) (st : cstate)
  : jval * cstate :=
  match fuel with
  | O => (v, st)
  | S fuel' =>
      match v with
      | JRef l =>
          match seen_clone l (snd st), hread (fst st) l with
          | Some l', _ => (JRef l', st)
          | None, None => (v, st)
          | None, Some o =>
              match kind o with
              | KFunction _ | KFactory _ =>
                  if nested then (v, st)
                  else
                    let (l', h') :=
                      halloc (fst st) {| kind := KPlain; entries := [] |} in
                    (JRef l', (h', snd st))
              | k =>
                  let (l', h') :=
                    halloc (fst st) {| kind := k; entries := [] |} in
                  (JRef l',
                   clone_entries (clone fuel' true) l' (entries o)
                     (h', (l, l') :: snd st))
              end
          end
      | _ => (v, st)
      end
  end.

(** [_.cloneDeep(v)] *)
Definition cloneDeep (h : heap) (v : jval) : jval * heap :=
  let (v', st) := clone (S (List.length h)) false v (h, []) in
  (v', fst st).

(** [_.each(properties.type, (value, key) =>
      { if (properties[key] === undefined) properties[key] = value; })] *)
Fixpoint inherit_entries (l : loc) (es : list (string * jval)) (h : heap)
  : heap :=
  match es with
  | [] => h
  | (key, value) :: rest =>
      inherit_entries l rest
        (if is_undef (get h (JRef l) key) then hset h l key value else h)
  end.

(** "Type may be an object with properties": when [properties.type.type]
    exists, the properties of [properties.type] that [properties] lacks are
    copied over, and [properties.type] becomes [properties.type.type]. *)
Definition inherit_type (l : loc) (h : heap) : heap :=
  let t := get h (JRef l) "type" in
  if jisObject t && negb (is_undef (get h t "type"))
  then let h1 := inherit_entries l (own_entries h t) h in
       hset h1 l "type" (get h1 (get h1 (JRef l) "type") "type")
  else h.

(** [null] or [undefined] becomes ['any']; a type with a string [name] other
    than [SchemaObjectInstance] and no own keys becomes that name. *)
Definition name_type (l : loc) (h : heap) : heap :=
  let t := get h (JRef l) "type" in
  match t with
  | JNull | JUndef => hset h l "type" (JStr "any")
  | _ =>
      match get h t "name" with
      | JStr nm =>
          if negb (String.eqb nm "SchemaObjectInstance")
             && Nat.eqb (List.length (own_entries h t)) 0
          then hset h l "type" (JStr nm)
          else h
      | _ => h
      end
  end.

(** A string type is put in lower case. *)
Definition lower_type (l : loc) (h : heap) : heap :=
  match get h (JRef l) "type" with
  | JStr s => hset h l "type" (JStr (toLowerCase s))
  | _ => h
  end.

(** [index: [Type]] or [index: []] becomes
    [{type: 'array', arrayType: Type}]. *)
Definition array_type (l : loc) (h : heap) : heap :=
  let t := get h (JRef l) "type" in
  if jisArray h t
  then let h1 := if Nat.eqb (List.length (own_entries h t)) 0 then h
                 else hset h l "arrayType" (get h t "0") in
       hset h1 l "type" (JStr "array")
  else h.

(** [index: {}] or [index: SchemaObject] becomes
    [{type: 'object', objectType: Type}]; a non-empty plain object gets a
    factory of its own, [new SchemaObject(properties.type, options)], which
    keeps that very object as its schema. *)
Definition object_type (l : loc) (h : heap) : heap :=
  let t := get h (JRef l) "type" in
  match t with
  | JStr _ => h
  | _ =>
      if jisFunction h t
      then hset (hset h l "objectType" t) l "type" (JStr "object")
      else if jisObject t
      then
        let h1 :=
          if Nat.eqb (List.length (own_entries h t)) 0 then h
          else
            match t with
            | JRef lt =>
                let (lf, h') :=
                  halloc h {| kind := KFactory lt; entries := [] |} in
                hset h' l "objectType" (JRef lf)
            | _ => h
            end in
        hset h1 l "type" (JStr "object")
      else h
  end.

(** [if (name) properties.name = name] *)
Definition set_name (l : loc) (name : jval) (h : heap) : heap :=
  if jtruthy name then hset h l "name" name else h.

(** The properties hash [normalizeProperties] works on: a new
    [{type: properties}] for a raw type, a deep clone of a properties hash;
    a falsy declaration is taken as it is. *)
Definition own_properties (h : heap) (properties : jval) : jval * heap :=
  if jtruthy properties then
    if is_undef (get h properties "type")
    then let (l, h') :=
           halloc h {| kind := KPlain; entries := [("type", properties)] |} in
         (JRef l, h')
    else cloneDeep h properties
  else (properties, h).

(** [normalizeProperties(properties, name)]: what it returns or throws, and
    the heap afterwards. *)
Definition normalizeProperties (h : heap) (properties : jval) (name : jval)
  : outcome jval * heap :=
  let (properties, h) := own_properties h properties in
  match properties with
  | JRef l =>
      (Ok (JRef l),
       set_name l name
         (object_type l
            (array_type l (lower_type l (name_type l (inherit_type l h))))))
  | JUndef | JNull =>
      (Throw (TypeError "Cannot read property 'type' of undefined"), h)
  | _ => (Throw (TypeError "Cannot create property 'type'"), h)
  end.

(** The constructor's loop
    [_.each(schema, (properties, index) =>
       { schema[index] = normalizeProperties.call(this, properties, index); })]
    on the schema object at [ls]: the keys are those the object has when
    the loop starts. *)
Fixpoint normalize_loop (ls : loc) (keys : list string) (h : heap)
  : outcome unit * heap :=
  match keys with
  | [] => (Ok tt, h)
  | index :: rest =>
      match normalizeProperties h (get h (JRef ls) index) (JStr index) with
      | (Throw e, h') => (Throw e, h')
      | (Ok d, h') => normalize_loop ls rest (hset h' ls index d)
      end
  end.

Definition normalize_schema (h : heap) (ls : loc) : outcome unit * heap :=
  normalize_loop ls (map fst (own_entries h (JRef ls))) h.

(** Two heaps agree on the objects of [h] that [keep] selects. *)
Definition unchanged (keep : loc -> bool) (h h' : heap) : Prop :=
  forall l, l < List.length h -> keep l = true -> hread h' l = hread h l.

(** [h] keeps the objects of [h0] that [keep] selects, and has at least its
    locations. *)
Definition extends_except (keep : loc -> bool) (h0 h : heap) : Prop :=
  List.length h0 <= List.length h /\ unchanged keep h0 h.

Definition all : loc -> bool := fun _ => true.

Definition not_loc (ls : loc) : loc -> bool := fun l => negb (Nat.eqb l ls).

(** The heap of a caller who wrote [{ age: Number }]: the schema object at 0,
    the function [Number] at 1. *)
Definition age_heap : heap :=
  [ {| kind := KPlain; entries := [("age", JRef 1)] |};
    {| kind := KFunction "Number"; entries := [] |} ].

(** The heap of a caller who wrote [{ owner: { name: String } }]: the schema
    object at 0, the nested declaration object at 1, the function [String]
    at 2. *)
Definition owner_heap : heap :=
  [ {| kind := KPlain; entries := [("owner", JRef 1)] |};
    {| kind := KPlain; entries := [("name", JRef 2)] |};
    {| kind := KFunction "String"; entries := [] |} ].

End Compiler.

(* ================================================================== *)
(** ** The schemas of the specification's scenarios *)

(** The class of an error of the taxonomy. *)
Definition error_class (e : exn) : option err_class :=
  match e with
  | SetterErr c _ _ _ _ => Some c
  | _ => None
  end.

(** The field an error of the taxonomy names. *)
Definition error_field (e : exn) : option string :=
  match e with
  | SetterErr _ _ _ _ f => Some f
  | _ => None
  end.

Definition error_message (e : exn) : option data :=
  match e with
  | SetterErr _ m _ _ _ => Some m
  | _ => None
  end.

(** A descriptor without nested schema or element type. *)
Definition scalar (nm ty : string) (h : list (string * data)) : props :=
  Props (descriptor nm ty h) None None.

(** [{ age: { type: Number, min: 0, max: 120 } }] *)
Definition age_schema : schema :=
  Schema default_options
    (FCons "age"
       (scalar "age" "number" [("min", DNum 0%float); ("max", DNum 120%float)])
       FNil).

(** [{ tags: [{ type: String, maxLength: 5 }] }]: the descriptor of [tags]
    with its element descriptor, as the wrapper's constructor normalizes it
    (no name is passed for an element descriptor). *)
Definition tags_props : props :=
  Props (descriptor "tags" "array" [])
        None
        (Some (scalar "" "string" [("maxLength", DNum 5%float)])).

Definition tags_schema : schema :=
  Schema default_options (FCons "tags" tags_props FNil).

(** [{ name: { type: String, required: true } }] *)
Definition name_schema : schema :=
  Schema default_options
    (FCons "name" (scalar "name" "string" [("required", DBool true)]) FNil).

(** [{ s: { type: String, clip: true, maxLength: m } }] *)
Definition clipped (m : data) : props :=
  scalar "s" "string" [("clip", DBool true); ("maxLength", m)].

(** The inputs the date case takes to its parsing stage: dates, numbers and
    strings other than the empty one. *)
Definition parse_stage (v : data) : bool :=
  match v with
  | DNum _ | DDate _ => true
  | DStr s => negb (String.eqb s "")
  | _ => false
  end.

(** A date with a time value. *)
Definition is_valid_date (d : data) : bool :=
  match d with
  | DDate t => negb (PrimFloat.is_nan t)
  | _ => false
  end.

(** [{ d: Date }] *)
Definition date_props : props := scalar "d" "date" [].

(** [{ o: { type: Object, getter: nothing } }]: an object field whose getter
    hook returns [undefined]. *)
Definition hooked_object_props : props :=
  scalar "o" "object" [("getter", DFun "nothing")].

Unset Implicit Arguments.

(* ================================================================== *)
(** ** Serialization round trip: schemas, stores and snapshots *)

Definition is_none {A : Type} (x : option A) : bool :=
  match x with
  | None => true
  | Some _ => false
  end.

(** A descriptor without hooks: no transform of any kind, no getter hook, no
    filter. *)
Definition hookless (b : base) : bool :=
  is_none (transform b) && is_none (stringTransform b)
  && is_none (numberTransform b) && is_none (booleanTransform b)
  && is_none (dateTransform b) && is_none (getter_hook b)
  && is_none (filter b).

(** Options without handlers and hook, that leave [setUndefined] off. *)
Definition quiet_options (o : options) : bool :=
  is_none (onBeforeValueSet o) && is_none (onValueSet o)
  && is_none (toObject_hook o) && negb (setUndefined o).

Definition scalar_type (t : string) : bool :=
  String.eqb t "string" || String.eqb t "number" || String.eqb t "boolean"
  || String.eqb t "date".

Fixpoint has_key (k : string) (fs : flds) : bool :=
  match fs with
  | FNil => false
  | FCons k' _ rest => String.eqb k' k || has_key k rest
  end.

(** The schemas of the round trip: scalar fields, object fields with a nested
    schema, array fields whose elements are raw, scalar or instances of a
    nested schema; no hooks, no defaults, no read-only fields, no uniqueness;
    every descriptor carries the key it is declared under, and keys are
    distinct. *)
Fixpoint plain_props (p : props) : bool :=
  match p with
  | Props b os op =>
      hookless b && isUndefined (default b) && negb (readOnly b)
      && negb (unique b)
      && (scalar_type (type b)
          || (String.eqb (type b) "object"
              && match os with
                 | Some s => plain_schema s
                 | None => false
                 end)
          || (String.eqb (type b) "array"
              && match op with
                 | Some pe => plain_elem pe
                 | None => true
                 end))
  end
with plain_elem (p : props) : bool :=
  match p with
  | Props b os _ =>
      hookless b
      && (scalar_type (type b)
          || (String.eqb (type b) "object"
              && match os with
                 | Some s => plain_schema s
                 | None => false
                 end))
  end
with plain_schema (s : schema) : bool :=
  match s with
  | Schema o fs => quiet_options o && plain_flds fs
  end
with plain_flds (fs : flds) : bool :=
  match fs with
  | FNil => true
  | FCons k p rest =>
      String.eqb (name (p_base p)) k && negb (has_key k rest)
      && plain_props p && plain_flds rest
  end.

(** What [toArray] gives for an element of a wrapper without element type. *)
Definition ser_raw (c : cell) : data :=
  match c with
  | CVal d => if isObject d then clone_data d else d
  | _ => DUndef
  end.

(** The snapshot of stored values, as a function of the store: what
    [toObject] writes for the value of a field ([None]: the key is left out),
    for an element of a wrapper, and for the fields of a schema. *)
Fixpoint ser_cell (p : props) (c : cell) : option data :=
  match p with
  | Props b os op =>
      if scalar_type (type b) then
        match c with
        | CVal DUndef => None
        | CVal d => Some d
        | _ => None
        end
      else if String.eqb (type b) "object" then
        match os, c with
        | Some (Schema _ fs'), CInst obj _ =>
            match ser_flds fs' obj with
            | [] => None
            | kvs => Some (DObj kvs)
            end
        | _, _ => None
        end
      else
        match c with
        | CArr elems =>
            match map match op with
                      | Some pe => ser_elem pe
                      | None => ser_raw
                      end elems with
            | [] => None
            | xs => Some (DArr xs)
            end
        | _ => None
        end
  end
with ser_elem (p : props) (c : cell) : data :=
  match p with
  | Props b os _ =>
      if scalar_type (type b) then
        match c with
        | CVal d => d
        | _ => DUndef
        end
      else
        match os, c with
        | Some (Schema _ fs'), CInst obj _ => DObj (ser_flds fs' obj)
        | _, _ => DUndef
        end
  end
with ser_flds (fs : flds) (obj : store) : list (string * data) :=
  match fs with
  | FNil => []
  | FCons k p rest =>
      if invisible (p_base p) then ser_flds rest obj
      else
        match ser_cell p (slot k obj) with
        | Some d => (k, d) :: ser_flds rest obj
        | None => ser_flds rest obj
        end
  end.

(** The values a scalar field holds. *)
Definition plain_scalar (d : data) : bool :=
  match d with
  | DUndef | DNull | DBool _ | DNum _ | DStr _ | DDate _ => true
  | _ => false
  end.

Section Validity.
Variable H : Host.
Variable U : User.

(** Validly cast scalar data: a scalar value that the typecast of the field
    gives back as it is. *)
Definition canonical (p : props) (o : options) (d : data) : Prop :=
  plain_scalar d = true
  /\ typecast H U p o d CUndef = (Ok (CVal d), CUndef).

(** A field, an element, the fields of an instance hold validly cast data:
    a scalar field holds nothing or a canonical scalar; an object field nothing
    or a nested instance whose fields do; an array field nothing or a wrapper
    whose elements do. *)
Fixpoint valid_cell (p : props) (o : options) (c : cell) : Prop :=
  match p with
  | Props b os op =>
      if scalar_type (type b) then
        match c with
        | CVal d => canonical (Props b os op) o d
        | _ => False
        end
      else if String.eqb (type b) "object" then
        match os with
        | Some (Schema o' fs') =>
            match c with
            | CVal DUndef => True
            | CInst obj _ => valid_store fs' o' obj
            | _ => False
            end
        | None => False
        end
      else
        match c with
        | CVal DUndef => True
        | CArr elems =>
            Forall match op with
                   | Some pe => valid_elem pe o
                   | None => fun c => exists d, c = CVal d
                   end elems
        | _ => False
        end
  end
with valid_elem (p : props) (o : options) (c : cell) : Prop :=
  match p with
  | Props b os op =>
      if scalar_type (type b) then
        match c with
        | CVal d => canonical (Props b os op) o d
        | _ => False
        end
      else
        match os with
        | Some (Schema o' fs') =>
            match c with
            | CInst obj _ => valid_store fs' o' obj
            | _ => False
            end
        | None => False
        end
  end
with valid_store (fs : flds) (o : options) (obj : store) : Prop :=
  match fs with
  | FNil => True
  | FCons k p rest => valid_cell p o (slot k obj) /\ valid_store rest o obj
  end.
End Validity.

(** A field that holds nothing: no scalar, no or an empty wrapper, no or a
    nested instance whose fields hold nothing. *)
Fixpoint blank_cell (p : props) (c : cell) : Prop :=
  match p with
  | Props b os op =>
      if scalar_type (type b) then c = CUndef
      else if String.eqb (type b) "object" then
        match c with
        | CVal DUndef => True
        | CInst obj _ =>
            match os with
            | Some (Schema _ fs') => blank_store fs' obj
            | None => False
            end
        | _ => False
        end
      else c = CUndef \/ c = CArr []
  end
with blank_store (fs : flds) (obj : store) : Prop :=
  match fs with
  | FNil => True
  | FCons k p rest => blank_cell p (slot k obj) /\ blank_store rest obj
  end.

(** [{ s: { type: String, stringTransform: exclaim } }] *)
Definition exclaim_schema : schema :=
  Schema default_options
    (FCons "s" (scalar "s" "string" [("stringTransform", DFun "exclaim")])
       FNil).

(** The instance a read of field [k] leaves behind in a schema without
    defaults and hooks: an object or array field that holds nothing is
    initialized. *)
Definition materialized (p : props) (k : string) (i : inst) : inst :=
  if cell_truthy (slot k (i_obj i)) then i
  else if String.eqb (type (p_base p)) "object"
  then set_slot k (cell_of_inst empty_inst) i
  else if String.eqb (type (p_base p)) "array" then set_slot k (CArr []) i
  else i.

(** [toObject] on the instances the element descriptor of an array field
    makes. *)
Definition element_toObject (H : Host) (U : User) (p : props)
  : option (inst -> outcome data * inst) :=
  match p_arrayType p with
  | Some (Props _ (Some s') _) => Some (toObject H U s')
  | _ => None
  end.

(** What a snapshot holds for an element of the wrapper of field [p]. *)
Definition ser_element (p : props) : cell -> data :=
  match p_arrayType p with
  | Some pe => ser_elem pe
  | None => ser_raw
  end.

(** The elements of the wrapper of field [p] hold validly cast data. *)
Definition valid_element (H : Host) (U : User) (p : props) (o : options)
  : cell -> Prop :=
  match p_arrayType p with
  | Some pe => valid_elem H U pe o
  | None => fun c => exists d, c = CVal d
  end.

(** The shape of a plain field: scalar, object with a plain nested schema,
    or array with plain elements. *)
Inductive plain_shape (b : base) (os : option schema) (op : option props)
  : Prop :=
| shape_scalar : scalar_type (type b) = true -> plain_shape b os op
| shape_object s :
    type b = "object" -> os = Some s -> plain_schema s = true ->
    plain_shape b os op
| shape_array :
    type b = "array" ->
    match op with Some pe => plain_elem pe = true | None => True end ->
    plain_shape b os op.

(** The statements about [toObject]: the snapshot of one field, of a schema,
    of a list of fields. *)
Section Snapshot.
Variable H : Host.
Variable U : User.

Definition snapshot_field (p : props) : Prop :=
  forall o acc i,
    quiet_options o = true -> plain_props p = true ->
    valid_cell H U p o (slot (name (p_base p)) (i_obj i)) ->
    lookup (name (p_base p)) acc = None ->
    exists i',
      toObject_walk H U (FCons (name (p_base p)) p FNil) o acc i
      = (Ok (acc ++ ser_flds (FCons (name (p_base p)) p FNil) (i_obj i)), i')
      /\ forall k', k' <> name (p_base p) ->
           slot k' (i_obj i') = slot k' (i_obj i).

Definition snapshot_schema (s : schema) : Prop :=
  plain_schema s = true ->
  forall i, valid_store H U (s_fields s) (s_options s) (i_obj i) ->
  exists i',
    toObject H U s i = (Ok (DObj (ser_flds (s_fields s) (i_obj i))), i').

Definition snapshot_flds (fs : flds) : Prop :=
  forall o acc i,
    quiet_options o = true -> plain_flds fs = true ->
    valid_store H U fs o (i_obj i) ->
    (forall k, has_key k fs = true -> lookup k acc = None) ->
    exists i',
      toObject_walk H U fs o acc i = (Ok (acc ++ ser_flds fs (i_obj i)), i').
End Snapshot.

(** The statements about reconstruction: assigning the snapshot of a field
    to a field that holds nothing, populating an instance that holds nothing
    with the snapshot of a store. *)
Section Restoration.
Variable H : Host.
Variable U : User.

Definition restore_field (p : props) : Prop :=
  forall o redirect c d j,
    quiet_options o = true -> plain_props p = true ->
    valid_cell H U p o c -> ser_cell p c = Some d ->
    blank_cell p (slot (name (p_base p)) (i_obj j)) ->
    exists j',
      defineSetter_with U (defineGetter H U p o) (typecast H U p o)
        (p_base p) o false redirect d j = (Ok tt, j')
      /\ valid_cell H U p o (slot (name (p_base p)) (i_obj j'))
      /\ ser_cell p (slot (name (p_base p)) (i_obj j')) = Some d
      /\ forall k', k' <> name (p_base p) ->
           slot k' (i_obj j') = slot k' (i_obj j).

Definition restore_schema (s : schema) : Prop :=
  plain_schema s = true ->
  forall obj j,
    valid_store H U (s_fields s) (s_options s) obj ->
    blank_store (s_fields s) (i_obj j) ->
    exists j',
      assign_all (set_field H U s) (ser_flds (s_fields s) obj) j = (Ok tt, j')
      /\ valid_store H U (s_fields s) (s_options s) (i_obj j')
      /\ ser_flds (s_fields s) (i_obj j') = ser_flds (s_fields s) obj.

Definition restore_flds (fs : flds) : Prop :=
  forall o set redirect obj j,
    quiet_options o = true -> plain_flds fs = true ->
    (forall k v i, has_key k fs = true ->
       set k v i = setter_walk H U fs o false redirect k v i) ->
    valid_store H U fs o obj -> blank_store fs (i_obj j) ->
    exists j',
      assign_all set (ser_flds fs obj) j = (Ok tt, j')
      /\ valid_store H U fs o (i_obj j')
      /\ ser_flds fs (i_obj j') = ser_flds fs obj
      /\ forall k, has_key k fs = false ->
           slot k (i_obj j') = slot k (i_obj j).
End Restoration.

(** [{ id: Number, owner: { name: { type: String, required: true } },
      tags: [String] }] and an instance of it. *)
Definition order_schema : schema :=
  Schema default_options
    (FCons "id" (scalar "id" "number" [])
       (FCons "owner"
          (Props (descriptor "owner" "object" []) (Some name_schema) None)
          (FCons "tags"
             (Props (descriptor "tags" "array" []) None
                (Some (scalar "" "string" [])))
             FNil))).

Definition order_instance : inst :=
  Inst [("id", CVal (DNum 7%float));
        ("owner", CInst [("name", CVal (DStr "ann"))] []);
        ("tags", CArr [CVal (DStr "a"); CVal (DStr "b")])]
       [].

(* ================================================================== *)
(** ** Further schemas and operations *)

(** [{ name: String, n: { type: 'alias', index: 'name' } }] *)
Definition alias_schema : schema :=
  Schema default_options
    (FCons "name" (scalar "name" "string" [])
       (FCons "n" (scalar "n" "alias" [("index", DStr "name")]) FNil)).

(** The fields of a schema, as a list. *)
Fixpoint fields_of (fs : flds) : list (string * props) :=
  match fs with
  | FNil => []
  | FCons k p rest => (k, p) :: fields_of rest
  end.

(** The methods of an instance.  The accessors of a field are defined on the
    instance itself ([__defineGetter__], [__defineSetter__]): a field
    declared under one of these names hides the method, and a call such as
    [this.populate(values)] or [value.toObject()] then calls whatever the
    field holds. *)
Definition instance_methods : list string :=
  ["populate"; "clone"; "toObject"; "toJSON"; "clear"; "getErrors";
   "clearErrors"; "isErrors"; "_isSchemaObject"].

(** The keys every object inherits.  The proxy's test [!schema[name]] finds
    them on any schema object, so an assignment to one of them is taken for
    the assignment of a declared field and reaches [this[name] = value]. *)
Definition inherited_keys : list string :=
  ["constructor"; "hasOwnProperty"; "isPrototypeOf"; "propertyIsEnumerable";
   "toLocaleString"; "toString"; "valueOf"; "__proto__";
   "__defineGetter__"; "__defineSetter__"; "__lookupGetter__";
   "__lookupSetter__"].

(** Keys with a meaning of their own: the private state of an instance
    ([_privateKey]), the reserved field [super], and [length], by which
    lodash takes an object for an array-like one. *)
Definition internal_keys : list string := ["_private"; "super"; "length"].

Definition inherited_key (k : string) : bool :=
  existsb (String.eqb k) inherited_keys.

Definition reserved_name (k : string) : bool :=
  existsb (String.eqb k) (instance_methods ++ inherited_keys ++ internal_keys).

(** No field is declared under a reserved name, in the schema and in the
    schemas of its object fields and of its array elements: the instances
    show their methods. *)
Fixpoint unshadowed_props (p : props) : bool :=
  match p with
  | Props _ os op =>
      match os with
      | Some s => unshadowed_schema s
      | None => true
      end
      && match op with
         | Some pe => unshadowed_props pe
         | None => true
         end
  end
with unshadowed_schema (s : schema) : bool :=
  match s with
  | Schema _ fs => unshadowed_flds fs
  end
with unshadowed_flds (fs : flds) : bool :=
  match fs with
  | FNil => true
  | FCons k p rest =>
      negb (reserved_name k) && unshadowed_props p && unshadowed_flds rest
  end.

(** The log holds errors of the library's taxonomy only, the ones
    [getErrors()] copies with [_.cloneDeep] and tags with the instance. *)
Definition taxonomy_log (es : list exn) : Prop :=
  Forall (fun e => error_class e <> None) es.

(** The message of the required-but-missing error of field [index]: the
    second component of the pair form when it is truthy, the default one
    otherwise. *)
Definition required_message (index : string) (r : data) : data :=
  match r with
  | DArr xs =>
      if truthy (nth 1 xs DUndef) then nth 1 xs DUndef
      else DStr (index ++ " is required but not provided")
  | _ => DStr (index ++ " is required but not provided")
  end.

(** [{ tags: { type: [String], unique: true } }]: the descriptor of [tags]. *)
Definition unique_tags_props : props :=
  Props (descriptor "tags" "array" [("unique", DBool true)])
        None
        (Some (scalar "" "string" [])).

(** No field is flagged [isAlias], in the schema and in the nested schemas
    of its object fields: [clear()] skips no field. *)
Fixpoint unflagged_props (p : props) : bool :=
  match p with
  | Props b os _ =>
      negb (isAlias b)
      && match os with
         | Some s => unflagged_schema s
         | None => true
         end
  end
with unflagged_schema (s : schema) : bool :=
  match s with
  | Schema _ fs => unflagged_flds fs
  end
with unflagged_flds (fs : flds) : bool :=
  match fs with
  | FNil => true
  | FCons _ p rest => unflagged_props p && unflagged_flds rest
  end.

Section ErrorMethods.
Variable H : Host.
Variable U : User.

(** [isErrors()] *)
Definition isErrors (s : schema) (i : inst) : outcome bool * inst :=
  let (r, i') := getErrors H U s i in
  (errors <- r ;; Ok (Nat.ltb 0 (List.length errors)), i').

(** [clearErrors()]: the log is emptied, then that of the instance each
    object field with an [objectType] reads. *)
Fixpoint clearErrors (s : schema) (i : inst) {struct s}
  : outcome unit * inst :=
  match s with
  | Schema o fs => clearErrors_nested fs o (Inst (i_obj i) [])
  end

with clearErrors_nested (fs : flds) (o : options) (i : inst) {struct fs}
  : outcome unit * inst :=
  match fs with
  | FNil => (Ok tt, i)
  | FCons _ p rest =>
      match p with
      | Props b (Some s') _ =>
          if String.eqb (type b) "object" then
            match defineGetter H U p o i with
            | (Throw e, i1) => (Throw e, i1)
            | (Ok (CInst obj errs), i1) =>
                let (r, i') := clearErrors s' (Inst obj errs) in
                let i2 := write_back b (cell_of_inst i') i1 in
                match r with
                | Throw e => (Throw e, i2)
                | Ok _ => clearErrors_nested rest o i2
                end
            | (Ok _, i1) =>
                (Throw (TypeError "clearErrors is not a function"), i1)
            end
          else clearErrors_nested rest o i
      | Props _ None _ => clearErrors_nested rest o i
      end
  end.
End ErrorMethods.

(** The [deleteProperty] trap of the instance's proxy:
    [this[property] = undefined]. *)
Definition deleteProperty (H : Host) (U : User) (s : schema)
    (property : string) (i : inst) : outcome unit * inst :=
  set_field H U s property DUndef i.

(** [{ a: String, b: String }] *)
Definition pair_schema : schema :=
  Schema default_options
    (FCons "a" (scalar "a" "string" [])
       (FCons "b" (scalar "b" "string" []) FNil)).

(** Options whose [onBeforeValueSet] handler returns [false]. *)
Definition vetoing_options : options :=
  {| setUndefined := false;
     preserveNull := false;
     allowFalsyValues := true;
     useDecimalNumberGroupSeparator := false;
     onBeforeValueSet := Some "veto";
     onValueSet := None;
     toObject_hook := None |}.

(** The default options with [allowFalsyValues] turned off. *)
Definition no_falsy_options : options :=
  {| setUndefined := false;
     preserveNull := false;
     allowFalsyValues := false;
     useDecimalNumberGroupSeparator := false;
     onBeforeValueSet := None;
     onValueSet := None;
     toObject_hook := None |}.

(** An error that is not of the library's taxonomy: a runtime error, or what
    a user function raised. *)
Definition benign (e : exn) : Prop := error_class e = None.

(** An assignment that never throws. *)
Definition quiet (r : string -> data -> inst -> outcome unit * inst) : Prop :=
  forall k v j, fst (r k v j) = Ok tt.

(** [clear()] over these fields throws no error of the taxonomy. *)
Definition clear_benign (H : Host) (U : User) (fs : flds) : Prop :=
  forall o r i e i', quiet r ->
    clear_walk H U fs o r i = (Throw e, i') -> benign e.

(** Induction on a compiled schema: descriptors, schemas and field lists
  together, through [objectType] and [arrayType]. *)
Section SchemaInduction.
Variables (P : props -> Prop) (Q : schema -> Prop) (R : flds -> Prop).
Hypothesis HP : forall b os op,
    match os with Some s => Q s | None => True end ->
    match op with Some pe => P pe | None => True end ->
    P (Props b os op).
Hypothesis HQ : forall o fs, R fs -> Q (Schema o fs).
Hypothesis HR0 : R FNil.
Hypothesis HR : forall k p rest, P p -> R rest -> R (FCons k p rest).

Fixpoint props_ind' (p : props) : P p :=
  match p with
  | Props b os op =>
      HP b os op
         match os return match os with Some s => Q s | None => True end with
         | Some s => schema_ind' s
         | None => I
         end
         match op return match op with Some pe => P pe | None => True end with
         | Some pe => props_ind' pe
         | None => I
         end
  end
with schema_ind' (s : schema) : Q s :=
  match s with
  | Schema o fs => HQ o fs (flds_ind' fs)
  end
with flds_ind' (fs : flds) : R fs :=
  match fs with
  | FNil => HR0
  | FCons k p rest => HR k p rest (props_ind' p) (flds_ind' rest)
  end.
End SchemaInduction.


(* ================================================================== *)
(** ** Properties *)

(** *** The equations of the recursive definitions *)

Lemma typecast_eq (H : Host) (U : User) (p : props) (o : options) (v : data)
    (orig : cell) :
  typecast H U p o v orig
  = typecast_body H U (element_cast H U p o) (nested_of H U p) (p_base p) o
      v orig.
Proof.
  destruct p as [b [[o' fs']|] [pe|]]; reflexivity.
Qed.

Lemma defineGetter_eq (H : Host) (U : User) (p : props) (o : options)
    (i : inst) :
  defineGetter H U p o i
  = defineGetter_body U (option_map (construct H U) (p_objectType p))
      (p_base p) o i.
Proof.
  destruct p as [b [s|] op]; reflexivity.
Qed.

Lemma construct_eq (H : Host) (U : User) (s : schema) (values : data) :
  construct H U s values
  = construct_body U (assign H U s) (s_fields s) values.
Proof.
  destruct s as [o fs]. cbn [construct s_fields].
  f_equal.
Qed.

Lemma setter_walk_cons (H : Host) (U : User) (k' : string) (p : props)
    (rest : flds) (o : options) (suspended : bool)
    (redirect : string -> data -> inst -> outcome unit * inst)
    (k : string) (v : data) (i : inst) :
  setter_walk H U (FCons k' p rest) o suspended redirect k v i
  = if String.eqb k' k
    then defineSetter_with U (defineGetter H U p o) (typecast H U p o)
           (p_base p) o suspended redirect v i
    else setter_walk H U rest o suspended redirect k v i.
Proof.
  reflexivity.
Qed.

Lemma clear_walk_cons (H : Host) (U : User) (k : string) (p : props)
    (rest : flds) (o : options)
    (redirect : string -> data -> inst -> outcome unit * inst) (i : inst) :
  clear_walk H U (FCons k p rest) o redirect i
  = match clearField_with U (defineGetter H U p o) (nested_clear H U p)
            (p_base p) o redirect i with
    | (Throw e, i') => (Throw e, i')
    | (Ok _, i') => clear_walk H U rest o redirect i'
    end.
Proof.
  destruct p as [b [[o' fs']|] op]; reflexivity.
Qed.

Ltac host_eval :=
  repeat (cbv -[StringToNumber NumberToString parseFloat Date_parse
                DateToString RegExp_test FunctionToString FunctionLength];
          repeat match goal with
                 | E : _ = _ |- _ => rewrite E
                 end);
  try reflexivity.

(** C3 (Scenario A).  On an instance of [{ age: { type: Number, min: 0,
    max: 120 } }], in a host that reads the strings "15" and "-1" as the
    numbers 15 and -1: [age = "15"] stores the number 15, which a read
    returns, and logs nothing; then [age = "-1"] leaves the read at 15 and
    appends exactly one error, a [NumberMinValidationError] (code 1221), whose
    [errorType] is [ValidationError], not [CastError]. *)
Theorem scenario_A_age (H : Host) (U : User)
    (N15 : StringToNumber H "15" = 15%float)
    (P15 : parseFloat H "15" = 15%float)
    (Nm1 : StringToNumber H "-1" = (-1)%float)
    (Pm1 : parseFloat H "-1" = (-1)%float) :
  let i1 := Inst [("age", CVal (DNum 15%float))] [] in
  let e := SetterErr NumberMinValidationError
             (DStr "Number is too small to meet min requirement.")
             (CVal (DNum (-1)%float)) (CVal (DNum 15%float)) "age" in
  let i2 := Inst [("age", CVal (DNum 15%float))] [e] in
  new_instance H U age_schema DUndef = Ok empty_inst
  /\ set_field H U age_schema "age" (DStr "15") empty_inst = (Ok tt, i1)
  /\ get_field H U age_schema "age" i1 = (Ok (CVal (DNum 15%float)), i1)
  /\ set_field H U age_schema "age" (DStr "-1") i1 = (Ok tt, i2)
  /\ get_field H U age_schema "age" i2 = (Ok (CVal (DNum 15%float)), i2)
  /\ errorType NumberMinValidationError = Some "ValidationError"
  /\ errorCode NumberMinValidationError = 1221%Z.
Proof.
  intros i1 e i2. subst i1 e i2.
  split; [reflexivity|].
  split; [host_eval|].
  split; [reflexivity|].
  split; [host_eval|].
  repeat split.
Qed.

Lemma scenario_A_age_witness :
  StringToNumber reference_host "15" = 15%float
  /\ set_field reference_host reference_user age_schema "age" (DStr "-1")
       (Inst [("age", CVal (DNum 15%float))] [])
     = (Ok tt,
        Inst [("age", CVal (DNum 15%float))]
             [SetterErr NumberMinValidationError
                (DStr "Number is too small to meet min requirement.")
                (CVal (DNum (-1)%float)) (CVal (DNum 15%float)) "age"]).
Proof.
  split; [reflexivity|].
  apply (scenario_A_age reference_host reference_user
           eq_refl eq_refl eq_refl eq_refl).
Defined.

(** C4 (Scenario C).  On [{ name: { type: String, required: true } }], a new
    instance built without input has an empty error log, and [getErrors()]
    returns exactly one error, for the field [name]; after [name = "Ann"],
    [getErrors()] returns the empty list.  The required error is made by
    [getErrors()] from the field's current value: no assignment recorded it,
    and the call does not record it either. *)
Theorem scenario_C_required (H : Host) (U : User) :
  let missing := SetterErr SetterError (DStr "name is required but not provided")
                   CUndef CUndef "name" in
  let ann := Inst [("name", CVal (DStr "Ann"))] [] in
  new_instance H U name_schema DUndef = Ok empty_inst
  /\ i_errors empty_inst = []
  /\ getErrors H U name_schema empty_inst = (Ok [missing], empty_inst)
  /\ error_field missing = Some "name"
  /\ set_field H U name_schema "name" (DStr "Ann") empty_inst = (Ok tt, ann)
  /\ getErrors H U name_schema ann = (Ok [], ann).
Proof.
  repeat split.
Qed.

(** [getErrors()] on fields that are not required and on fields without a
    nested schema adds nothing. *)
Lemma getErrors_required_skip (H : Host) (U : User) (o : options) fs :
  (forall k q, In (k, q) (fields_of fs) -> required (p_base q) = DUndef) ->
  forall errors i, getErrors_required H U fs o errors i = (Ok errors, i).
Proof.
  induction fs as [|k p rest IH]; intros Hall errors i; [reflexivity|].
  cbn [getErrors_required]. unfold required_error.
  rewrite (Hall k p (or_introl eq_refl)). cbn.
  apply IH. intros k' q Hin. apply (Hall k' q). right. exact Hin.
Qed.

Lemma getErrors_nested_skip (H : Host) (U : User) (o : options) fs :
  (forall k q, In (k, q) (fields_of fs) -> p_objectType q = None) ->
  forall errors i, getErrors_nested H U fs o errors i = (Ok errors, i).
Proof.
  induction fs as [|k p rest IH]; intros Hall errors i; [reflexivity|].
  pose proof (Hall k p (or_introl eq_refl)) as Hp.
  destruct p as [b [s'|] op]; [discriminate Hp|].
  cbn [getErrors_nested].
  apply IH. intros k' q Hin. apply (Hall k' q). right. exact Hin.
Qed.

(** The first loop of [getErrors()] when one field only is required: what
    the check of that field reports is what the loop adds. *)
Lemma getErrors_required_at (H : Host) (U : User) (o : options) index p r i :
  required_error U (defineGetter H U p o) o index (p_base p) i = (Ok r, i) ->
  forall fs pre post errors,
  fields_of fs = pre ++ (index, p) :: post ->
  (forall k q, In (k, q) (pre ++ post) -> required (p_base q) = DUndef) ->
  getErrors_required H U fs o errors i
  = (Ok (errors ++ match r with Some e => [e] | None => [] end), i).
Proof.
  intros Hr fs. induction fs as [|k q rest IH]; intros pre post errors Hfs Hall.
  - destruct pre; discriminate Hfs.
  - destruct pre as [|[k0 q0] pre].
    + cbn in Hfs. injection Hfs as -> -> Hpost.
      cbn [getErrors_required]. rewrite Hr.
      assert (Hskip : forall es,
                 getErrors_required H U rest o es i = (Ok es, i)).
      { intros es. apply getErrors_required_skip.
        intros k' q' Hin. apply (Hall k' q'). cbn. rewrite <- Hpost.
        exact Hin. }
      destruct r; rewrite Hskip; [reflexivity|].
      rewrite app_nil_r. reflexivity.
    + cbn in Hfs. injection Hfs as -> -> Hrest.
      cbn [getErrors_required]. unfold required_error at 1.
      rewrite (Hall k0 q0 (or_introl eq_refl)). cbn.
      apply (IH pre post errors Hrest).
      intros k' q' Hin. apply (Hall k' q'). right. exact Hin.
Qed.



(** C2 (Scenario B), as the code runs.  On the wrapper of
    [{ tags: [{ type: String, maxLength: 5 }] }], [push("hello")] appends the
    string and returns the new length; [push("toolong")] leaves the elements
    as they were, but it does so by throwing the
    [StringMaxLengthValidationError] to its caller: the candidate is not
    dropped silently. *)
Theorem push_throws_on_rejected_candidate (H : Host) (U : User) (o : options)
    (elems : list cell) :
  SchemaArray_push H U tags_props o elems [DStr "hello"]
  = (Ok (num_of_nat (List.length (elems ++ [CVal (DStr "hello")]))),
     elems ++ [CVal (DStr "hello")])
  /\ SchemaArray_push H U tags_props o elems [DStr "toolong"]
     = (Throw (SetterErr StringMaxLengthValidationError
                 (DStr "String length too long to meet maxLength requirement.")
                 (CVal (DStr "toolong")) CUndef ""),
        elems).
Proof.
  split; reflexivity.
Qed.

(** C8, as the code runs.  With [clip] and [maxLength: 5] the string
    "toolongvalue" is clipped to its first five characters.  With
    [maxLength: [5, "too long"]] the clip reads the pair itself as the length:
    in a host where the pair is not a number ([Number([5, "too long"])] is
    [NaN]) the string is clipped to the empty string. *)
Theorem clip_reads_pair_as_length (H : Host) (U : User)
    (Hnan : PrimFloat.is_nan
              (ToNumber H (DArr [DNum 5%float; DStr "too long"])) = true) :
  typecast H U (clipped (DNum 5%float)) default_options (DStr "toolongvalue")
    CUndef = (Ok (CVal (DStr "toolo")), CUndef)
  /\ typecast H U (clipped (DArr [DNum 5%float; DStr "too long"]))
       default_options (DStr "toolongvalue") CUndef
     = (Ok (CVal (DStr "")), CUndef).
Proof.
  split; [reflexivity|].
  unfold typecast, clipped, scalar. cbn.
  unfold typecast_string. cbn.
  unfold substr0. rewrite Hnan. cbn. reflexivity.
Qed.

Lemma clip_reads_pair_as_length_witness :
  typecast reference_host reference_user
    (clipped (DArr [DNum 5%float; DStr "too long"]))
    default_options (DStr "toolongvalue") CUndef
  = (Ok (CVal (DStr "")), CUndef).
Proof.
  apply (clip_reads_pair_as_length reference_host reference_user eq_refl).
Defined.

(** *** Dates *)

Lemma apply_transform_throw (U : User) (h : option string) (v : data)
    (orig : cell) (e : exn) :
  apply_transform U h v orig = Throw e -> error_class e = None.
Proof.
  unfold apply_transform. destruct h as [f|]; [|discriminate].
  destruct (call_transform U f v orig); cbn; [discriminate|].
  intros [= <-]. reflexivity.
Qed.

Lemma typecast_date_type (H : Host) (U : User) (p : props) (o : options)
    (v0 v : data) (orig : cell) :
  type (p_base p) = "date" ->
  apply_transform U (transform (p_base p)) v0 orig = Ok v ->
  (v = DNull -> preserveNull o = false) ->
  typecast H U p o v0 orig
  = (x <- typecast_date H U (p_base p) v orig ;; Ok (CVal x), orig).
Proof.
  intros Ht Hv Hn. rewrite typecast_eq. unfold typecast_body.
  rewrite Hv, Ht. cbn.
  destruct v; try reflexivity.
  rewrite (Hn eq_refl). reflexivity.
Qed.

Lemma typecast_date_parse (H : Host) (U : User) (b : base) (v : data)
    (orig : cell) :
  parse_stage v = true ->
  typecast_date H U b v orig
  = if loose_eq_Invalid_Date H (date_of_input H v)
       || negb (isDate (date_of_input H v))
    then Throw (validation_error DateParseValidationError DNull
                  (CVal (date_of_input H v)) orig b)
    else apply_transform U (dateTransform b) (date_of_input H v) orig.
Proof.
  destruct v as [ | |x|n|s|t|r|f|xs|kvs]; try discriminate; try reflexivity.
  destruct s; [discriminate|reflexivity].
Qed.

Lemma invalid_date_is_rejected (H : Host) (d : data) :
  is_valid_date d = false ->
  loose_eq_Invalid_Date H d || negb (isDate d) = true.
Proof.
  destruct d as [ | |x|n|s|t|r|f|xs|kvs]; intros Hd; try reflexivity;
    try (cbn [isDate negb]; apply orb_true_r).
  unfold loose_eq_Invalid_Date, ToString. unfold is_valid_date in Hd.
  destruct (PrimFloat.is_nan t); [reflexivity|discriminate].
Qed.

(** The empty string is an absent date, like [null] and [undefined]: the
    date case raises nothing for it and clears the field. *)
Lemma empty_string_date_is_cleared_not_rejected :
  isString (DStr "") = true
  /\ is_valid_date (date_of_input reference_host (DStr "")) = false
  /\ typecast reference_host reference_user date_props default_options
       (DStr "") CUndef = (Ok CUndef, CUndef).
Proof.
  repeat split.
Qed.

(** C5.  For a date-typed field and the value [v] its [transform] hook
    hands on (the input itself without a hook): if [v] is a date, a number
    or a string (other than the empty one, which is an absent date) and
    denotes no valid date,
    the typecast throws a [DateParseValidationError] (code 1231, a
    [ValidationError]); if [v] is a boolean or an object other than a date
    (an array, a plain object, a function, a regular expression), it throws a
    [DateCastError] (a [CastError]); and these are the only values for which
    it throws a [CastError]. *)
Theorem date_failures_are_validation_errors (H : Host) (U : User) (p : props)
    (o : options) (v0 v : data) (orig : cell)
    (Htype : type (p_base p) = "date")
    (Hv : apply_transform U (transform (p_base p)) v0 orig = Ok v) :
  (isDate v || isNumber v || isString v = true -> v <> DStr "" ->
   is_valid_date (date_of_input H v) = false ->
   exists e,
     typecast H U p o v0 orig = (Throw e, orig)
     /\ error_class e = Some DateParseValidationError)
  /\ (isBoolean v || (isObject v && negb (isDate v)) = true ->
      exists e,
        typecast H U p o v0 orig = (Throw e, orig)
        /\ error_class e = Some DateCastError)
  /\ (forall e c,
        typecast H U p o v0 orig = (Throw e, orig) ->
        error_class e = Some c -> errorType c = Some "CastError" ->
        isBoolean v || (isObject v && negb (isDate v)) = true)
  /\ errorType DateParseValidationError = Some "ValidationError"
  /\ errorCode DateParseValidationError = 1231%Z
  /\ errorType DateCastError = Some "CastError".
Proof.
  split; [|split; [|split]].
  - intros Hshape Hne Hbad.
    assert (Hstage : parse_stage v = true).
    { destruct v; try discriminate; try reflexivity.
      destruct s; [congruence|reflexivity]. }
    rewrite (typecast_date_type H U p o v0 v orig Htype Hv)
      by (intros ->; discriminate).
    rewrite (typecast_date_parse H U _ _ _ Hstage).
    rewrite (invalid_date_is_rejected H _ Hbad).
    eexists; split; reflexivity.
  - intros Hshape.
    rewrite (typecast_date_type H U p o v0 v orig Htype Hv)
      by (intros ->; discriminate).
    destruct v; try discriminate; cbn; eexists; split; reflexivity.
  - intros e c Hthrow Hc Hty.
    destruct (isBoolean v || (isObject v && negb (isDate v))) eqn:Eshape;
      [reflexivity|exfalso].
    destruct (parse_stage v) eqn:Hstage.
    + rewrite (typecast_date_type H U p o v0 v orig Htype Hv) in Hthrow
        by (intros ->; discriminate).
      rewrite (typecast_date_parse H U _ _ _ Hstage) in Hthrow.
      destruct (loose_eq_Invalid_Date H (date_of_input H v)
                || negb (isDate (date_of_input H v))).
      * cbn in Hthrow. injection Hthrow as <-. cbn in Hc.
        injection Hc as <-. discriminate.
      * destruct (apply_transform U (dateTransform (p_base p))
                    (date_of_input H v) orig) eqn:Et; cbn in Hthrow.
        -- discriminate.
        -- injection Hthrow as <-.
           rewrite (apply_transform_throw _ _ _ _ _ Et) in Hc. discriminate.
    + destruct v as [ | |x|n|s|t|r|f|xs|kvs]; try discriminate.
      * rewrite (typecast_date_type H U p o v0 _ orig Htype Hv) in Hthrow
          by discriminate.
        discriminate.
      * rewrite typecast_eq in Hthrow. unfold typecast_body in Hthrow.
        rewrite Hv, Htype in Hthrow. cbn in Hthrow.
        destruct (preserveNull o); discriminate.
      * destruct s; [|discriminate].
        rewrite (typecast_date_type H U p o v0 _ orig Htype Hv) in Hthrow
          by discriminate.
        discriminate.
  - repeat split.
Qed.

Lemma date_failures_are_validation_errors_witness :
  exists e,
    typecast reference_host reference_user date_props default_options
      (DStr "tomorrow") CUndef = (Throw e, CUndef)
    /\ error_class e = Some DateParseValidationError.
Proof.
  apply (proj1 (date_failures_are_validation_errors reference_host
                  reference_user date_props default_options
                  (DStr "tomorrow") (DStr "tomorrow") CUndef
                  eq_refl eq_refl));
    [reflexivity | discriminate | reflexivity].
Defined.

(** *** Reads of object and array fields *)

Lemma lookup_upsert {A : Type} (k : string) (v : A) (kvs : list (string * A)) :
  lookup k (upsert k v kvs) = Some v.
Proof.
  induction kvs as [|[k' v'] rest IH]; cbn.
  - rewrite String.eqb_refl. reflexivity.
  - destruct (String.eqb k' k) eqn:E; cbn.
    + rewrite String.eqb_refl. reflexivity.
    + rewrite E. exact IH.
Qed.

Lemma slot_set_slot (k : string) (c : cell) (i : inst) :
  slot k (i_obj (set_slot k c i)) = c.
Proof.
  unfold slot, set_slot. cbn. rewrite lookup_upsert. reflexivity.
Qed.

Lemma writeValue_plain (U : User) (o : options)
    (r : string -> data -> inst -> outcome unit * inst) (c : cell) (b : base)
    (i : inst) :
  onBeforeValueSet o = None -> onValueSet o = None ->
  String.eqb (type b) "alias" = false ->
  writeValue U o r c b i = (Ok tt, set_slot (name b) c i).
Proof.
  intros Hb Hs Ha. unfold writeValue. rewrite Hb, Hs, Ha. reflexivity.
Qed.




(** *** Assignments *)

Lemma defineSetter_with_ok (U : User) get cast b o s r v i :
  fst (defineSetter_with U get cast b o s r v i) = Ok tt.
Proof.
  unfold defineSetter_with.
  destruct (readOnly b && negb s); [reflexivity|].
  destruct (get i) as [[orig|e] i1]; [|reflexivity].
  destruct (cast v orig) as [[tv|e] m]; [|reflexivity].
  destruct (writeValue U o r tv b (write_back b m i1)) as [[[]|e] i3];
    reflexivity.
Qed.

Lemma setter_walk_ok (H : Host) (U : User) fs o s r k v i :
  fst (setter_walk H U fs o s r k v i) = Ok tt.
Proof.
  induction fs as [|k' p rest IH]; [reflexivity|].
  rewrite setter_walk_cons.
  destruct (String.eqb k' k); [apply defineSetter_with_ok|exact IH].
Qed.

Lemma tie_ok n step k v i :
  (forall r k v i, fst (step r k v i) = Ok tt) ->
  fst (tie n step k v i) = Ok tt.
Proof.
  intros Hs. destruct n; [reflexivity|]. cbn. apply Hs.
Qed.

Lemma set_field_ok (H : Host) (U : User) s k v i :
  fst (set_field H U s k v i) = Ok tt.
Proof.
  destruct s as [o fs]. unfold set_field. apply tie_ok.
  intros. apply setter_walk_ok.
Qed.

Lemma assign_all_ok set entries i :
  (forall k v i, fst (set k v i) = Ok tt) ->
  fst (assign_all set entries i) = Ok tt.
Proof.
  intros Hs. revert i. induction entries as [|[k v] rest IH]; intros i; [reflexivity|].
  cbn. specialize (Hs k v i). destruct (set k v i) as [[[]|e] i']; cbn in Hs; [apply IH|discriminate].
Qed.


Lemma of_ucall_benign {A : Type} (r : ucall A) (e : exn) :
  of_ucall r = Throw e -> benign e.
Proof. destruct r; cbn; [discriminate|]. intros [= <-]. reflexivity. Qed.

Lemma default_value_benign (U : User) (b : base) (e : exn) :
  default_value U b = Throw e -> benign e.
Proof.
  unfold default_value. destruct (default b); try discriminate.
  apply of_ucall_benign.
Qed.


Lemma writeValue_benign (U : User) (o : options) r c b i e i' :
  quiet r ->
  writeValue U o r c b i = (Throw e, i') -> benign e.
Proof.
  intros Hr. unfold writeValue.
  destruct (onBeforeValueSet o) as [f|].
  - destruct (call_onBeforeValueSet U f c (name b)) as [x|d] eqn:Ec; cbn.
    + destruct (negb (strict_eq x (DBool false))); [|discriminate].
      destruct (String.eqb (type b) "alias").
      * destruct c; cbn; try (intros [= <- _]; reflexivity).
        intros E. specialize (Hr (index b) d i). rewrite E in Hr. discriminate.
      * destruct (onValueSet o) as [g|]; [|discriminate].
        destruct (call_onValueSet U g c (name b)); cbn; [discriminate|].
        intros [= <- _]. reflexivity.
    + intros [= <- _]. reflexivity.
  - destruct (String.eqb (type b) "alias").
    + destruct c; cbn; try (intros [= <- _]; reflexivity).
      intros E. specialize (Hr (index b) d i). rewrite E in Hr. discriminate.
    + destruct (onValueSet o) as [g|]; [|discriminate].
      destruct (call_onValueSet U g c (name b)); cbn; [discriminate|].
      intros [= <- _]. reflexivity.
Qed.

Lemma no_redirect_quiet : quiet no_redirect.
Proof. intros k v j. reflexivity. Qed.

Lemma defineGetter_body_benign (U : User) mk b o i e i' :
  (forall mk0, mk = Some mk0 -> forall v e, mk0 v = Throw e -> benign e) ->
  defineGetter_body U mk b o i = (Throw e, i') -> benign e.
Proof.
  intros Hmk. unfold defineGetter_body.
  match goal with
  | |- match ?m with _ => _ end = _ -> _ => destruct m as [[[]|e1] i1] eqn:Em
  end.
  - destruct (getter U (slot (indexOrAliasIndex b) (i_obj i1)) b); discriminate.
  - intros [= <- _].
    destruct (negb (cell_truthy (slot (indexOrAliasIndex b) (i_obj i)))
              && (String.eqb (type b) "object" || String.eqb (type b) "array"));
      [|discriminate].
    destruct (String.eqb (type b) "object").
    + destruct (negb (isUndefined (default b))).
      * destruct (default_value U b) eqn:Ed.
        -- eapply writeValue_benign; [apply no_redirect_quiet|exact Em].
        -- injection Em as <- _. eapply default_value_benign; exact Ed.
      * destruct mk as [mk0|].
        -- destruct (mk0 (DObj [])) eqn:Ek.
           ++ eapply writeValue_benign; [apply no_redirect_quiet|exact Em].
           ++ injection Em as <- _. eapply Hmk; [reflexivity|exact Ek].
        -- eapply writeValue_benign; [apply no_redirect_quiet|exact Em].
    + eapply writeValue_benign; [apply no_redirect_quiet|exact Em].
Qed.

Lemma apply_defaults_benign (U : User) set l i e :
  (forall s k v j, fst (set s k v j) = Ok tt) ->
  apply_defaults U set l i = Throw e -> benign e.
Proof.
  intros Hs. revert i. induction l as [|k p rest IH]; intros i; cbn; [discriminate|].
  destruct (isUndefined (default (p_base p))); [apply IH|].
  destruct (default_value U (p_base p)) eqn:Ed.
  - specialize (Hs true k a i).
    destruct (set true k a i) as [[[]|e1] i1]; cbn in Hs; [apply IH|discriminate].
  - intros [= <-]. eapply default_value_benign; exact Ed.
Qed.

Lemma construct_body_benign (U : User) set fs values e :
  (forall s k v j, fst (set s k v j) = Ok tt) ->
  construct_body U set fs values = Throw e -> benign e.
Proof.
  intros Hs. unfold construct_body.
  destruct (apply_defaults U set fs empty_inst) eqn:Ea.
  - pose proof (assign_all_ok (set false) (enum_entries values) a (Hs false)) as Hq.
    destruct (assign_all (set false) (enum_entries values) a) as [[[]|e1] i1];
      cbn in Hq; discriminate.
  - intros [= <-]. eapply apply_defaults_benign; eassumption.
Qed.

Lemma assign_ok (H : Host) (U : User) s sus k v j :
  fst (assign H U s sus k v j) = Ok tt.
Proof.
  unfold assign. destruct sus; [apply setter_walk_ok|apply set_field_ok].
Qed.

Lemma construct_benign (H : Host) (U : User) s values e :
  construct H U s values = Throw e -> benign e.
Proof.
  rewrite construct_eq. apply construct_body_benign. apply assign_ok.
Qed.

Lemma defineGetter_benign (H : Host) (U : User) p o i e i' :
  defineGetter H U p o i = (Throw e, i') -> benign e.
Proof.
  rewrite defineGetter_eq. apply defineGetter_body_benign.
  intros mk0 Hmk v e0. destruct (p_objectType p) as [s|]; [|discriminate].
  injection Hmk as <-. apply construct_benign.
Qed.

Lemma truncate_benign c e : truncate c = Throw e -> benign e.
Proof.
  destruct c as [d|xs|ob er]; cbn; try discriminate.
  destruct d; cbn; try discriminate; intros [= <-]; reflexivity.
Qed.

Lemma clearField_with_benign (U : User) get nc b o r i e i' :
  (forall j e j', get j = (Throw e, j') -> benign e) ->
  (forall clr, nc = Some clr ->
     forall j e j', clr j = (Throw e, j') -> benign e) ->
  quiet r ->
  clearField_with U get nc b o r i = (Throw e, i') -> benign e.
Proof.
  intros Hget Hnc Hr. unfold clearField_with.
  destruct (isAlias b); [discriminate|].
  destruct (String.eqb (type b) "object").
  - destruct (get i) as [[c|e1] i1] eqn:Eg.
    + destruct c as [d|xs|ob er]; try (intros [= <- _]; reflexivity).
      destruct nc as [clr|]; [|intros [= <- _]; reflexivity].
      destruct (clr (Inst ob er)) as [r1 i2] eqn:Ec.
      intros [= -> _]. eapply Hnc; [reflexivity|exact Ec].
    + intros [= <- _]. eapply Hget; exact Eg.
  - destruct (String.eqb (type b) "array").
    + destruct (get i) as [[c|e1] i1] eqn:Eg.
      * destruct (truncate c) eqn:Et; [discriminate|].
        intros [= <- _]. eapply truncate_benign; exact Et.
      * intros [= <- _]. eapply Hget; exact Eg.
    + apply writeValue_benign. exact Hr.
Qed.


Lemma set_field_quiet (H : Host) (U : User) s : quiet (set_field H U s).
Proof. intros k v j. apply set_field_ok. Qed.

Lemma clear_walk_benign (H : Host) (U : User) (fs : flds) :
  clear_benign H U fs.
Proof.
  apply (flds_ind'
           (fun p => forall s, p_objectType p = Some s ->
                               clear_benign H U (s_fields s))
           (fun s => clear_benign H U (s_fields s))
           (clear_benign H U)).
  - intros b os op Hos _ s Hs. cbn in Hs. subst os. exact Hos.
  - intros o fs0 Hfs. exact Hfs.
  - intros o r i e i' _. cbn. discriminate.
  - intros k p rest HP HR o r i e i' Hr. rewrite clear_walk_cons.
    destruct (clearField_with U (defineGetter H U p o) (nested_clear H U p)
                (p_base p) o r i) as [[[]|e1] i1] eqn:Ec.
    + apply HR. exact Hr.
    + intros [= <- _].
      eapply clearField_with_benign; [| |exact Hr|exact Ec].
      * intros j e0 j'. apply defineGetter_benign.
      * intros clr Hclr. unfold nested_clear in Hclr.
        destruct (p_objectType p) as [s|] eqn:Es; [|discriminate].
        injection Hclr as <-. intros j e0 j'. unfold clear.
        apply (HP s eq_refl). apply set_field_quiet.
Qed.

Lemma typecast_schema_object_keeps (n : nested_ops) v orig e orig' :
  (forall d e, n_construct n d = Throw e -> benign e) ->
  (forall j e j', n_clear n j = (Throw e, j') -> benign e) ->
  quiet (n_set n) ->
  typecast_schema_object (n_construct n) (n_clear n) (n_set n) v orig
  = (Throw e, orig') ->
  error_class e <> None -> orig' = orig.
Proof.
  intros Hc Hcl Hs. unfold typecast_schema_object.
  destruct orig as [d|xs|ob er].
  - destruct d; try (intros [= _ <-]; reflexivity).
    destruct (n_construct n (DObj [])); [|intros [= _ <-]; reflexivity].
    destruct (assign_all (n_set n) (enum_entries v) a) as [[[]|e1] i1];
      intros [= _ <-]; reflexivity.
  - intros [= _ <-]; reflexivity.
  - destruct (n_clear n (Inst ob er)) as [[[]|e1] i1] eqn:Ec.
    + pose proof (assign_all_ok (n_set n) (enum_entries v) i1 Hs) as Hq.
      destruct (assign_all (n_set n) (enum_entries v) i1) as [[[]|e2] i2];
        cbn in Hq; discriminate.
    + intros [= <- _] Hne. exfalso. apply Hne. eapply Hcl. exact Ec.
Qed.

Lemma nested_of_benign (H : Host) (U : User) p n :
  nested_of H U p = Some n ->
  (forall d e, n_construct n d = Throw e -> benign e)
  /\ (forall j e j', n_clear n j = (Throw e, j') -> benign e)
  /\ quiet (n_set n).
Proof.
  unfold nested_of. destruct (p_objectType p) as [s|]; [|discriminate].
  intros [= <-]. cbn. repeat split.
  - intros d e. apply construct_benign.
  - intros j e j'. unfold clear. apply clear_walk_benign. apply set_field_quiet.
  - apply set_field_quiet.
Qed.

Lemma typecast_keeps_original (H : Host) (U : User) p o v orig e orig' :
  type (p_base p) <> "array" ->
  typecast H U p o v orig = (Throw e, orig') ->
  error_class e <> None -> orig' = orig.
Proof.
  intros Hty. rewrite typecast_eq. unfold typecast_body.
  destruct (apply_transform U (transform (p_base p)) v orig) as [v1|e1];
    [|intros [= _ <-]; reflexivity].
  destruct (match v1 with DNull => preserveNull o | _ => false end);
    [discriminate|].
  destruct (String.eqb (type (p_base p)) "string"); [intros [= _ <-]; reflexivity|].
  destruct (String.eqb (type (p_base p)) "number"); [intros [= _ <-]; reflexivity|].
  destruct (String.eqb (type (p_base p)) "boolean"); [intros [= _ <-]; reflexivity|].
  destruct (String.eqb (type (p_base p)) "array") eqn:Ea.
  { apply String.eqb_eq in Ea. contradiction. }
  destruct (String.eqb (type (p_base p)) "object").
  - destruct (negb (isObject v1)); [intros [= _ <-]; reflexivity|].
    destruct (nested_of H U p) as [n|] eqn:En; [|discriminate].
    destruct (nested_of_benign H U p n En) as (Hc & Hcl & Hs).
    apply typecast_schema_object_keeps; assumption.
  - destruct (String.eqb (type (p_base p)) "date"); intros [= _ <-]; reflexivity.
Qed.

Lemma upsert_same {A : Type} (k : string) (v : A) (kvs : list (string * A)) :
  lookup k kvs = Some v -> upsert k v kvs = kvs.
Proof.
  induction kvs as [|[k' v'] rest IH]; cbn; [discriminate|].
  destruct (String.eqb k' k) eqn:E.
  - intros [= ->]. apply String.eqb_eq in E. subst. reflexivity.
  - intros Hl. rewrite (IH Hl). reflexivity.
Qed.

Lemma defineGetter_result (H : Host) (U : User) p o i c i1 :
  getter_hook (p_base p) = None ->
  defineGetter H U p o i = (Ok c, i1) ->
  c = slot (indexOrAliasIndex (p_base p)) (i_obj i1).
Proof.
  intros Hh. rewrite defineGetter_eq. unfold defineGetter_body.
  match goal with
  | |- match ?m with _ => _ end = _ -> _ => destruct m as [[[]|e1] j]
  end; [|discriminate].
  unfold getter. rewrite Hh. intros [= <- <-]. reflexivity.
Qed.

Lemma write_back_read (H : Host) (U : User) p o i c i1 :
  defineGetter H U p o i = (Ok c, i1) ->
  write_back (p_base p) c i1 = i1.
Proof.
  intros Hg. unfold write_back.
  destruct (getter_hook (p_base p)) eqn:Hh; [reflexivity|].
  pose proof (defineGetter_result H U p o i c i1 Hh Hg) as ->.
  unfold slot.
  destruct (lookup (indexOrAliasIndex (p_base p)) (i_obj i1)) eqn:El;
    [|reflexivity].
  unfold set_slot. rewrite (upsert_same _ _ _ El). destruct i1; reflexivity.
Qed.

Lemma write_back_errors b c i : i_errors (write_back b c i) = i_errors i.
Proof.
  unfold write_back. destruct (getter_hook b); [reflexivity|].
  destruct (lookup (indexOrAliasIndex b) (i_obj i)); reflexivity.
Qed.

Lemma writeValue_no_redirect_errors (U : User) o c b i r i' :
  writeValue U o no_redirect c b i = (r, i') -> i_errors i' = i_errors i.
Proof.
  unfold writeValue.
  destruct (match onBeforeValueSet o with
            | None => Ok true
            | Some f =>
                r0 <- of_ucall (call_onBeforeValueSet U f c (name b)) ;;
                Ok (negb (strict_eq r0 (DBool false)))
            end) as [[|]|e]; try (intros [= _ <-]; reflexivity).
  destruct (String.eqb (type b) "alias").
  - destruct (input_of_cell c); intros [= _ <-]; reflexivity.
  - destruct (onValueSet o); intros [= _ <-]; reflexivity.
Qed.


Lemma typecast_array_refill (H : Host) (U : User) b os op o xs es :
  transform b = None -> type b = "array" ->
  typecast H U (Props b os op) o (DArr xs) (CArr es)
  = match refill U (element_cast H U (Props b os op) o) b [] xs with
    | (Throw e, elems) => (Throw e, CArr elems)
    | (Ok _, elems) => (Ok (CArr elems), CArr elems)
    end.
Proof.
  intros Htr Ht. rewrite typecast_eq. unfold typecast_body.
  cbn [p_base]. rewrite Htr, Ht. reflexivity.
Qed.


(** Without a getter hook, a read that returns logs nothing. *)
Lemma defineGetter_hookless_log (H : Host) (U : User) p o i c i1 :
  getter_hook (p_base p) = None ->
  defineGetter H U p o i = (Ok c, i1) -> i_errors i1 = i_errors i.
Proof.
  intros Hg. rewrite defineGetter_eq. unfold defineGetter_body.
  match goal with
  | |- match ?m with _ => _ end = _ -> _ =>
      assert (Hm : forall r j, m = (r, j) -> i_errors j = i_errors i);
      [|destruct m as [[[]|e] j] eqn:Em; [|discriminate]]
  end.
  { intros r j.
    destruct (negb (cell_truthy (slot (indexOrAliasIndex (p_base p))
                                   (i_obj i)))
              && (String.eqb (type (p_base p)) "object"
                  || String.eqb (type (p_base p)) "array"));
      [|intros [= _ <-]; reflexivity].
    destruct (String.eqb (type (p_base p)) "object");
      [|apply writeValue_no_redirect_errors].
    destruct (negb (isUndefined (default (p_base p)))).
    - destruct (default_value U (p_base p));
        [apply writeValue_no_redirect_errors|intros [= _ <-]; reflexivity].
    - destruct (option_map (construct H U) (p_objectType p)) as [mk|];
        [|apply writeValue_no_redirect_errors].
      destruct (mk (DObj []));
        [apply writeValue_no_redirect_errors|intros [= _ <-]; reflexivity]. }
  unfold getter. rewrite Hg. intros [= _ <-]. apply (Hm _ _ eq_refl).
Qed.

(** A read that finds something in the slot, or the read of a field that is
    neither object- nor array-typed, leaves the instance as it is. *)
Lemma defineGetter_settled (H : Host) (U : User) p o i c i1 :
  getter_hook (p_base p) = None ->
  cell_truthy (slot (indexOrAliasIndex (p_base p)) (i_obj i)) = true
  \/ (type (p_base p) <> "object" /\ type (p_base p) <> "array") ->
  defineGetter H U p o i = (Ok c, i1) -> i1 = i.
Proof.
  intros Hg Hs. rewrite defineGetter_eq. unfold defineGetter_body, getter.
  rewrite Hg.
  assert (E : negb (cell_truthy (slot (indexOrAliasIndex (p_base p))
                                   (i_obj i)))
              && (String.eqb (type (p_base p)) "object"
                  || String.eqb (type (p_base p)) "array") = false).
  { destruct Hs as [-> | [Ho Ha]]; [reflexivity|].
    apply String.eqb_neq in Ho, Ha. rewrite Ho, Ha. apply andb_false_r. }
  rewrite E. intros [= _ <-]. reflexivity.
Qed.

(** The refill of a wrapper stops at the first candidate its element
    descriptor rejects: the wrapper holds the casts of the candidates before
    it. *)
Lemma refill_rejects (U : User) (f : data -> outcome cell) b :
  filter b = None -> unique b = false ->
  forall pre cs x e post acc,
    Forall2 (fun x c' => f x = Ok c') pre cs ->
    f x = Throw e ->
    refill U (Some f) b acc (pre ++ x :: post) = (Throw e, acc ++ cs).
Proof.
  intros Hf Hu pre cs x e post acc Hall Hx. revert acc.
  induction Hall as [|y c' pre cs Hy Hrest IH]; intros acc.
  - cbn [app refill]. unfold push_with. cbn [map_outcome]. rewrite Hx.
    cbn [bind]. rewrite app_nil_r. reflexivity.
  - cbn [app refill]. unfold push_with. rewrite Hf, Hu.
    cbn [map_outcome]. rewrite Hy. cbn [bind]. rewrite IH.
    rewrite <- app_assoc. reflexivity.
Qed.

(** C1, as the code runs.  Assigning a field never throws (no reserved name
    is declared, and the key is none every object inherits).  For a field
    that is not read-only and has no getter hook:
    - when the field is not array-typed and the typecast rejects the input
      with an error of the taxonomy, the setter returns, the log is the log
      before the assignment with this one error appended, and the instance
      is otherwise as the setter's read left it (as it was, unless that read
      initialized an object field that held nothing);
    - when the field is array-typed and holds a wrapper, the wrapper is
      written in place: after a rejection it holds what the typecast left in
      it, and for an array whose candidate [x] is the first the element
      descriptor rejects (no transform, filter, uniqueness) that is the
      casts of the candidates before [x], not the previous elements.
    With a getter hook that throws, on a field that is neither object- nor
    array-typed, a rejected assignment appends two records: what the hook
    threw, then the rejection. *)
Theorem assignment_logs_rejections (H : Host) (U : User) :
  (forall s k v i,
      unshadowed_schema s = true -> inherited_key k = false ->
      fst (set_field H U s k v i) = Ok tt)
  /\ (forall p o redirect v i orig i1 e orig',
        readOnly (p_base p) = false ->
        getter_hook (p_base p) = None ->
        type (p_base p) <> "array" ->
        defineGetter H U p o i = (Ok orig, i1) ->
        typecast H U p o v orig = (Throw e, orig') ->
        error_class e <> None ->
        defineSetter H U p o redirect v i = (Ok tt, log_error e i1)
        /\ i_errors (log_error e i1) = (i_errors i ++ [e])%list
        /\ (cell_truthy (slot (indexOrAliasIndex (p_base p)) (i_obj i)) = true
            \/ type (p_base p) <> "object" -> i1 = i))
  /\ (forall p o redirect v i old e cs,
        readOnly (p_base p) = false ->
        getter_hook (p_base p) = None ->
        type (p_base p) = "array" ->
        slot (name (p_base p)) (i_obj i) = CArr old ->
        typecast H U p o v (CArr old) = (Throw e, CArr cs) ->
        defineSetter H U p o redirect v i
        = (Ok tt, log_error e (set_slot (name (p_base p)) (CArr cs) i)))
  /\ (forall p pe o old pre x post cs e,
        type (p_base p) = "array" ->
        transform (p_base p) = None ->
        filter (p_base p) = None ->
        unique (p_base p) = false ->
        p_arrayType p = Some pe ->
        Forall2 (fun y c => fst (typecast H U pe o y CUndef) = Ok c) pre cs ->
        fst (typecast H U pe o x CUndef) = Throw e ->
        typecast H U p o (DArr (pre ++ x :: post)) (CArr old)
        = (Throw e, CArr cs))
  /\ (forall p o redirect v i f d e orig',
        readOnly (p_base p) = false ->
        getter_hook (p_base p) = Some f ->
        type (p_base p) <> "object" ->
        type (p_base p) <> "array" ->
        call_getter U f (slot (indexOrAliasIndex (p_base p)) (i_obj i))
        = Raised d ->
        typecast H U p o v CUndef = (Throw e, orig') ->
        defineSetter H U p o redirect v i
        = (Ok tt, log_error e (log_error (UserThrow d) i))).
Proof.
  split; [intros; apply set_field_ok|].
  split; [|split; [|split]].
  - intros p o redirect v i orig i1 e orig' Hro Hg Hty Hget Hcast He.
    split; [|split].
    + unfold defineSetter, defineSetter_with.
      rewrite Hro, Hget, Hcast. cbn [andb].
      rewrite (typecast_keeps_original H U p o v orig e orig' Hty Hcast He).
      rewrite (write_back_read H U p o i orig i1 Hget). reflexivity.
    + cbn. rewrite (defineGetter_hookless_log H U p o i orig i1 Hg Hget).
      reflexivity.
    + intros Hs. apply (defineGetter_settled H U p o i orig i1 Hg); [|exact Hget].
      destruct Hs as [Hs | Hs]; [left; exact Hs|right; split; assumption].
  - intros p o redirect v i old e cs Hro Hg Hty Hslot Hcast.
    assert (Hidx : indexOrAliasIndex (p_base p) = name (p_base p)).
    { unfold indexOrAliasIndex. rewrite Hty. reflexivity. }
    assert (Hget : defineGetter H U p o i = (Ok (CArr old), i)).
    { rewrite defineGetter_eq. unfold defineGetter_body, getter.
      rewrite Hg, Hidx, Hslot. cbn [cell_truthy negb andb]. rewrite Hslot.
      reflexivity. }
    unfold defineSetter, defineSetter_with.
    rewrite Hro, Hget, Hcast. cbn [andb].
    unfold write_back. rewrite Hg, Hidx.
    unfold slot in Hslot.
    destruct (lookup (name (p_base p)) (i_obj i)); [reflexivity|discriminate].
  - intros p pe o old pre x post cs e Hty Htr Hf Hu Hpe Hall Hx.
    destruct p as [b os op]. cbn [p_base p_arrayType] in *. subst op.
    rewrite (typecast_array_refill H U b os (Some pe) o _ old Htr Hty).
    unfold element_cast. cbn [p_arrayType].
    rewrite (refill_rejects U _ b Hf Hu pre cs x e post [] Hall Hx).
    reflexivity.
  - intros p o redirect v i f d e orig' Hro Hg Ho Ha Hcall Hcast.
    assert (Hget : defineGetter H U p o i
                   = (Ok CUndef, log_error (UserThrow d) i)).
    { rewrite defineGetter_eq. unfold defineGetter_body, getter.
      apply String.eqb_neq in Ho, Ha. rewrite Ho, Ha, Hg.
      cbn [orb]. rewrite andb_false_r. rewrite Hcall. reflexivity. }
    unfold defineSetter, defineSetter_with.
    rewrite Hro, Hget, Hcast. cbn [andb].
    unfold write_back. rewrite Hg. reflexivity.
Qed.

(** On [{ tags: [{ type: String, maxLength: 5 }] }] holding ["a"], the
    assignment [tags = ["hello", "toolong"]] is rejected with one logged
    error, and the wrapper, emptied and refilled in place up to the rejected
    element, now holds ["hello"]. *)
Lemma array_assignment_refills_before_rejecting :
  let i := Inst [("tags", CArr [CVal (DStr "a")])] [] in
  let e := SetterErr StringMaxLengthValidationError
             (DStr "String length too long to meet maxLength requirement.")
             (CVal (DStr "toolong")) CUndef "" in
  typecast reference_host reference_user tags_props default_options
    (DArr [DStr "hello"; DStr "toolong"]) (CArr [CVal (DStr "a")])
  = (Throw e, CArr [CVal (DStr "hello")])
  /\ set_field reference_host reference_user tags_schema "tags"
       (DArr [DStr "hello"; DStr "toolong"]) i
     = (Ok tt, Inst [("tags", CArr [CVal (DStr "hello")])] [e])
  /\ slot "tags" (i_obj i) <> slot "tags" [("tags", CArr [CVal (DStr "hello")])].
Proof.
  repeat split. discriminate.
Qed.

Lemma assignment_logs_rejections_witness :
  let age := scalar "age" "number"
               [("min", DNum 0%float); ("max", DNum 120%float)] in
  let i := Inst [("age", CVal (DNum 15%float))] [] in
  let e := SetterErr NumberMinValidationError
             (DStr "Number is too small to meet min requirement.")
             (CVal (DNum (-1)%float)) (CVal (DNum 15%float)) "age" in
  let j := Inst [("tags", CArr [CVal (DStr "a")])] [] in
  let e' := SetterErr StringMaxLengthValidationError
              (DStr "String length too long to meet maxLength requirement.")
              (CVal (DStr "toolong")) CUndef "" in
  defineSetter reference_host reference_user age default_options no_redirect
    (DStr "-1") i = (Ok tt, log_error e i)
  /\ defineSetter reference_host reference_user tags_props default_options
       no_redirect (DArr [DStr "hello"; DStr "toolong"]) j
     = (Ok tt, log_error e' (set_slot "tags" (CArr [CVal (DStr "hello")]) j)).
Proof.
  intros age i e j e'.
  destruct (assignment_logs_rejections reference_host reference_user)
    as (_ & Hscalar & Harray & _).
  split.
  - apply (Hscalar age default_options no_redirect (DStr "-1") i
             (CVal (DNum 15%float)) i e (CVal (DNum 15%float))
             eq_refl eq_refl).
    + discriminate.
    + reflexivity.
    + reflexivity.
    + discriminate.
  - apply (Harray tags_props default_options no_redirect
             (DArr [DStr "hello"; DStr "toolong"]) j [CVal (DStr "a")] e'
             [CVal (DStr "hello")] eq_refl eq_refl eq_refl eq_refl eq_refl).
Defined.

(** *** Serialization round trip *)

Lemma is_none_true {A : Type} (x : option A) : is_none x = true -> x = None.
Proof. destruct x; [discriminate|reflexivity]. Qed.

Lemma hookless_inv b :
  hookless b = true ->
  transform b = None /\ stringTransform b = None /\ numberTransform b = None
  /\ booleanTransform b = None /\ dateTransform b = None
  /\ getter_hook b = None /\ filter b = None.
Proof.
  unfold hookless. intros Hh.
  repeat (apply andb_prop in Hh; destruct Hh as [Hh ?]).
  repeat split; apply is_none_true; assumption.
Qed.

Lemma quiet_options_inv o :
  quiet_options o = true ->
  onBeforeValueSet o = None /\ onValueSet o = None /\ toObject_hook o = None
  /\ setUndefined o = false.
Proof.
  unfold quiet_options. intros Hq.
  repeat (apply andb_prop in Hq; destruct Hq as [Hq ?]).
  repeat split; try (apply is_none_true; assumption).
  destruct (setUndefined o); [discriminate|reflexivity].
Qed.

Lemma scalar_type_inv t :
  scalar_type t = true ->
  t = "string" \/ t = "number" \/ t = "boolean" \/ t = "date".
Proof.
  unfold scalar_type. intros Hs.
  repeat (apply orb_prop in Hs; destruct Hs as [Hs|Hs]);
    apply String.eqb_eq in Hs; auto.
Qed.

Lemma scalar_type_other t :
  scalar_type t = true ->
  String.eqb t "object" = false /\ String.eqb t "array" = false
  /\ String.eqb t "alias" = false.
Proof.
  intros Hs. destruct (scalar_type_inv t Hs) as [->|[->|[->| ->]]];
    repeat split; reflexivity.
Qed.

Lemma plain_props_inv b os op :
  plain_props (Props b os op) = true ->
  hookless b = true /\ default b = DUndef /\ readOnly b = false
  /\ unique b = false /\ plain_shape b os op.
Proof.
  cbn [plain_props]. intros Hp.
  apply andb_prop in Hp. destruct Hp as [Hp Hshape].
  apply andb_prop in Hp. destruct Hp as [Hp Hu].
  apply andb_prop in Hp. destruct Hp as [Hp Hr].
  apply andb_prop in Hp. destruct Hp as [Hp Hd].
  repeat split; try assumption.
  - destruct (default b); try discriminate; reflexivity.
  - destruct (readOnly b); [discriminate|reflexivity].
  - destruct (unique b); [discriminate|reflexivity].
  - apply orb_prop in Hshape. destruct Hshape as [Hshape|Hshape].
    + apply orb_prop in Hshape. destruct Hshape as [Hshape|Hshape].
      * apply shape_scalar. exact Hshape.
      * apply andb_prop in Hshape. destruct Hshape as [Ht Hs].
        apply String.eqb_eq in Ht. destruct os as [s|]; [|discriminate].
        apply (shape_object b (Some s) op s); auto.
    + apply andb_prop in Hshape. destruct Hshape as [Ht Hs].
      apply String.eqb_eq in Ht. apply shape_array; [exact Ht|].
      destruct op; [exact Hs|exact I].
Qed.

Lemma plain_elem_inv b os op :
  plain_elem (Props b os op) = true ->
  hookless b = true
  /\ (scalar_type (type b) = true
      \/ (scalar_type (type b) = false /\ type b = "object"
          /\ exists s, os = Some s /\ plain_schema s = true)).
Proof.
  cbn [plain_elem]. intros Hp.
  apply andb_prop in Hp. destruct Hp as [Hh Hshape].
  split; [exact Hh|].
  apply orb_prop in Hshape. destruct Hshape as [Hshape|Hshape]; [left; auto|].
  apply andb_prop in Hshape. destruct Hshape as [Ht Hs].
  apply String.eqb_eq in Ht. right. rewrite Ht. split; [reflexivity|].
  split; [reflexivity|].
  destruct os as [s|]; [|discriminate]. exists s. auto.
Qed.

Lemma plain_flds_inv k p rest :
  plain_flds (FCons k p rest) = true ->
  name (p_base p) = k /\ has_key k rest = false /\ plain_props p = true
  /\ plain_flds rest = true.
Proof.
  cbn [plain_flds]. intros Hp.
  repeat (apply andb_prop in Hp; destruct Hp as [Hp ?]).
  apply String.eqb_eq in Hp.
  repeat split; try assumption.
  destruct (has_key k rest); [discriminate|reflexivity].
Qed.

Lemma lookup_upsert_ne {A : Type} (k k' : string) (v : A)
    (kvs : list (string * A)) :
  k' <> k -> lookup k' (upsert k v kvs) = lookup k' kvs.
Proof.
  intros Hne. induction kvs as [|[k0 v0] rest IH]; cbn.
  - destruct (String.eqb k k') eqn:E; [|reflexivity].
    apply String.eqb_eq in E. congruence.
  - destruct (String.eqb k0 k) eqn:E; cbn.
    + apply String.eqb_eq in E. subst k0.
      destruct (String.eqb k k') eqn:E'; [|reflexivity].
      apply String.eqb_eq in E'. congruence.
    + rewrite IH. reflexivity.
Qed.

Lemma slot_set_slot_ne (k k' : string) (c : cell) (i : inst) :
  k' <> k -> slot k' (i_obj (set_slot k c i)) = slot k' (i_obj i).
Proof.
  intros Hne. unfold slot, set_slot. cbn.
  rewrite (lookup_upsert_ne k k' c (i_obj i) Hne). reflexivity.
Qed.

Lemma slot_lookup (k : string) (obj : store) (c : cell) :
  slot k obj = c -> c <> CUndef -> lookup k obj = Some c.
Proof.
  unfold slot. destruct (lookup k obj); intros <- Hc; [reflexivity|].
  contradiction Hc. reflexivity.
Qed.

Lemma upsert_absent {A : Type} (k : string) (v : A) (kvs : list (string * A)) :
  lookup k kvs = None -> upsert k v kvs = kvs ++ [(k, v)].
Proof.
  induction kvs as [|[k0 v0] rest IH]; cbn; [reflexivity|].
  destruct (String.eqb k0 k); [discriminate|].
  intros Hl. rewrite (IH Hl). reflexivity.
Qed.

Lemma lookup_app_absent {A : Type} (k k' : string) (v : A)
    (kvs : list (string * A)) :
  k' <> k -> lookup k' kvs = None -> lookup k' (kvs ++ [(k, v)]) = None.
Proof.
  intros Hne. induction kvs as [|[k0 v0] rest IH]; cbn.
  - destruct (String.eqb k k') eqn:E; [|reflexivity].
    apply String.eqb_eq in E. congruence.
  - destruct (String.eqb k0 k'); [discriminate|exact IH].
Qed.

Lemma has_key_ne k k' rest :
  has_key k rest = false -> has_key k' rest = true -> k' <> k.
Proof. intros Hk Hk' ->. congruence. Qed.

(** Writing back what a slot holds changes no slot; writing back into the
    slot of a field leaves the other slots alone. *)
Lemma slot_write_back_ne b c i k' :
  k' <> indexOrAliasIndex b ->
  slot k' (i_obj (write_back b c i)) = slot k' (i_obj i).
Proof.
  intros Hne. unfold write_back.
  destruct (getter_hook b); [reflexivity|].
  destruct (lookup (indexOrAliasIndex b) (i_obj i)); [|reflexivity].
  apply slot_set_slot_ne. exact Hne.
Qed.

Lemma write_back_present b c c0 i :
  getter_hook b = None -> lookup (indexOrAliasIndex b) (i_obj i) = Some c0 ->
  write_back b c i = set_slot (indexOrAliasIndex b) c i.
Proof. intros Hh Hl. unfold write_back. rewrite Hh, Hl. reflexivity. Qed.

Lemma index_of_plain b :
  String.eqb (type b) "alias" = false -> indexOrAliasIndex b = name b.
Proof. intros Ha. unfold indexOrAliasIndex. rewrite Ha. reflexivity. Qed.

Lemma plain_shape_alias b os op :
  plain_shape b os op -> String.eqb (type b) "alias" = false.
Proof.
  intros [Hs|s Ht _ _|Ht _].
  - apply scalar_type_other. exact Hs.
  - rewrite Ht. reflexivity.
  - rewrite Ht. reflexivity.
Qed.

(** A schema without defaults constructs the empty instance from [{}]. *)
Lemma apply_defaults_plain (U : User) set fs i :
  plain_flds fs = true -> apply_defaults U set fs i = Ok i.
Proof.
  induction fs as [|k [b os op] rest IH]; [reflexivity|].
  intros Hp. apply plain_flds_inv in Hp.
  destruct Hp as (_ & _ & Hp & Hrest).
  apply plain_props_inv in Hp. destruct Hp as (_ & Hd & _).
  cbn [apply_defaults p_base]. rewrite Hd. cbn [isUndefined].
  apply IH. exact Hrest.
Qed.

Lemma construct_plain (H : Host) (U : User) s kvs :
  plain_schema s = true ->
  construct H U s (DObj kvs)
  = match assign_all (set_field H U s) kvs empty_inst with
    | (Throw e, _) => Throw e
    | (Ok _, i') => Ok i'
    end.
Proof.
  destruct s as [o fs]. cbn [plain_schema]. intros Hp.
  apply andb_prop in Hp. destruct Hp as [_ Hp].
  rewrite construct_eq. unfold construct_body. cbn [s_fields].
  rewrite (apply_defaults_plain U _ fs empty_inst Hp). reflexivity.
Qed.

Lemma construct_empty (H : Host) (U : User) s :
  plain_schema s = true -> construct H U s (DObj []) = Ok empty_inst.
Proof. intros Hp. rewrite (construct_plain H U s [] Hp). reflexivity. Qed.

(** The read of a plain field. *)
Lemma defineGetter_plain (H : Host) (U : User) b os op o i :
  quiet_options o = true -> plain_props (Props b os op) = true ->
  defineGetter H U (Props b os op) o i
  = (Ok (slot (name b) (i_obj (materialized (Props b os op) (name b) i))),
     materialized (Props b os op) (name b) i).
Proof.
  intros Hq Hp. apply quiet_options_inv in Hq.
  destruct Hq as (Hbv & Hvs & _ & _).
  apply plain_props_inv in Hp. destruct Hp as (Hh & Hd & _ & _ & Hshape).
  apply hookless_inv in Hh. destruct Hh as (_ & _ & _ & _ & _ & Hg & _).
  pose proof (plain_shape_alias b os op Hshape) as Ha.
  rewrite defineGetter_eq. unfold defineGetter_body, materialized, getter.
  cbn [p_base p_objectType]. rewrite (index_of_plain b Ha), Hg, Hd.
  cbn [isUndefined negb].
  destruct (cell_truthy (slot (name b) (i_obj i))); cbn [negb andb];
    [reflexivity|].
  destruct Hshape as [Hs|s Ht -> Hs|Ht _].
  - destruct (scalar_type_other _ Hs) as (-> & -> & _). reflexivity.
  - rewrite Ht. cbn [option_map]. change (String.eqb "object" "object") with true.
    cbn [orb]. rewrite (construct_empty H U s Hs).
    rewrite (writeValue_plain U o no_redirect _ b i Hbv Hvs Ha). reflexivity.
  - rewrite Ht. change (String.eqb "array" "object") with false.
    change (String.eqb "array" "array") with true. cbn [orb].
    rewrite (writeValue_plain U o no_redirect _ b i Hbv Hvs Ha). reflexivity.
Qed.

Lemma materialized_frame p k i k' :
  k' <> k -> slot k' (i_obj (materialized p k i)) = slot k' (i_obj i).
Proof.
  intros Hne. unfold materialized.
  destruct (cell_truthy (slot k (i_obj i))); [reflexivity|].
  destruct (String.eqb (type (p_base p)) "object");
    [apply slot_set_slot_ne; exact Hne|].
  destruct (String.eqb (type (p_base p)) "array");
    [apply slot_set_slot_ne; exact Hne|reflexivity].
Qed.

(** **** Serialization as a function of the store *)

Lemma toObject_walk_cons (H : Host) (U : User) k p rest o acc i :
  toObject_walk H U (FCons k p rest) o acc i
  = if invisible (p_base p) then toObject_walk H U rest o acc i
    else
      match defineGetter H U p o i with
      | (Throw e, i1) => (Throw e, i1)
      | (Ok value, i1) =>
          if cell_is_undefined value && negb (setUndefined o)
          then toObject_walk H U rest o acc i1
          else
            match
              toObject_value (option_map (toObject H U) (p_objectType p))
                (element_toObject H U p) o (p_base p) value i1
            with
            | (Throw e, i2) => (Throw e, i2)
            | (Ok None, i2) => toObject_walk H U rest o acc i2
            | (Ok (Some d), i2) =>
                toObject_walk H U rest o (upsert k d acc) i2
            end
      end.
Proof.
  destruct p as [b [s'|] [[be [s''|] ope]|]]; reflexivity.
Qed.

Lemma toObject_eq (H : Host) (U : User) o fs i :
  toObject_hook o = None ->
  toObject H U (Schema o fs) i
  = match toObject_walk H U fs o [] i with
    | (Throw e, i') => (Throw e, i')
    | (Ok getObj, i') => (Ok (DObj getObj), i')
    end.
Proof. intros Hh. cbn [toObject]. rewrite Hh. reflexivity. Qed.

Lemma ser_cell_eq b os op c :
  ser_cell (Props b os op) c
  = if scalar_type (type b) then
      match c with
      | CVal DUndef => None
      | CVal d => Some d
      | _ => None
      end
    else if String.eqb (type b) "object" then
      match os, c with
      | Some s, CInst obj _ =>
          match ser_flds (s_fields s) obj with
          | [] => None
          | kvs => Some (DObj kvs)
          end
      | _, _ => None
      end
    else
      match c with
      | CArr elems =>
          match map (ser_element (Props b os op)) elems with
          | [] => None
          | xs => Some (DArr xs)
          end
      | _ => None
      end.
Proof.
  destruct os as [[o' fs']|], op as [pe|]; reflexivity.
Qed.

Lemma ser_elem_eq b os op c :
  ser_elem (Props b os op) c
  = if scalar_type (type b) then
      match c with
      | CVal d => d
      | _ => DUndef
      end
    else
      match os, c with
      | Some s, CInst obj _ => DObj (ser_flds (s_fields s) obj)
      | _, _ => DUndef
      end.
Proof.
  destruct os as [[o' fs']|]; reflexivity.
Qed.

Lemma valid_cell_eq (H : Host) (U : User) b os op o c :
  valid_cell H U (Props b os op) o c
  = if scalar_type (type b) then
      match c with
      | CVal d => canonical H U (Props b os op) o d
      | _ => False
      end
    else if String.eqb (type b) "object" then
      match os with
      | Some s =>
          match c with
          | CVal DUndef => True
          | CInst obj _ => valid_store H U (s_fields s) (s_options s) obj
          | _ => False
          end
      | None => False
      end
    else
      match c with
      | CVal DUndef => True
      | CArr elems => Forall (valid_element H U (Props b os op) o) elems
      | _ => False
      end.
Proof.
  destruct os as [[o' fs']|], op as [pe|]; reflexivity.
Qed.

Lemma valid_elem_eq (H : Host) (U : User) b os op o c :
  valid_elem H U (Props b os op) o c
  = if scalar_type (type b) then
      match c with
      | CVal d => canonical H U (Props b os op) o d
      | _ => False
      end
    else
      match os with
      | Some s =>
          match c with
          | CInst obj _ => valid_store H U (s_fields s) (s_options s) obj
          | _ => False
          end
      | None => False
      end.
Proof.
  destruct os as [[o' fs']|]; reflexivity.
Qed.

Lemma blank_cell_eq b os op c :
  blank_cell (Props b os op) c
  = if scalar_type (type b) then c = CUndef
    else if String.eqb (type b) "object" then
      match c with
      | CVal DUndef => True
      | CInst obj _ =>
          match os with
          | Some s => blank_store (s_fields s) obj
          | None => False
          end
      | _ => False
      end
    else c = CUndef \/ c = CArr [].
Proof.
  destruct os as [[o' fs']|]; reflexivity.
Qed.

(** The three predicates and the snapshot read the slots of the declared
    keys only. *)
Lemma valid_store_frame (H : Host) (U : User) fs o obj obj' :
  (forall k, has_key k fs = true -> slot k obj' = slot k obj) ->
  valid_store H U fs o obj -> valid_store H U fs o obj'.
Proof.
  induction fs as [|k p rest IH]; [auto|].
  cbn [valid_store has_key]. intros Hf [Hc Hrest]. split.
  - rewrite Hf; [exact Hc|]. rewrite String.eqb_refl. reflexivity.
  - apply IH; [|exact Hrest]. intros k' Hk'. apply Hf. rewrite Hk'.
    apply orb_true_r.
Qed.

Lemma blank_store_frame fs obj obj' :
  (forall k, has_key k fs = true -> slot k obj' = slot k obj) ->
  blank_store fs obj -> blank_store fs obj'.
Proof.
  induction fs as [|k p rest IH]; [auto|].
  cbn [blank_store has_key]. intros Hf [Hc Hrest]. split.
  - rewrite Hf; [exact Hc|]. rewrite String.eqb_refl. reflexivity.
  - apply IH; [|exact Hrest]. intros k' Hk'. apply Hf. rewrite Hk'.
    apply orb_true_r.
Qed.

Lemma ser_flds_frame fs obj obj' :
  (forall k, has_key k fs = true -> slot k obj' = slot k obj) ->
  ser_flds fs obj' = ser_flds fs obj.
Proof.
  induction fs as [|k p rest IH]; [auto|].
  cbn [ser_flds has_key]. intros Hf.
  rewrite Hf by (rewrite String.eqb_refl; reflexivity).
  rewrite IH; [reflexivity|]. intros k' Hk'. apply Hf. rewrite Hk'.
  apply orb_true_r.
Qed.

Lemma blank_store_empty fs : blank_store fs [].
Proof.
  induction fs as [|k [b os op] rest IH]; [exact I|].
  cbn [blank_store]. split; [|exact IH].
  rewrite blank_cell_eq. change (slot k []) with CUndef.
  destruct (scalar_type (type b)); [reflexivity|].
  destruct (String.eqb (type b) "object"); [exact I|left; reflexivity].
Qed.

(** [toArray] maps the elements to their snapshots. *)
Lemma toArray_with_map f (g : cell -> data) (V : cell -> Prop) :
  (forall c, V c ->
     match c with
     | CVal d => (if isObject d then clone_data d else d) = g c
     | CInst obj errs =>
         exists h i', f = Some h /\ h (Inst obj errs) = (Ok (g c), i')
     | CArr _ => False
     end) ->
  forall elems, Forall V elems ->
  exists elems', toArray_with f elems = (Ok (map g elems), elems').
Proof.
  intros Hstep elems Hall.
  induction Hall as [|c rest Hc Hrest IH]; [exists []; reflexivity|].
  destruct IH as [rest' IH]. cbn [toArray_with map]. specialize (Hstep c Hc).
  destruct c as [d|es|obj errs]; [| contradiction |].
  - rewrite Hstep, IH. eexists. reflexivity.
  - destruct Hstep as (h & i' & -> & Hh). rewrite Hh, IH.
    eexists. reflexivity.
Qed.

Lemma plain_scalar_clone d :
  plain_scalar d = true -> (if isObject d then clone_data d else d) = d.
Proof. destruct d; try discriminate; reflexivity. Qed.

Lemma materialized_scalar b os op k i :
  scalar_type (type b) = true -> materialized (Props b os op) k i = i.
Proof.
  intros Hs. unfold materialized. cbn [p_base].
  destruct (scalar_type_other _ Hs) as (-> & -> & _).
  destruct (cell_truthy _); reflexivity.
Qed.

Lemma ser_cell_undef p : ser_cell p CUndef = None.
Proof.
  destruct p as [b os op]. rewrite ser_cell_eq.
  destruct (scalar_type (type b)); [reflexivity|].
  destruct (String.eqb (type b) "object"); [|reflexivity].
  destruct os; reflexivity.
Qed.

Lemma ser_flds_empty fs : ser_flds fs [] = [].
Proof.
  induction fs as [|k p rest IH]; [reflexivity|].
  cbn [ser_flds]. change (slot k []) with CUndef.
  rewrite ser_cell_undef, IH. destruct (invisible (p_base p)); reflexivity.
Qed.

(** A plain field accepts [undefined] as it is. *)
Lemma canonical_undef (H : Host) (U : User) b os op o :
  hookless b = true -> scalar_type (type b) = true ->
  canonical H U (Props b os op) o DUndef.
Proof.
  intros Hh Hs. apply hookless_inv in Hh. destruct Hh as (Ht & _).
  split; [reflexivity|].
  rewrite typecast_eq. unfold typecast_body. cbn [p_base].
  rewrite Ht. cbn [apply_transform].
  destruct (scalar_type_inv _ Hs) as [->|[->|[->| ->]]]; reflexivity.
Qed.

Lemma valid_cell_undef (H : Host) (U : User) p o :
  plain_props p = true -> valid_cell H U p o CUndef.
Proof.
  destruct p as [b os op]. intros Hp.
  apply plain_props_inv in Hp. destruct Hp as (Hh & _ & _ & _ & Hshape).
  rewrite valid_cell_eq. destruct Hshape as [Hs|s Ht -> Hs|Ht _].
  - rewrite Hs. apply canonical_undef; assumption.
  - rewrite Ht. exact I.
  - rewrite Ht. exact I.
Qed.

Lemma valid_store_empty (H : Host) (U : User) fs o :
  plain_flds fs = true -> valid_store H U fs o [].
Proof.
  induction fs as [|k p rest IH]; [intros; exact I|].
  intros Hp. apply plain_flds_inv in Hp. destruct Hp as (_ & _ & Hp & Hrest).
  cbn [valid_store]. split; [|apply IH; exact Hrest].
  apply valid_cell_undef. exact Hp.
Qed.

Section SnapshotCases.
Variable H : Host.
Variable U : User.

Lemma snapshot_scalar b os op :
  scalar_type (type b) = true -> snapshot_field H U (Props b os op).
Proof.
  intros Hs o acc i Hq Hp Hv Hacc. cbn [p_base] in *.
  rewrite toObject_walk_cons. cbn [p_base ser_flds].
  destruct (invisible b).
  { exists i. rewrite app_nil_r. split; reflexivity. }
  rewrite (defineGetter_plain H U b os op o i Hq Hp).
  rewrite (materialized_scalar b os op (name b) i Hs).
  apply quiet_options_inv in Hq. destruct Hq as (_ & _ & _ & Hsu).
  rewrite valid_cell_eq, Hs in Hv. rewrite ser_cell_eq, Hs. rewrite Hsu.
  destruct (slot (name b) (i_obj i)) as [d|es|obj errs]; try contradiction.
  destruct Hv as [Hd _].
  destruct d; try discriminate Hd; cbn;
    try (exists i; rewrite ?app_nil_r, ?(upsert_absent _ _ _ Hacc);
         split; reflexivity).
Qed.

Lemma snapshot_object b s op :
  type b = "object" -> snapshot_schema H U s ->
  snapshot_field H U (Props b (Some s) op).
Proof.
  intros Ht HQ o acc i Hq Hp Hv Hacc. cbn [p_base] in *.
  rewrite toObject_walk_cons. cbn [p_base ser_flds p_objectType option_map].
  destruct (invisible b).
  { exists i. rewrite app_nil_r. split; reflexivity. }
  rewrite (defineGetter_plain H U b (Some s) op o i Hq Hp).
  pose proof Hp as Hp'. apply plain_props_inv in Hp'.
  destruct Hp' as (Hh & _ & _ & _ & Hshape).
  apply hookless_inv in Hh. destruct Hh as (_ & _ & _ & _ & _ & Hg & _).
  assert (Hs : plain_schema s = true).
  { destruct Hshape as [Hs|s0 _ [= <-] Hs|Ht']; try exact Hs.
    - rewrite Ht in Hs. discriminate.
    - rewrite Ht in Ht'. discriminate. }
  assert (Hidx : indexOrAliasIndex b = name b).
  { apply index_of_plain. rewrite Ht. reflexivity. }
  apply quiet_options_inv in Hq. destruct Hq as (_ & _ & _ & Hsu).
  rewrite valid_cell_eq, Ht in Hv. rewrite ser_cell_eq, Ht.
  change (scalar_type "object") with false in *.
  change (String.eqb "object" "object") with true in *. cbv iota in Hv |- *.
  unfold materialized. cbn [p_base]. rewrite Ht.
  change (String.eqb "object" "object") with true. rewrite Hsu.
  destruct (slot (name b) (i_obj i)) as [d|es|obj errs] eqn:Es;
    try contradiction.
  - destruct d; try contradiction. cbn [cell_truthy truthy].
    rewrite slot_set_slot. cbn [cell_of_inst empty_inst i_obj i_errors
      cell_is_undefined andb negb toObject_value].
    destruct (HQ Hs (Inst [] [])) as [i' Hi'].
    { cbn [i_obj]. apply valid_store_empty.
      destruct s as [o' fs']. cbn [plain_schema] in Hs.
      apply andb_prop in Hs. apply Hs. }
    rewrite Hi'. cbn [i_obj]. rewrite ser_flds_empty. cbn. rewrite Hsu. cbn.
    eexists. rewrite app_nil_r. split; [reflexivity|].
    intros k' Hk'. rewrite slot_write_back_ne by (rewrite Hidx; exact Hk').
    apply slot_set_slot_ne. exact Hk'.
  - cbn [cell_truthy]. rewrite Es.
    cbn [cell_is_undefined andb toObject_value].
    destruct (HQ Hs (Inst obj errs) Hv) as [i' Hi'].
    rewrite Hi'. cbn [i_obj bind isDate negb andb size]. rewrite Hsu.
    cbn [negb andb].
    destruct (ser_flds (s_fields s) obj) as [|kv kvs]; cbn.
    + eexists. rewrite app_nil_r. split; [reflexivity|].
      intros k' Hk'. apply slot_write_back_ne. rewrite Hidx. exact Hk'.
    + eexists. rewrite (upsert_absent _ _ _ Hacc). split; [reflexivity|].
      intros k' Hk'. apply slot_write_back_ne. rewrite Hidx. exact Hk'.
Qed.

Lemma snapshot_array b os op :
  type b = "array" ->
  (forall o c, valid_element H U (Props b os op) o c ->
     match c with
     | CVal d =>
         (if isObject d then clone_data d else d)
         = ser_element (Props b os op) c
     | CInst obj errs =>
         exists h i',
           element_toObject H U (Props b os op) = Some h
           /\ h (Inst obj errs) = (Ok (ser_element (Props b os op) c), i')
     | CArr _ => False
     end) ->
  snapshot_field H U (Props b os op).
Proof.
  intros Ht Helem o acc i Hq Hp Hv Hacc. cbn [p_base] in *.
  rewrite toObject_walk_cons. cbn [p_base ser_flds].
  destruct (invisible b).
  { exists i. rewrite app_nil_r. split; reflexivity. }
  rewrite (defineGetter_plain H U b os op o i Hq Hp).
  assert (Hidx : indexOrAliasIndex b = name b).
  { apply index_of_plain. rewrite Ht. reflexivity. }
  apply quiet_options_inv in Hq. destruct Hq as (_ & _ & _ & Hsu).
  rewrite valid_cell_eq, Ht in Hv. rewrite ser_cell_eq, Ht.
  change (scalar_type "array") with false in *.
  change (String.eqb "array" "object") with false in *. cbv iota in Hv |- *.
  unfold materialized. cbn [p_base]. rewrite Ht.
  change (String.eqb "array" "object") with false.
  change (String.eqb "array" "array") with true. rewrite Hsu.
  destruct (slot (name b) (i_obj i)) as [d|es|obj errs] eqn:Es;
    try contradiction.
  - destruct d; try contradiction. cbn [cell_truthy truthy].
    rewrite slot_set_slot. cbn. rewrite Hsu. cbn.
    eexists. rewrite app_nil_r. split; [reflexivity|].
    intros k' Hk'. rewrite slot_write_back_ne by (rewrite Hidx; exact Hk').
    apply slot_set_slot_ne. exact Hk'.
  - cbn [cell_truthy]. rewrite Es.
    cbn [cell_is_undefined andb toObject_value].
    destruct (toArray_with_map (element_toObject H U (Props b os op))
                (ser_element (Props b os op))
                (valid_element H U (Props b os op) o) (Helem o) es Hv)
      as [es' Hes].
    rewrite Hes. cbn [bind isDate negb andb size]. rewrite Hsu.
    cbn [negb andb].
    destruct (map (ser_element (Props b os op)) es) as [|x xs]; cbn.
    + eexists. rewrite app_nil_r. split; [reflexivity|].
      intros k' Hk'. apply slot_write_back_ne. rewrite Hidx. exact Hk'.
    + eexists. rewrite (upsert_absent _ _ _ Hacc). split; [reflexivity|].
      intros k' Hk'. apply slot_write_back_ne. rewrite Hidx. exact Hk'.
Qed.

(** The elements of a plain wrapper. *)
Lemma snapshot_elements b os op :
  match op with
  | Some pe =>
      plain_elem pe = true
      /\ match p_objectType pe with
         | Some s => snapshot_schema H U s
         | None => True
         end
  | None => True
  end ->
  forall o c, valid_element H U (Props b os op) o c ->
    match c with
    | CVal d =>
        (if isObject d then clone_data d else d)
        = ser_element (Props b os op) c
    | CInst obj errs =>
        exists h i',
          element_toObject H U (Props b os op) = Some h
          /\ h (Inst obj errs) = (Ok (ser_element (Props b os op) c), i')
    | CArr _ => False
    end.
Proof.
  intros Hop o c. unfold valid_element, ser_element, element_toObject.
  cbn [p_arrayType]. destruct op as [[be ose ope]|].
  - destruct Hop as [Hpe HQ]. cbn [p_objectType] in HQ.
    rewrite valid_elem_eq, ser_elem_eq.
    apply plain_elem_inv in Hpe.
    destruct Hpe as (_ & [Hs|(Hs & _ & s & -> & Hps)]); rewrite Hs.
    + destruct c as [d|es|obj errs]; try contradiction.
      intros [Hd _]. apply plain_scalar_clone. exact Hd.
    + destruct c as [d|es|obj errs]; try contradiction.
      intros Hv. destruct (HQ Hps (Inst obj errs) Hv) as [i' Hi'].
      exists (toObject H U s), i'. split; [reflexivity|exact Hi'].
  - intros [d ->]. reflexivity.
Qed.

Lemma ser_flds_cons k p rest obj :
  ser_flds (FCons k p rest) obj
  = ser_flds (FCons k p FNil) obj ++ ser_flds rest obj.
Proof.
  cbn [ser_flds]. destruct (invisible (p_base p)); [reflexivity|].
  destruct (ser_cell p (slot k obj)); reflexivity.
Qed.

Lemma toObject_walk_split k p rest o acc i :
  toObject_walk H U (FCons k p rest) o acc i
  = match toObject_walk H U (FCons k p FNil) o acc i with
    | (Throw e, i') => (Throw e, i')
    | (Ok acc', i') => toObject_walk H U rest o acc' i'
    end.
Proof.
  rewrite !toObject_walk_cons. destruct (invisible (p_base p)); [reflexivity|].
  destruct (defineGetter H U p o i) as [[value|e] i1]; [|reflexivity].
  destruct (cell_is_undefined value && negb (setUndefined o)); [reflexivity|].
  destruct (toObject_value _ _ o (p_base p) value i1) as [[[d|]|e] i2];
    reflexivity.
Qed.

(** [toObject] returns the snapshot of the store. *)
Lemma toObject_snapshot :
  forall s, snapshot_schema H U s.
Proof.
  apply (schema_ind'
           (fun p => (plain_props p = true -> snapshot_field H U p)
                     /\ match p_objectType p with
                        | Some s => snapshot_schema H U s
                        | None => True
                        end)
           (snapshot_schema H U) (snapshot_flds H U)).
  - intros b os op HQ HP. split; [|exact HQ].
    intros Hp. pose proof Hp as Hp'. apply plain_props_inv in Hp'.
    destruct Hp' as (_ & _ & _ & _ & [Hs|s Ht -> Hs|Ht Hop]).
    + apply snapshot_scalar. exact Hs.
    + apply snapshot_object; assumption.
    + apply snapshot_array; [exact Ht|]. apply snapshot_elements.
      destruct op as [pe|]; [|exact I]. split; [exact Hop|apply HP].
  - intros o fs HR Hp i Hv. cbn [s_fields s_options] in *.
    cbn [plain_schema] in Hp. apply andb_prop in Hp. destruct Hp as [Hq Hp].
    destruct (HR o [] i Hq Hp Hv (fun _ _ => eq_refl)) as [i' Hi'].
    exists i'. rewrite toObject_eq by (apply quiet_options_inv; exact Hq).
    rewrite Hi'. reflexivity.
  - intros o acc i _ _ _ _. exists i. cbn. rewrite app_nil_r. reflexivity.
  - intros k p rest [HP _] HR o acc i Hq Hp Hv Hacc.
    apply plain_flds_inv in Hp. destruct Hp as (Hk & Hnk & Hp & Hrest).
    cbn [valid_store] in Hv. destruct Hv as [Hc Hv].
    rewrite toObject_walk_split, ser_flds_cons. subst k.
    destruct (HP Hp o acc i Hq Hp Hc) as (i1 & Hi1 & Hframe).
    { apply Hacc. cbn [has_key]. rewrite String.eqb_refl. reflexivity. }
    rewrite Hi1.
    assert (Hsame : forall k, has_key k rest = true ->
                      slot k (i_obj i1) = slot k (i_obj i)).
    { intros k Hk. apply Hframe. apply (has_key_ne _ _ rest Hnk Hk). }
    destruct (HR o (acc ++ ser_flds (FCons (name (p_base p)) p FNil) (i_obj i))
                i1 Hq Hrest) as [i' Hi'].
    { apply (valid_store_frame H U rest o (i_obj i)); assumption. }
    { intros k Hk. pose proof (has_key_ne _ _ rest Hnk Hk) as Hne.
      assert (Hl : lookup k acc = None).
      { apply Hacc. cbn [has_key]. rewrite Hk. apply orb_true_r. }
      cbn [ser_flds]. destruct (invisible (p_base p));
        [rewrite app_nil_r; exact Hl|].
      destruct (ser_cell p _); [|rewrite app_nil_r; exact Hl].
      apply lookup_app_absent; assumption. }
    exists i'. rewrite Hi'. rewrite (ser_flds_frame rest _ _ Hsame).
    rewrite app_assoc. reflexivity.
Qed.
End SnapshotCases.

(** **** [clear()] on an instance that holds nothing *)

Section ClearBlank.
Variable H : Host.
Variable U : User.

Lemma clear_blank :
  forall s, plain_schema s = true ->
  forall i, blank_store (s_fields s) (i_obj i) ->
  exists i', clear H U s i = (Ok tt, i')
             /\ blank_store (s_fields s) (i_obj i').
Proof.
  apply (schema_ind'
    (fun p => forall o redirect i,
       quiet_options o = true -> plain_props p = true ->
       blank_cell p (slot (name (p_base p)) (i_obj i)) ->
       exists i',
         clearField_with U (defineGetter H U p o) (nested_clear H U p)
           (p_base p) o redirect i = (Ok tt, i')
         /\ blank_cell p (slot (name (p_base p)) (i_obj i'))
         /\ forall k', k' <> name (p_base p) ->
              slot k' (i_obj i') = slot k' (i_obj i))
    (fun s => plain_schema s = true ->
       forall i, blank_store (s_fields s) (i_obj i) ->
       exists i', clear H U s i = (Ok tt, i')
                  /\ blank_store (s_fields s) (i_obj i'))
    (fun fs => forall o redirect i,
       quiet_options o = true -> plain_flds fs = true ->
       blank_store fs (i_obj i) ->
       exists i',
         clear_walk H U fs o redirect i = (Ok tt, i')
         /\ blank_store fs (i_obj i')
         /\ forall k, has_key k fs = false ->
              slot k (i_obj i') = slot k (i_obj i))).
  - intros b os op HQ _ o redirect i Hq Hp Hb. cbn [p_base] in *.
    unfold clearField_with.
    destruct (isAlias b); [exists i; auto|].
    rewrite (defineGetter_plain H U b os op o i Hq Hp).
    pose proof Hp as Hp'. apply plain_props_inv in Hp'.
    destruct Hp' as (Hh & _ & _ & _ & Hshape).
    apply hookless_inv in Hh. destruct Hh as (_ & _ & _ & _ & _ & Hg & _).
    pose proof (plain_shape_alias b os op Hshape) as Ha.
    pose proof (index_of_plain b Ha) as Hidx.
    apply quiet_options_inv in Hq. destruct Hq as (Hbv & Hvs & _ & _).
    rewrite blank_cell_eq in Hb.
    destruct Hshape as [Hs|s Ht -> Hs|Ht _].
    + destruct (scalar_type_other _ Hs) as (-> & -> & _).
      rewrite (writeValue_plain U o redirect CUndef b i Hbv Hvs Ha).
      eexists. split; [reflexivity|]. split.
      * rewrite blank_cell_eq, Hs. apply slot_set_slot.
      * intros k' Hk'. apply slot_set_slot_ne. exact Hk'.
    + rewrite Ht in *. change (scalar_type "object") with false in *.
      change (String.eqb "object" "object") with true in *.
      cbv iota in Hb |- *.
      assert (Hblank : forall c obj errs,
                 c = CInst obj errs -> blank_store (s_fields s) obj ->
                 blank_cell (Props b (Some s) op) c).
      { intros c obj errs -> Hobj. rewrite blank_cell_eq, Ht. exact Hobj. }
      unfold materialized. cbn [p_base]. rewrite Ht.
      change (String.eqb "object" "object") with true. cbv iota.
      cbn [nested_clear p_objectType option_map].
      destruct (slot (name b) (i_obj i)) as [d|es|obj errs] eqn:Es;
        try contradiction.
      * destruct d; try contradiction. cbn [cell_truthy truthy].
        rewrite slot_set_slot. cbn [cell_of_inst empty_inst i_obj i_errors].
        destruct (HQ Hs (Inst [] []) (blank_store_empty _)) as (i' & Hi' & Hb').
        rewrite Hi'.
        rewrite (write_back_present b _ (CInst [] []) _ Hg)
          by (rewrite Hidx; cbn [set_slot i_obj]; apply lookup_upsert).
        rewrite Hidx. eexists. split; [reflexivity|]. split.
        -- rewrite slot_set_slot. eapply Hblank; [reflexivity|exact Hb'].
        -- intros k' Hk'. rewrite !slot_set_slot_ne by exact Hk'.
           reflexivity.
      * cbn [cell_truthy]. rewrite Es.
        destruct (HQ Hs (Inst obj errs) Hb) as (i' & Hi' & Hb').
        rewrite Hi'.
        rewrite (write_back_present b _ (CInst obj errs) _ Hg)
          by (rewrite Hidx; apply slot_lookup; [exact Es|discriminate]).
        rewrite Hidx. eexists. split; [reflexivity|]. split.
        -- rewrite slot_set_slot. eapply Hblank; [reflexivity|exact Hb'].
        -- intros k' Hk'. apply slot_set_slot_ne. exact Hk'.
    + rewrite Ht in *. change (scalar_type "array") with false in *.
      change (String.eqb "array" "object") with false in *.
      change (String.eqb "array" "array") with true in *.
      cbv iota in Hb |- *.
      assert (Hblank : blank_cell (Props b os op) (CArr [])).
      { rewrite blank_cell_eq, Ht. right. reflexivity. }
      unfold materialized. cbn [p_base]. rewrite Ht.
      change (String.eqb "array" "object") with false.
      change (String.eqb "array" "array") with true. cbv iota.
      destruct Hb as [Hb|Hb]; rewrite Hb.
      * cbn [cell_truthy truthy CUndef]. rewrite slot_set_slot.
        cbn [truncate].
        rewrite (write_back_present b _ (CArr []) _ Hg)
          by (rewrite Hidx; cbn [set_slot i_obj]; apply lookup_upsert).
        rewrite Hidx. eexists. split; [reflexivity|]. split.
        -- rewrite slot_set_slot. exact Hblank.
        -- intros k' Hk'. rewrite !slot_set_slot_ne by exact Hk'.
           reflexivity.
      * cbn [cell_truthy]. rewrite Hb. cbn [truncate].
        rewrite (write_back_present b _ (CArr []) _ Hg)
          by (rewrite Hidx; apply slot_lookup; [exact Hb|discriminate]).
        rewrite Hidx. eexists. split; [reflexivity|]. split.
        -- rewrite slot_set_slot. exact Hblank.
        -- intros k' Hk'. apply slot_set_slot_ne. exact Hk'.
  - intros o fs HR Hp i Hb. cbn [s_fields s_options] in *.
    cbn [plain_schema] in Hp. apply andb_prop in Hp. destruct Hp as [Hq Hp].
    unfold clear. cbn [s_fields s_options].
    destruct (HR o (set_field H U (Schema o fs)) i Hq Hp Hb)
      as (i' & Hi' & Hb' & _).
    exists i'. split; assumption.
  - intros o redirect i _ _ _. exists i. repeat split.
  - intros k p rest HP HR o redirect i Hq Hp Hb.
    apply plain_flds_inv in Hp. destruct Hp as (Hk & Hnk & Hp & Hrest).
    cbn [blank_store] in Hb. destruct Hb as [Hc Hb]. subst k.
    rewrite clear_walk_cons.
    destruct (HP o redirect i Hq Hp Hc) as (i1 & Hi1 & Hc1 & Hframe).
    rewrite Hi1.
    assert (Hsame : forall k, has_key k rest = true ->
                      slot k (i_obj i1) = slot k (i_obj i)).
    { intros k Hk. apply Hframe. apply (has_key_ne _ _ rest Hnk Hk). }
    destruct (HR o redirect i1 Hq Hrest) as (i' & Hi' & Hb' & Hframe').
    { apply (blank_store_frame rest (i_obj i)); assumption. }
    exists i'. split; [exact Hi'|]. split.
    + cbn [blank_store]. split; [|exact Hb'].
      rewrite (Hframe' _ Hnk). exact Hc1.
    + intros k Hk. cbn [has_key] in Hk. apply orb_false_elim in Hk.
      destruct Hk as [Hk1 Hk2]. rewrite (Hframe' _ Hk2). apply Hframe.
      intros ->. rewrite String.eqb_refl in Hk1. discriminate.
Qed.
End ClearBlank.

(** **** Reconstruction from a snapshot *)

Lemma typecast_object (H : Host) (U : User) b s op o v orig :
  transform b = None -> type b = "object" -> isObject v = true ->
  typecast H U (Props b (Some s) op) o v orig
  = typecast_schema_object (construct H U s) (clear H U s) (set_field H U s)
      v orig.
Proof.
  intros Htr Ht Hv. rewrite typecast_eq. unfold typecast_body.
  cbn [p_base nested_of p_objectType n_construct n_clear n_set].
  rewrite Htr, Ht. cbn [apply_transform].
  destruct v; try discriminate Hv; reflexivity.
Qed.

Lemma refill_map (U : User) cast b :
  filter b = None -> unique b = false ->
  forall xs cs acc,
    Forall2 (fun x c' => match cast with
                         | Some f => f x = Ok c'
                         | None => c' = CVal x
                         end) xs cs ->
    refill U cast b acc xs = (Ok tt, acc ++ cs).
Proof.
  intros Hf Hu xs cs acc Hall. revert acc.
  induction Hall as [|x c' xs cs Hx Hrest IH]; intros acc.
  - rewrite app_nil_r. reflexivity.
  - cbn [refill]. unfold push_with. rewrite Hf, Hu.
    destruct cast as [f|].
    + cbn [map_outcome]. rewrite Hx. cbn [bind]. rewrite IH.
      rewrite <- app_assoc. reflexivity.
    + subst c'. cbn [map bind]. rewrite IH.
      rewrite <- app_assoc. reflexivity.
Qed.

Lemma restore_elements (cast : option (data -> outcome cell))
    (g : cell -> data) (V : cell -> Prop) :
  (forall c, V c ->
     exists c', match cast with
                | Some f => f (g c) = Ok c'
                | None => c' = CVal (g c)
                end /\ V c' /\ g c' = g c) ->
  forall elems, Forall V elems ->
  exists cs,
    Forall2 (fun x c' => match cast with
                         | Some f => f x = Ok c'
                         | None => c' = CVal x
                         end) (map g elems) cs
    /\ Forall V cs /\ map g cs = map g elems.
Proof.
  intros Hstep elems Hall.
  induction Hall as [|c rest Hc Hrest IH].
  - exists []. repeat split; constructor.
  - destruct IH as (cs & Hcs & Hvs & Hg).
    destruct (Hstep c Hc) as (c' & Hc' & Hv' & Hg').
    exists (c' :: cs). cbn [map]. repeat split.
    + constructor; assumption.
    + constructor; assumption.
    + rewrite Hg, Hg'. reflexivity.
Qed.

Lemma ser_raw_idem c : ser_raw (CVal (ser_raw c)) = ser_raw c.
Proof.
  destruct c as [d|es|obj errs]; try reflexivity.
  destruct d; reflexivity.
Qed.

Section Restore.
Variable H : Host.
Variable U : User.

(** What holds nothing is valid, and its snapshot is empty. *)
Lemma blank_is_valid :
  forall s, plain_schema s = true ->
  forall obj, blank_store (s_fields s) obj ->
    valid_store H U (s_fields s) (s_options s) obj
    /\ ser_flds (s_fields s) obj = [].
Proof.
  apply (schema_ind'
    (fun p => forall o c, plain_props p = true -> blank_cell p c ->
       valid_cell H U p o c /\ ser_cell p c = None)
    (fun s => plain_schema s = true ->
       forall obj, blank_store (s_fields s) obj ->
         valid_store H U (s_fields s) (s_options s) obj
         /\ ser_flds (s_fields s) obj = [])
    (fun fs => forall o obj, plain_flds fs = true -> blank_store fs obj ->
       valid_store H U fs o obj /\ ser_flds fs obj = [])).
  - intros b os op HQ _ o c Hp Hb.
    pose proof Hp as Hp'. apply plain_props_inv in Hp'.
    destruct Hp' as (_ & _ & _ & _ & Hshape).
    rewrite blank_cell_eq in Hb. rewrite valid_cell_eq, ser_cell_eq.
    destruct Hshape as [Hs|s Ht -> Hs|Ht _].
    + rewrite Hs in *. subst c. split; [|reflexivity].
      pose proof (valid_cell_undef H U (Props b os op) o Hp) as Hv.
      rewrite valid_cell_eq, Hs in Hv. exact Hv.
    + rewrite Ht in *. change (scalar_type "object") with false in *.
      change (String.eqb "object" "object") with true in *.
      cbv iota in Hb |- *.
      destruct c as [d|es|obj errs]; try contradiction.
      * destruct d; try contradiction. split; [exact I|reflexivity].
      * destruct (HQ Hs obj Hb) as [Hv Hser]. rewrite Hser.
        split; [exact Hv|reflexivity].
    + rewrite Ht in *. change (scalar_type "array") with false in *.
      change (String.eqb "array" "object") with false in *.
      cbv iota in Hb |- *.
      destruct Hb as [-> | ->]; (split; [|reflexivity]);
        [exact I|constructor].
  - intros o fs HR Hp obj Hb. cbn [plain_schema] in Hp.
    apply andb_prop in Hp. destruct Hp as [_ Hp]. apply HR; assumption.
  - intros o obj _ _. split; [exact I|reflexivity].
  - intros k p rest HP HR o obj Hp [Hc Hb].
    apply plain_flds_inv in Hp. destruct Hp as (_ & _ & Hp & Hrest).
    destruct (HP o _ Hp Hc) as [Hv Hser].
    destruct (HR o obj Hrest Hb) as [Hvs Hsers].
    cbn [valid_store ser_flds]. rewrite Hser, Hsers.
    split; [split; assumption|]. destruct (invisible (p_base p)); reflexivity.
Qed.

Lemma blank_cell_valid p o c :
  plain_props p = true -> blank_cell p c ->
  valid_cell H U p o c /\ ser_cell p c = None.
Proof.
  destruct p as [b os op]. intros Hp Hb.
  pose proof Hp as Hp'. apply plain_props_inv in Hp'.
  destruct Hp' as (_ & _ & _ & _ & Hshape).
  rewrite blank_cell_eq in Hb. rewrite valid_cell_eq, ser_cell_eq.
  destruct Hshape as [Hs|s Ht -> Hs|Ht _].
  - rewrite Hs in *. subst c. split; [|reflexivity].
    pose proof (valid_cell_undef H U (Props b os op) o Hp) as Hv.
    rewrite valid_cell_eq, Hs in Hv. exact Hv.
  - rewrite Ht in *. change (scalar_type "object") with false in *.
    change (String.eqb "object" "object") with true in *.
    cbv iota in Hb |- *.
    destruct c as [d|es|obj errs]; try contradiction.
    + destruct d; try contradiction. split; [exact I|reflexivity].
    + destruct (blank_is_valid s Hs obj Hb) as [Hv Hser]. rewrite Hser.
      split; [exact Hv|reflexivity].
  - rewrite Ht in *. change (scalar_type "array") with false in *.
    change (String.eqb "array" "object") with false in *.
    cbv iota in Hb |- *.
    destruct Hb as [-> | ->]; (split; [|reflexivity]);
      [exact I|constructor].
Qed.
End Restore.

Section RestoreCases.
Variable H : Host.
Variable U : User.

Lemma restore_scalar b os op :
  scalar_type (type b) = true -> restore_field H U (Props b os op).
Proof.
  intros Hs o redirect c d j Hq Hp Hv Hser Hb. cbn [p_base] in *.
  unfold defineSetter_with.
  rewrite (defineGetter_plain H U b os op o j Hq Hp).
  rewrite (materialized_scalar b os op (name b) j Hs).
  pose proof Hp as Hp'. apply plain_props_inv in Hp'.
  destruct Hp' as (Hh & _ & Hro & _ & Hshape).
  pose proof (plain_shape_alias b os op Hshape) as Ha.
  pose proof (index_of_plain b Ha) as Hidx.
  apply quiet_options_inv in Hq. destruct Hq as (Hbv & Hvs & _ & _).
  rewrite Hro. cbn [andb].
  rewrite blank_cell_eq, Hs in Hb. rewrite Hb.
  rewrite valid_cell_eq, Hs in Hv. rewrite ser_cell_eq, Hs in Hser.
  destruct c as [d0|es|obj errs]; try contradiction.
  assert (d0 = d) by (destruct d0; congruence). subst d0.
  destruct Hv as [Hd Hcast]. rewrite Hcast.
  rewrite (writeValue_plain U o redirect (CVal d) b _ Hbv Hvs Ha).
  eexists. split; [reflexivity|]. rewrite slot_set_slot. repeat split.
  - rewrite valid_cell_eq, Hs. split; assumption.
  - rewrite ser_cell_eq, Hs. exact Hser.
  - intros k' Hk'. rewrite slot_set_slot_ne by exact Hk'.
    apply slot_write_back_ne. rewrite Hidx. exact Hk'.
Qed.

Lemma restore_object b s op :
  type b = "object" -> restore_schema H U s ->
  restore_field H U (Props b (Some s) op).
Proof.
  intros Ht HQ o redirect c d j Hq Hp Hv Hser Hb. cbn [p_base] in *.
  unfold defineSetter_with.
  rewrite (defineGetter_plain H U b (Some s) op o j Hq Hp).
  pose proof Hp as Hp'. apply plain_props_inv in Hp'.
  destruct Hp' as (Hh & _ & Hro & _ & Hshape).
  apply hookless_inv in Hh. destruct Hh as (Htr & _ & _ & _ & _ & Hg & _).
  pose proof (plain_shape_alias b (Some s) op Hshape) as Ha.
  pose proof (index_of_plain b Ha) as Hidx.
  assert (Hs : plain_schema s = true).
  { destruct Hshape as [Hs|s0 _ [= <-] Hs|Ht']; try exact Hs.
    - rewrite Ht in Hs. discriminate.
    - rewrite Ht in Ht'. discriminate. }
  apply quiet_options_inv in Hq. destruct Hq as (Hbv & Hvs & _ & _).
  rewrite Hro. cbn [andb].
  assert (Hcell : forall obj errs,
            valid_cell H U (Props b (Some s) op) o (CInst obj errs)
            = valid_store H U (s_fields s) (s_options s) obj).
  { intros obj errs. rewrite valid_cell_eq, Ht. reflexivity. }
  assert (Hsc : forall obj errs,
            ser_cell (Props b (Some s) op) (CInst obj errs)
            = match ser_flds (s_fields s) obj with
              | [] => None
              | kvs => Some (DObj kvs)
              end).
  { intros obj errs. rewrite ser_cell_eq, Ht. reflexivity. }
  rewrite blank_cell_eq, Ht in Hb.
  change (scalar_type "object") with false in Hb.
  change (String.eqb "object" "object") with true in Hb. cbv iota in Hb.
  assert (Hc : exists obj errs, c = CInst obj errs).
  { rewrite ser_cell_eq, Ht in Hser.
    destruct c as [[]|es|obj errs]; try discriminate Hser. eauto. }
  destruct Hc as (obj & errs & ->). rewrite Hcell in Hv. rewrite Hsc in Hser.
  assert (Hd : d = DObj (ser_flds (s_fields s) obj)).
  { destruct (ser_flds (s_fields s) obj); congruence. }
  subst d.
  (* the previous value: a nested instance that holds nothing *)
  assert (Horig : exists obj0 errs0,
            slot (name b) (i_obj (materialized (Props b (Some s) op)
                                    (name b) j)) = CInst obj0 errs0
            /\ blank_store (s_fields s) obj0
            /\ forall k', k' <> name b ->
                 slot k' (i_obj (materialized (Props b (Some s) op)
                                   (name b) j)) = slot k' (i_obj j)).
  { unfold materialized. cbn [p_base]. rewrite Ht.
    change (String.eqb "object" "object") with true.
    destruct (slot (name b) (i_obj j)) as [d0|es|obj0 errs0] eqn:Es;
      try contradiction.
    - destruct d0; try contradiction. cbn [cell_truthy truthy].
      exists [], []. rewrite slot_set_slot. split; [reflexivity|].
      split; [apply blank_store_empty|].
      intros k' Hk'. apply slot_set_slot_ne. exact Hk'.
    - cbn [cell_truthy]. exists obj0, errs0. auto. }
  destruct Horig as (obj0 & errs0 & Horig & Hblank & Hframe).
  rewrite Horig.
  rewrite (typecast_object H U b s op o _ _ Htr Ht) by reflexivity.
  cbn [typecast_schema_object].
  destruct (clear_blank H U s Hs (Inst obj0 errs0) Hblank)
    as (i1 & Hi1 & Hblank1).
  rewrite Hi1. cbn [enum_entries].
  destruct (HQ Hs obj i1 Hv Hblank1) as (i2 & Hi2 & Hv2 & Hser2).
  rewrite Hi2.
  rewrite (write_back_present b _ (CInst obj0 errs0) _ Hg)
    by (rewrite Hidx; apply slot_lookup; [exact Horig|discriminate]).
  rewrite Hidx.
  rewrite (writeValue_plain U o redirect _ b _ Hbv Hvs Ha).
  eexists. split; [reflexivity|]. rewrite slot_set_slot.
  unfold cell_of_inst. rewrite Hcell, Hsc, Hser2. repeat split.
  - exact Hv2.
  - exact Hser.
  - intros k' Hk'. rewrite !slot_set_slot_ne by exact Hk'.
    apply Hframe. exact Hk'.
Qed.

Lemma restore_array b os op :
  type b = "array" ->
  (forall o c, valid_element H U (Props b os op) o c ->
     exists c',
       match element_cast H U (Props b os op) o with
       | Some f => f (ser_element (Props b os op) c) = Ok c'
       | None => c' = CVal (ser_element (Props b os op) c)
       end
       /\ valid_element H U (Props b os op) o c'
       /\ ser_element (Props b os op) c' = ser_element (Props b os op) c) ->
  restore_field H U (Props b os op).
Proof.
  intros Ht Helem o redirect c d j Hq Hp Hv Hser Hb. cbn [p_base] in *.
  unfold defineSetter_with.
  rewrite (defineGetter_plain H U b os op o j Hq Hp).
  pose proof Hp as Hp'. apply plain_props_inv in Hp'.
  destruct Hp' as (Hh & _ & Hro & Hun & Hshape).
  apply hookless_inv in Hh. destruct Hh as (Htr & _ & _ & _ & _ & Hg & Hf).
  pose proof (plain_shape_alias b os op Hshape) as Ha.
  pose proof (index_of_plain b Ha) as Hidx.
  apply quiet_options_inv in Hq. destruct Hq as (Hbv & Hvs & _ & _).
  rewrite Hro. cbn [andb].
  assert (Hcell : forall es,
            valid_cell H U (Props b os op) o (CArr es)
            = Forall (valid_element H U (Props b os op) o) es).
  { intros es. rewrite valid_cell_eq, Ht. reflexivity. }
  assert (Hsc : forall es,
            ser_cell (Props b os op) (CArr es)
            = match map (ser_element (Props b os op)) es with
              | [] => None
              | xs => Some (DArr xs)
              end).
  { intros es. rewrite ser_cell_eq, Ht. reflexivity. }
  rewrite blank_cell_eq, Ht in Hb.
  change (scalar_type "array") with false in Hb.
  change (String.eqb "array" "object") with false in Hb. cbv iota in Hb.
  assert (Hc : exists es, c = CArr es).
  { rewrite ser_cell_eq, Ht in Hser.
    destruct c as [[]|es|obj errs]; try discriminate Hser. eauto. }
  destruct Hc as (es & ->). rewrite Hcell in Hv. rewrite Hsc in Hser.
  assert (Hd : d = DArr (map (ser_element (Props b os op)) es)).
  { destruct (map (ser_element (Props b os op)) es); congruence. }
  subst d.
  (* the previous value: an empty wrapper *)
  assert (Horig :
            slot (name b) (i_obj (materialized (Props b os op) (name b) j))
            = CArr []
            /\ forall k', k' <> name b ->
                 slot k' (i_obj (materialized (Props b os op) (name b) j))
                 = slot k' (i_obj j)).
  { unfold materialized. cbn [p_base]. rewrite Ht.
    change (String.eqb "array" "object") with false.
    change (String.eqb "array" "array") with true.
    destruct Hb as [Hb|Hb]; rewrite Hb.
    - cbn [cell_truthy truthy CUndef]. rewrite slot_set_slot.
      split; [reflexivity|].
      intros k' Hk'. apply slot_set_slot_ne. exact Hk'.
    - cbn [cell_truthy]. auto. }
  destruct Horig as (Horig & Hframe). rewrite Horig.
  rewrite (typecast_array_refill H U b os op o _ _ Htr Ht).
  destruct (restore_elements (element_cast H U (Props b os op) o)
              (ser_element (Props b os op))
              (valid_element H U (Props b os op) o) (Helem o) es Hv)
    as (cs & Hcs & Hvs' & Hmap).
  rewrite (refill_map U _ b Hf Hun _ cs [] Hcs). cbn [app].
  rewrite (write_back_present b _ (CArr []) _ Hg)
    by (rewrite Hidx; apply slot_lookup; [exact Horig|discriminate]).
  rewrite Hidx.
  rewrite (writeValue_plain U o redirect _ b _ Hbv Hvs Ha).
  eexists. split; [reflexivity|]. rewrite slot_set_slot.
  rewrite Hcell, Hsc, Hmap. repeat split.
  - exact Hvs'.
  - exact Hser.
  - intros k' Hk'. rewrite !slot_set_slot_ne by exact Hk'.
    apply Hframe. exact Hk'.
Qed.

(** The cast of the snapshot of an element. *)
Lemma restore_element b os op :
  match op with
  | Some pe =>
      plain_elem pe = true
      /\ match p_objectType pe with
         | Some s => restore_schema H U s
         | None => True
         end
  | None => True
  end ->
  forall o c, valid_element H U (Props b os op) o c ->
    exists c',
      match element_cast H U (Props b os op) o with
      | Some f => f (ser_element (Props b os op) c) = Ok c'
      | None => c' = CVal (ser_element (Props b os op) c)
      end
      /\ valid_element H U (Props b os op) o c'
      /\ ser_element (Props b os op) c' = ser_element (Props b os op) c.
Proof.
  intros Hop o c. unfold valid_element, ser_element, element_cast.
  cbn [p_arrayType]. destruct op as [[be ose ope]|].
  - destruct Hop as [Hpe HQ]. cbn [p_objectType] in HQ.
    rewrite valid_elem_eq, ser_elem_eq.
    apply plain_elem_inv in Hpe.
    destruct Hpe as (Hh & [Hs|(Hs & Ht & s & -> & Hps)]); rewrite Hs.
    + destruct c as [d|es|obj errs]; try contradiction.
      intros [Hd Hcast]. exists (CVal d). rewrite Hcast.
      split; [reflexivity|]. rewrite valid_elem_eq, ser_elem_eq, Hs.
      split; [split; assumption|reflexivity].
    + destruct c as [d|es|obj errs]; try contradiction.
      intros Hv.
      apply hookless_inv in Hh. destruct Hh as (Htr & _).
      rewrite (typecast_object H U be s ope o _ CUndef Htr Ht)
        by reflexivity.
      cbn [typecast_schema_object CUndef enum_entries].
      rewrite (construct_empty H U s Hps).
      destruct (HQ Hps obj empty_inst Hv (blank_store_empty _))
        as (i2 & Hi2 & Hv2 & Hser2).
      rewrite Hi2. exists (cell_of_inst i2). split; [reflexivity|].
      unfold cell_of_inst. rewrite valid_elem_eq, ser_elem_eq, Hs, Hser2.
      split; [exact Hv2|reflexivity].
  - intros [d ->]. exists (CVal (ser_raw (CVal d))).
    split; [reflexivity|]. split; [eexists; reflexivity|].
    apply ser_raw_idem.
Qed.

Lemma setter_walk_skip k p rest o redirect k' v i :
  String.eqb k k' = false ->
  setter_walk H U (FCons k p rest) o false redirect k' v i
  = setter_walk H U rest o false redirect k' v i.
Proof. intros Hk. rewrite setter_walk_cons, Hk. reflexivity. Qed.

(** Populating an instance that holds nothing with the snapshot of a store
    gives a store with the same snapshot. *)
Lemma populate_snapshot :
  forall s, restore_schema H U s.
Proof.
  apply (schema_ind'
           (fun p => (plain_props p = true -> restore_field H U p)
                     /\ match p_objectType p with
                        | Some s => restore_schema H U s
                        | None => True
                        end)
           (restore_schema H U) (restore_flds H U)).
  - intros b os op HQ HP. split; [|exact HQ].
    intros Hp. pose proof Hp as Hp'. apply plain_props_inv in Hp'.
    destruct Hp' as (_ & _ & _ & _ & [Hs|s Ht -> Hs|Ht Hop]).
    + apply restore_scalar. exact Hs.
    + apply restore_object; assumption.
    + apply restore_array; [exact Ht|]. apply restore_element.
      destruct op as [pe|]; [|exact I]. split; [exact Hop|apply HP].
  - intros o fs HR Hp obj j Hv Hb. cbn [s_fields s_options] in *.
    cbn [plain_schema] in Hp. apply andb_prop in Hp. destruct Hp as [Hq Hp].
    destruct (HR o (set_field H U (Schema o fs))
                (tie (field_count fs)
                   (fun redirect => setter_walk H U fs o false redirect))
                obj j Hq Hp) as (j' & Hj' & Hv' & Hser' & _); auto.
    exists j'. auto.
  - intros o set redirect obj j _ _ _ _ _. exists j. cbn. auto.
  - intros k p rest [HP _] HR o set redirect obj j Hq Hp Hset Hv Hb.
    apply plain_flds_inv in Hp. destruct Hp as (Hk & Hnk & Hp & Hrest).
    cbn [valid_store] in Hv. destruct Hv as [Hc Hv].
    cbn [blank_store] in Hb. destruct Hb as [Hbc Hb]. subst k.
    assert (Hset' : forall k v i, has_key k rest = true ->
                      set k v i = setter_walk H U rest o false redirect k v i).
    { intros k v i Hk. rewrite Hset by (cbn [has_key]; rewrite Hk;
                                         apply orb_true_r).
      apply setter_walk_skip.
      destruct (String.eqb (name (p_base p)) k) eqn:E; [|reflexivity].
      apply String.eqb_eq in E. subst k. congruence. }
    assert (Hskip : forall j0,
              slot (name (p_base p)) (i_obj j0)
              = slot (name (p_base p)) (i_obj j) ->
              valid_cell H U p o (slot (name (p_base p)) (i_obj j0))
              /\ ser_cell p (slot (name (p_base p)) (i_obj j0)) = None).
    { intros j0 ->. apply blank_cell_valid; assumption. }
    cbn [ser_flds].
    destruct (invisible (p_base p)) eqn:Einv.
    { destruct (HR o set redirect obj j Hq Hrest Hset' Hv Hb)
        as (j' & Hj' & Hv' & Hser' & Hframe').
      exists j'. split; [exact Hj'|]. cbn [valid_store]. split.
      - split; [|exact Hv']. apply Hskip. apply Hframe'. exact Hnk.
      - split; [exact Hser'|].
        intros k Hk. cbn [has_key] in Hk. apply orb_false_elim in Hk.
        apply Hframe'. apply Hk. }
    destruct (ser_cell p (slot (name (p_base p)) obj)) as [d|] eqn:Eser.
    + cbn [assign_all]. rewrite Hset
        by (cbn [has_key]; rewrite String.eqb_refl; reflexivity).
      rewrite setter_walk_cons, String.eqb_refl.
      destruct (HP Hp o redirect _ d j Hq Hp Hc Eser Hbc)
        as (j1 & Hj1 & Hv1 & Hser1 & Hframe1).
      rewrite Hj1.
      assert (Hsame : forall k, has_key k rest = true ->
                        slot k (i_obj j1) = slot k (i_obj j)).
      { intros k Hk. apply Hframe1. apply (has_key_ne _ _ rest Hnk Hk). }
      destruct (HR o set redirect obj j1 Hq Hrest Hset' Hv)
        as (j' & Hj' & Hv' & Hser' & Hframe').
      { apply (blank_store_frame rest (i_obj j)); assumption. }
      exists j'. split; [exact Hj'|]. cbn [valid_store].
      rewrite (Hframe' _ Hnk), Hser1, Hser'. repeat split; try assumption.
      intros k Hk. cbn [has_key] in Hk. apply orb_false_elim in Hk.
      destruct Hk as [Hk1 Hk2]. rewrite (Hframe' _ Hk2). apply Hframe1.
      intros ->. rewrite String.eqb_refl in Hk1. discriminate.
    + destruct (HR o set redirect obj j Hq Hrest Hset' Hv Hb)
        as (j' & Hj' & Hv' & Hser' & Hframe').
      exists j'. split; [exact Hj'|]. cbn [valid_store].
      destruct (Hskip j' (Hframe' _ Hnk)) as [Hvk Hsk]. rewrite Hsk, Hser'.
      repeat split; try assumption.
      intros k Hk. cbn [has_key] in Hk. apply orb_false_elim in Hk.
      apply Hframe'. apply Hk.
Qed.
End RestoreCases.




(* ================================================================== *)
(** ** Further properties of the Typecast Engine *)

(** X1.  A boolean field without [transform] and [booleanTransform] rejects
    nothing: the typecast returns for every input, leaves the previous value
    alone, and gives [undefined], a boolean, or [null] (the latter only for
    [null] under [preserveNull]). *)
Theorem boolean_cast_never_rejects (H : Host) (U : User) (p : props)
    (o : options) (v : data) (orig : cell) :
  type (p_base p) = "boolean" ->
  transform (p_base p) = None ->
  booleanTransform (p_base p) = None ->
  exists d,
    typecast H U p o v orig = (Ok (CVal d), orig)
    /\ match d with
       | DUndef | DBool _ => True
       | DNull => v = DNull /\ preserveNull o = true
       | _ => False
       end.
Proof.
  intros Ht Htr Hbt. rewrite typecast_eq. unfold typecast_body.
  rewrite Htr, Ht. cbn [apply_transform].
  change (String.eqb "boolean" "string") with false.
  change (String.eqb "boolean" "number") with false.
  change (String.eqb "boolean" "boolean") with true. cbv iota.
  unfold typecast_boolean. rewrite Hbt. cbn [apply_transform].
  destruct v as [| |x|n|s|t|src|f|xs|kvs];
    try (destruct (preserveNull o) eqn:Hn);
    try (eexists; split; [reflexivity|]; cbn; auto; fail).
  all: try (destruct s as [|c s'];
            [eexists; split; [reflexivity|exact I]|]).
  all: match goal with
       | |- context [strict_eq ?a ?b] => destruct (strict_eq a b)
       end;
    try (eexists; split; [reflexivity|exact I]).
  all: match goal with
       | |- context [isNumeric ?h ?a] => destruct (isNumeric h a)
       end;
    eexists; (split; [reflexivity|exact I]).
Qed.

Lemma boolean_cast_never_rejects_witness :
  exists d,
    typecast reference_host reference_user (scalar "b" "boolean" [])
      default_options (DStr "false") CUndef = (Ok (CVal d), CUndef)
    /\ match d with
       | DUndef | DBool _ => True
       | DNull => DStr "false" = DNull /\ preserveNull default_options = true
       | _ => False
       end.
Proof.
  apply (boolean_cast_never_rejects reference_host reference_user
           (scalar "b" "boolean" []) default_options (DStr "false") CUndef);
    reflexivity.
Defined.

(** X2.  What a number field without [transform] and [numberTransform]
    accepts is [undefined], a preserved [null], or a finite number: never
    [NaN] or an infinity; and with a plain [min] or [max] it is not below
    [min] and not above [max]. *)
Theorem number_cast_is_finite_and_bounded (H : Host) (U : User) (p : props)
    (o : options) (v : data) (orig : cell) (c orig' : cell) :
  type (p_base p) = "number" ->
  transform (p_base p) = None ->
  numberTransform (p_base p) = None ->
  typecast H U p o v orig = (Ok c, orig') ->
  c = CVal DUndef
  \/ (c = CVal DNull /\ v = DNull /\ preserveNull o = true)
  \/ exists n,
       c = CVal (DNum n)
       /\ PrimFloat.is_finite n = true
       /\ (forall m, min (p_base p) = DNum m -> PrimFloat.ltb n m = false)
       /\ (forall M, max (p_base p) = DNum M -> PrimFloat.ltb M n = false).
Proof.
  intros Ht Htr Hnt. rewrite typecast_eq. unfold typecast_body.
  rewrite Htr, Ht. cbn [apply_transform].
  change (String.eqb "number" "string") with false.
  change (String.eqb "number" "number") with true. cbv iota.
  destruct (match v with DNull => preserveNull o | _ => false end) eqn:Hnull.
  { intros [= <- _]. right. left. destruct v; try discriminate Hnull. auto. }
  unfold typecast_number. rewrite Hnt. cbn [apply_transform].
  set (v1 := match v with DBool x => DNum (b2n x) | _ => v end).
  set (checked := match v1 with
                  | DStr s =>
                      if PrimFloat.is_nan
                           (StringToNumber H (normalize_separators o s))
                      then Throw (number_cast_error "String"
                                    (CVal (DStr (normalize_separators o s)))
                                    orig (p_base p))
                      else Ok (DStr (normalize_separators o s))
                  | _ => Ok v1
                  end).
  assert (Hmain :
    forall r : outcome data,
      (r = (v2 <- checked ;;
            if isArray v2
            then Throw (number_cast_error "Array" (CVal v2) orig (p_base p))
            else if isObject v2
            then Throw (number_cast_error "Object" (CVal v2) orig (p_base p))
            else if negb (isNumeric H v2)
            then Throw (number_cast_error "Non-numeric" (CVal v2) orig
                          (p_base p))
            else
              mn <- detectCustomErrorMessage (min (p_base p)) ;;
              if negb (isUndefined (fst mn))
                 && js_lt H (DNum (ToNumber H v2)) (fst mn)
              then Throw (validation_error NumberMinValidationError
                            (snd mn) (CVal (DNum (ToNumber H v2))) orig
                            (p_base p))
              else
                mx <- detectCustomErrorMessage (max (p_base p)) ;;
                if negb (isUndefined (fst mx))
                   && js_gt H (DNum (ToNumber H v2)) (fst mx)
                then Throw (validation_error NumberMaxValidationError
                              (snd mx) (CVal (DNum (ToNumber H v2))) orig
                              (p_base p))
                else Ok (DNum (ToNumber H v2)))) ->
      forall d, r = Ok d ->
      exists n, d = DNum n
        /\ PrimFloat.is_finite n = true
        /\ (forall m, min (p_base p) = DNum m -> PrimFloat.ltb n m = false)
        /\ (forall M, max (p_base p) = DNum M -> PrimFloat.ltb M n = false)).
  { intros r -> d. destruct checked as [v2|e]; [|discriminate]. cbn [bind].
    destruct (isArray v2); [discriminate|].
    destruct (isObject v2); [discriminate|].
    destruct (isNumeric H v2) eqn:Hnum; [|discriminate]. cbn [negb].
    unfold isNumeric in Hnum. apply andb_prop in Hnum.
    destruct Hnum as [_ Hfin].
    destruct (detectCustomErrorMessage (min (p_base p))) as [mn|e] eqn:Emin;
      [|discriminate]. cbn [bind].
    destruct (negb (isUndefined (fst mn))
              && js_lt H (DNum (ToNumber H v2)) (fst mn)) eqn:Hlow;
      [discriminate|].
    destruct (detectCustomErrorMessage (max (p_base p))) as [mx|e] eqn:Emax;
      [|discriminate]. cbn [bind].
    destruct (negb (isUndefined (fst mx))
              && js_gt H (DNum (ToNumber H v2)) (fst mx)) eqn:Hhigh;
      [discriminate|].
    intros [= <-]. exists (ToNumber H v2). repeat split; [exact Hfin| |].
    - intros m Hm. rewrite Hm in Emin. injection Emin as <-. exact Hlow.
    - intros M HM. rewrite HM in Emax. injection Emax as <-. exact Hhigh. }
  destruct v as [| |x|vn|s|t|src|f|xs|kvs];
    try (intros [= <- _]; left; reflexivity).
  all: try (destruct s as [|a s'];
            [intros [= <- _]; left; reflexivity|]).
  all: match goal with
       | |- (bind ?m _, _) = _ -> _ =>
           destruct m as [d|e] eqn:Em; cbn [bind]; [|discriminate];
           intros [= <- _]; right; right;
           destruct (Hmain _ eq_refl d Em) as (n & -> & Hrest);
           exists n; split; [reflexivity|exact Hrest]
       end.
Qed.

Lemma number_cast_is_finite_and_bounded_witness :
  CVal (DNum 15%float) = CVal DUndef
  \/ (CVal (DNum 15%float) = CVal DNull /\ DStr "15" = DNull
      /\ preserveNull default_options = true)
  \/ exists n,
       CVal (DNum 15%float) = CVal (DNum n)
       /\ PrimFloat.is_finite n = true
       /\ (forall m,
             min (p_base (scalar "age" "number"
                            [("min", DNum 0%float); ("max", DNum 120%float)]))
             = DNum m -> PrimFloat.ltb n m = false)
       /\ (forall M,
             max (p_base (scalar "age" "number"
                            [("min", DNum 0%float); ("max", DNum 120%float)]))
             = DNum M -> PrimFloat.ltb M n = false).
Proof.
  apply (number_cast_is_finite_and_bounded reference_host reference_user
           (scalar "age" "number"
              [("min", DNum 0%float); ("max", DNum 120%float)])
           default_options (DStr "15") CUndef (CVal (DNum 15%float)) CUndef);
    reflexivity.
Defined.

Lemma not_in_array_string (s : string) (xs : list data) :
  not_in_array (DStr s) xs = false -> In (DStr s) xs.
Proof.
  unfold not_in_array. intros Hn. apply negb_false_iff in Hn.
  apply existsb_exists in Hn. destruct Hn as (x & Hin & Heq).
  destruct x; try discriminate Heq. cbn [strict_eq] in Heq.
  apply String.eqb_eq in Heq. subst. exact Hin.
Qed.

(** X3.  What a string field without [transform] and [stringTransform]
    accepts is [undefined], a preserved [null], or a string that meets every
    declared constraint: it is in the [enum] list, not shorter than
    [minLength], not longer than [maxLength], and matches [regex]
    (constraints in their bare form). *)
Theorem string_cast_meets_constraints (H : Host) (U : User) (p : props)
    (o : options) (v : data) (orig : cell) (c orig' : cell) :
  type (p_base p) = "string" ->
  transform (p_base p) = None ->
  stringTransform (p_base p) = None ->
  typecast H U p o v orig = (Ok c, orig') ->
  c = CVal DUndef
  \/ (c = CVal DNull /\ v = DNull /\ preserveNull o = true)
  \/ exists s,
       c = CVal (DStr s)
       /\ (forall xs, enum (p_base p) = DArr xs ->
             isArray (nth 0 xs DUndef) = false -> In (DStr s) xs)
       /\ (forall m, minLength (p_base p) = DNum m ->
             PrimFloat.ltb (num_of_nat (String.length s)) m = false)
       /\ (forall M, maxLength (p_base p) = DNum M ->
             PrimFloat.ltb M (num_of_nat (String.length s)) = false)
       /\ (forall src, regex (p_base p) = DRegex src ->
             RegExp_test H src s = true).
Proof.
  intros Ht Htr Hst. rewrite typecast_eq. unfold typecast_body.
  rewrite Htr, Ht. cbn [apply_transform].
  change (String.eqb "string" "string") with true. cbv iota.
  destruct (match v with DNull => preserveNull o | _ => false end) eqn:Hnull.
  { intros [= <- _]. right. left. destruct v; try discriminate Hnull. auto. }
  unfold typecast_string. rewrite Hst. cbn [apply_transform].
  destruct (isObject v || isArray v); [discriminate|].
  assert (Hmain :
    forall s0 d,
      (value <- (if negb (isUndefined (clip (p_base p)))
                    && negb (isUndefined (maxLength (p_base p)))
                 then clip_value H (DStr s0) (maxLength (p_base p))
                 else Ok (DStr s0)) ;;
       enumValidation <- detect_enum (enum (p_base p)) ;;
       if negb (isUndefined (fst enumValidation))
          && match fst enumValidation with
             | DArr xs => not_in_array value xs
             | _ => false
             end
       then Throw (validation_error StringEnumValidationError
                     (snd enumValidation) (CVal value) orig (p_base p))
       else
         minL <- detectCustomErrorMessage (minLength (p_base p)) ;;
         short <- (if isUndefined (fst minL) then Ok false
                   else len <- length_of H value ;;
                        Ok (js_lt H len (fst minL))) ;;
         if (short : bool)
         then Throw (validation_error StringMinLengthValidationError
                       (snd minL) (CVal value) orig (p_base p))
         else
           maxL <- detectCustomErrorMessage (maxLength (p_base p)) ;;
           long <- (if isUndefined (fst maxL) then Ok false
                    else len <- length_of H value ;;
                         Ok (js_gt H len (fst maxL))) ;;
           if (long : bool)
           then Throw (validation_error StringMaxLengthValidationError
                         (snd maxL) (CVal value) orig (p_base p))
           else
             rx <- detectCustomErrorMessage (regex (p_base p)) ;;
             mismatch <- (if truthy (fst rx)
                          then ok <- regex_test H (fst rx) value ;;
                               Ok (negb ok)
                          else Ok false) ;;
             if (mismatch : bool)
             then Throw (validation_error StringRegexValidationError
                           (snd rx) (CVal value) orig (p_base p))
             else Ok value) = Ok d ->
      exists s,
        d = DStr s
        /\ (forall xs, enum (p_base p) = DArr xs ->
              isArray (nth 0 xs DUndef) = false -> In (DStr s) xs)
        /\ (forall m, minLength (p_base p) = DNum m ->
              PrimFloat.ltb (num_of_nat (String.length s)) m = false)
        /\ (forall M, maxLength (p_base p) = DNum M ->
              PrimFloat.ltb M (num_of_nat (String.length s)) = false)
        /\ (forall src, regex (p_base p) = DRegex src ->
              RegExp_test H src s = true)).
  { intros s0 d.
    assert (Hclip : exists s1,
              (if negb (isUndefined (clip (p_base p)))
                  && negb (isUndefined (maxLength (p_base p)))
               then clip_value H (DStr s0) (maxLength (p_base p))
               else Ok (DStr s0)) = Ok (DStr s1)).
    { destruct (negb (isUndefined (clip (p_base p)))
                && negb (isUndefined (maxLength (p_base p))));
        eexists; reflexivity. }
    destruct Hclip as [s1 ->]. cbn [bind].
    destruct (detect_enum (enum (p_base p))) as [en|e] eqn:Een;
      [|discriminate]. cbn [bind].
    destruct (negb (isUndefined (fst en))
              && match fst en with
                 | DArr xs => not_in_array (DStr s1) xs
                 | _ => false
                 end) eqn:Hen; [discriminate|].
    destruct (detectCustomErrorMessage (minLength (p_base p)))
      as [minL|e] eqn:Emin; [|discriminate]. cbn [bind].
    destruct (if isUndefined (fst minL) then Ok false
              else len <- length_of H (DStr s1) ;;
                   Ok (js_lt H len (fst minL))) as [short|e] eqn:Eshort;
      [|discriminate]. cbn [bind].
    destruct short; [discriminate|].
    destruct (detectCustomErrorMessage (maxLength (p_base p)))
      as [maxL|e] eqn:Emax; [|discriminate]. cbn [bind].
    destruct (if isUndefined (fst maxL) then Ok false
              else len <- length_of H (DStr s1) ;;
                   Ok (js_gt H len (fst maxL))) as [long|e] eqn:Elong;
      [|discriminate]. cbn [bind].
    destruct long; [discriminate|].
    destruct (detectCustomErrorMessage (regex (p_base p)))
      as [rx|e] eqn:Erx; [|discriminate]. cbn [bind].
    destruct (if truthy (fst rx)
              then ok <- regex_test H (fst rx) (DStr s1) ;; Ok (negb ok)
              else Ok false) as [mismatch|e] eqn:Emis;
      [|discriminate]. cbn [bind].
    destruct mismatch; [discriminate|].
    intros [= <-]. exists s1. split; [reflexivity|]. repeat split.
    - intros xs Hxs Hbare. rewrite Hxs in Een. cbn in Een.
      rewrite Hbare in Een. injection Een as <-. cbn in Hen.
      apply not_in_array_string. exact Hen.
    - intros m Hm. rewrite Hm in Emin. injection Emin as <-.
      cbn in Eshort. injection Eshort as Hs. exact Hs.
    - intros M HM. rewrite HM in Emax. injection Emax as <-.
      cbn in Elong. injection Elong as Hl. exact Hl.
    - intros src Hsrc. rewrite Hsrc in Erx. injection Erx as <-.
      cbn in Emis. injection Emis as Hm.
      apply negb_false_iff in Hm. exact Hm. }
  destruct v as [| |x|vn|s|t|src|f|xs|kvs];
    try (intros [= <- _]; left; reflexivity).
  all: match goal with
       | |- (bind ?m _, _) = _ -> _ =>
           destruct m as [d|e] eqn:Em; cbn [bind]; [|discriminate];
           intros [= <- _]; right; right;
           destruct (Hmain _ d Em) as (s1 & -> & Hrest);
           exists s1; split; [reflexivity|exact Hrest]
       end.
Qed.

Lemma string_cast_meets_constraints_witness :
  CVal (DStr "hello") = CVal DUndef
  \/ (CVal (DStr "hello") = CVal DNull /\ DStr "hello" = DNull
      /\ preserveNull default_options = true)
  \/ exists s,
       CVal (DStr "hello") = CVal (DStr s)
       /\ (forall xs,
             enum (p_base (scalar "" "string" [("maxLength", DNum 5%float)]))
             = DArr xs ->
             isArray (nth 0 xs DUndef) = false -> In (DStr s) xs)
       /\ (forall m,
             minLength
               (p_base (scalar "" "string" [("maxLength", DNum 5%float)]))
             = DNum m ->
             PrimFloat.ltb (num_of_nat (String.length s)) m = false)
       /\ (forall M,
             maxLength
               (p_base (scalar "" "string" [("maxLength", DNum 5%float)]))
             = DNum M ->
             PrimFloat.ltb M (num_of_nat (String.length s)) = false)
       /\ (forall src,
             regex (p_base (scalar "" "string" [("maxLength", DNum 5%float)]))
             = DRegex src ->
             RegExp_test reference_host src s = true).
Proof.
  apply (string_cast_meets_constraints reference_host reference_user
           (scalar "" "string" [("maxLength", DNum 5%float)])
           default_options (DStr "hello") CUndef (CVal (DStr "hello"))
           CUndef);
    reflexivity.
Defined.

(** The read of a field that is neither object- nor array-typed, without
    getter hook: the slot, and nothing changes. *)
Lemma defineGetter_flat (H : Host) (U : User) (p : props) (o : options)
    (i : inst) :
  getter_hook (p_base p) = None ->
  String.eqb (type (p_base p)) "object" = false ->
  String.eqb (type (p_base p)) "array" = false ->
  defineGetter H U p o i
  = (Ok (slot (indexOrAliasIndex (p_base p)) (i_obj i)), i).
Proof.
  intros Hg Ho Ha. rewrite defineGetter_eq. unfold defineGetter_body, getter.
  rewrite Hg, Ho, Ha. cbn [orb andb]. rewrite andb_false_r. reflexivity.
Qed.

(** X4.  A field whose type is none that the typecast knows (['any'], or any
    other name) stores whatever it is assigned, as it is, and logs nothing:
    with no [transform], getter hook or handlers, the assignment of [v]
    leaves the instance with [v] in the slot of the field. *)
Theorem untyped_field_stores_anything (H : Host) (U : User) (p : props)
    (o : options) (redirect : string -> data -> inst -> outcome unit * inst)
    (v : data) (i : inst) :
  (forall t, In t ["string"; "number"; "boolean"; "array"; "object"; "date";
                   "alias"] -> type (p_base p) <> t) ->
  transform (p_base p) = None ->
  getter_hook (p_base p) = None ->
  readOnly (p_base p) = false ->
  onBeforeValueSet o = None ->
  onValueSet o = None ->
  defineSetter H U p o redirect v i
  = (Ok tt, set_slot (name (p_base p)) (CVal v) i).
Proof.
  intros Hty Htr Hg Hro Hbv Hvs.
  assert (Hne : forall t, In t ["string"; "number"; "boolean"; "array";
                                "object"; "date"; "alias"] ->
                  String.eqb (type (p_base p)) t = false).
  { intros t Ht. destruct (String.eqb (type (p_base p)) t) eqn:E;
      [|reflexivity].
    apply String.eqb_eq in E. contradiction (Hty t Ht E). }
  unfold defineSetter, defineSetter_with. rewrite Hro. cbn [andb].
  pose proof (defineGetter_flat H U p o i Hg) as Hget.
  rewrite Hget by (apply Hne; cbn; auto 10).
  assert (Hcast : forall orig,
            typecast H U p o v orig = (Ok (CVal v), orig)).
  { intros orig. rewrite typecast_eq. unfold typecast_body.
    rewrite Htr. cbn [apply_transform].
    rewrite !Hne by (cbn; auto 10).
    destruct v; try reflexivity. destruct (preserveNull o); reflexivity. }
  rewrite Hcast.
  rewrite (write_back_read H U p o i _ i)
    by (rewrite Hget by (apply Hne; cbn; auto 10); reflexivity).
  rewrite (writeValue_plain U o redirect (CVal v) (p_base p) i Hbv Hvs)
    by (apply Hne; cbn; auto 10).
  reflexivity.
Qed.

Lemma untyped_field_stores_anything_witness :
  defineSetter reference_host reference_user (scalar "x" "any" [])
    default_options no_redirect (DArr [DNum 1%float; DStr "a"]) empty_inst
  = (Ok tt,
     set_slot (name (p_base (scalar "x" "any" [])))
       (CVal (DArr [DNum 1%float; DStr "a"])) empty_inst).
Proof.
  apply (untyped_field_stores_anything reference_host reference_user
           (scalar "x" "any" []) default_options no_redirect
           (DArr [DNum 1%float; DStr "a"]) empty_inst);
    try reflexivity.
  intros t Ht. cbn in Ht.
  repeat (destruct Ht as [<- | Ht]; [discriminate|]). contradiction.
Defined.

(** X5.  The inputs that unset a scalar field (string, number, boolean or
    date) without [transform]: [undefined]; [null] unless [preserveNull] is
    on; and the empty string, except for a string field.  The typecast gives
    [undefined] and leaves the previous value alone, whatever the constraints
    of the field. *)
Theorem empty_inputs_unset_scalars (H : Host) (U : User) (p : props)
    (o : options) (v : data) (orig : cell) :
  scalar_type (type (p_base p)) = true ->
  transform (p_base p) = None ->
  v = DUndef
  \/ (v = DNull /\ preserveNull o = false)
  \/ (v = DStr "" /\ type (p_base p) <> "string") ->
  typecast H U p o v orig = (Ok (CVal DUndef), orig).
Proof.
  intros Hs Htr Hv. rewrite typecast_eq. unfold typecast_body.
  rewrite Htr. cbn [apply_transform].
  destruct (scalar_type_inv _ Hs) as [Ht|[Ht|[Ht|Ht]]]; rewrite Ht in *;
    destruct Hv as [-> | [[-> Hn] | [-> Hns]]];
    rewrite ?Hn; try reflexivity.
  contradiction Hns. reflexivity.
Qed.

Lemma empty_inputs_unset_scalars_witness :
  typecast reference_host reference_user
    (scalar "age" "number" [("min", DNum 0%float); ("max", DNum 120%float)])
    default_options (DStr "") (CVal (DNum 15%float))
  = (Ok (CVal DUndef), CVal (DNum 15%float)).
Proof.
  apply (empty_inputs_unset_scalars reference_host reference_user
           (scalar "age" "number"
              [("min", DNum 0%float); ("max", DNum 120%float)])
           default_options (DStr "") (CVal (DNum 15%float)));
    try reflexivity.
  right. right. split; [reflexivity|discriminate].
Defined.

(** X6.  Assigning a value that is no object (a string, a number, a boolean,
    [undefined], or [null] without [preserveNull]) to an array field without
    [transform] is rejected with an [ArrayCastError]: the setter logs that one
    error, and the wrapper the field holds is as the setter's read left it. *)
Theorem array_field_rejects_non_objects (H : Host) (U : User) (p : props)
    (o : options) (redirect : string -> data -> inst -> outcome unit * inst)
    (v : data) (i : inst) (c : cell) (i1 : inst) :
  type (p_base p) = "array" ->
  transform (p_base p) = None ->
  readOnly (p_base p) = false ->
  isObject v = false ->
  (v = DNull -> preserveNull o = false) ->
  defineGetter H U p o i = (Ok c, i1) ->
  defineSetter H U p o redirect v i
  = (Ok tt, log_error (cast_error ArrayCastError (CVal v) c (p_base p)) i1).
Proof.
  intros Ht Htr Hro Hv Hnull Hget.
  unfold defineSetter, defineSetter_with. rewrite Hro, Hget. cbn [andb].
  assert (Hcast : typecast H U p o v c
                  = (Throw (cast_error ArrayCastError (CVal v) c (p_base p)),
                     c)).
  { rewrite typecast_eq. unfold typecast_body.
    rewrite Htr, Ht. cbn [apply_transform].
    change (String.eqb "array" "string") with false.
    change (String.eqb "array" "number") with false.
    change (String.eqb "array" "boolean") with false.
    change (String.eqb "array" "array") with true. cbv iota.
    unfold typecast_array. rewrite Hv.
    destruct v; try discriminate Hv; try reflexivity.
    rewrite (Hnull eq_refl). reflexivity. }
  rewrite Hcast. rewrite (write_back_read H U p o i c i1 Hget). reflexivity.
Qed.

Lemma array_field_rejects_non_objects_witness :
  defineSetter reference_host reference_user tags_props default_options
    no_redirect (DNum 5%float)
    (Inst [("tags", CArr [CVal (DStr "a")])] [])
  = (Ok tt,
     log_error
       (cast_error ArrayCastError (CVal (DNum 5%float))
          (CArr [CVal (DStr "a")]) (p_base tags_props))
       (Inst [("tags", CArr [CVal (DStr "a")])] [])).
Proof.
  apply (array_field_rejects_non_objects reference_host reference_user
           tags_props default_options no_redirect (DNum 5%float)
           (Inst [("tags", CArr [CVal (DStr "a")])] [])
           (CArr [CVal (DStr "a")])
           (Inst [("tags", CArr [CVal (DStr "a")])] []));
    try reflexivity; discriminate.
Defined.

(* ================================================================== *)
(** ** Further properties of assignments *)

Lemma setter_walk_field (H : Host) (U : User) fs o suspended redirect k v i :
  setter_walk H U fs o suspended redirect k v i
  = match field k fs with
    | Some p =>
        defineSetter_with U (defineGetter H U p o) (typecast H U p o)
          (p_base p) o suspended redirect v i
    | None => (Ok tt, i)
    end.
Proof.
  induction fs as [|k' p rest IH]; [reflexivity|].
  rewrite setter_walk_cons. cbn [field].
  destruct (String.eqb k' k); [reflexivity|exact IH].
Qed.

Lemma set_field_field (H : Host) (U : User) o fs k v i :
  set_field H U (Schema o fs) k v i
  = match field k fs with
    | Some p =>
        defineSetter_with U (defineGetter H U p o) (typecast H U p o)
          (p_base p) o false
          (tie (field_count fs)
             (fun redirect => setter_walk H U fs o false redirect)) v i
    | None => (Ok tt, i)
    end.
Proof.
  cbn [set_field tie]. apply setter_walk_field.
Qed.

(** X7.  In strict mode (with [dotNotation] and [keysIgnoreCase] off, the
    defaults) the assignment of a key the schema does not declare, and that
    is none of the keys every object inherits, is ignored: the instance is
    as it was, nothing is stored and nothing is logged. *)
Theorem undeclared_key_is_ignored (H : Host) (U : User) (s : schema)
    (k : string) (v : data) (i : inst) :
  field k (s_fields s) = None ->
  inherited_key k = false ->
  set_field H U s k v i = (Ok tt, i).
Proof.
  destruct s as [o fs]. cbn [s_fields]. intros Hk _.
  rewrite set_field_field, Hk. reflexivity.
Qed.

Lemma undeclared_key_is_ignored_witness :
  set_field reference_host reference_user age_schema "name" (DStr "ann")
    (Inst [("age", CVal (DNum 15%float))] [])
  = (Ok tt, Inst [("age", CVal (DNum 15%float))] []).
Proof.
  apply (undeclared_key_is_ignored reference_host reference_user age_schema
           "name" (DStr "ann") (Inst [("age", CVal (DNum 15%float))] []));
    reflexivity.
Defined.

(** X8.  The assignment of a read-only field is ignored, whatever the value:
    the instance is as it was, the value is not even cast, and nothing is
    logged. *)
Theorem read_only_field_is_not_assigned (H : Host) (U : User) (s : schema)
    (k : string) (p : props) (v : data) (i : inst) :
  field k (s_fields s) = Some p ->
  readOnly (p_base p) = true ->
  set_field H U s k v i = (Ok tt, i).
Proof.
  destruct s as [o fs]. cbn [s_fields]. intros Hk Hro.
  rewrite set_field_field, Hk. unfold defineSetter_with. rewrite Hro.
  reflexivity.
Qed.

Lemma read_only_field_is_not_assigned_witness :
  set_field reference_host reference_user
    (Schema default_options
       (FCons "id" (scalar "id" "number" [("readOnly", DBool true)]) FNil))
    "id" (DStr "oops") (Inst [("id", CVal (DNum 7%float))] [])
  = (Ok tt, Inst [("id", CVal (DNum 7%float))] []).
Proof.
  apply (read_only_field_is_not_assigned reference_host reference_user
           (Schema default_options
              (FCons "id" (scalar "id" "number" [("readOnly", DBool true)])
                 FNil))
           "id" (scalar "id" "number" [("readOnly", DBool true)])
           (DStr "oops") (Inst [("id", CVal (DNum 7%float))] []));
    reflexivity.
Defined.

Lemma writeValue_no_alias (U : User) (o : options) r r' c b i :
  String.eqb (type b) "alias" = false ->
  writeValue U o r c b i = writeValue U o r' c b i.
Proof. intros Ha. unfold writeValue. rewrite Ha. reflexivity. Qed.

Lemma defineSetter_with_no_alias (U : User) get cast b o sus r r' v i :
  String.eqb (type b) "alias" = false ->
  defineSetter_with U get cast b o sus r v i
  = defineSetter_with U get cast b o sus r' v i.
Proof.
  intros Ha. unfold defineSetter_with.
  destruct (readOnly b && negb sus); [reflexivity|].
  destruct (get i) as [[orig|e] i1]; [|reflexivity].
  destruct (cast v orig) as [[c|e] mutated]; [|reflexivity].
  rewrite (writeValue_no_alias U o r r' c b _ Ha). reflexivity.
Qed.

(** X9.  An alias reads and writes its target.  For an alias field without
    [transform], getter hook and [readOnly], in a schema without
    [onBeforeValueSet], whose target is a declared field that is no alias
    itself: the read of the alias returns what the slot of the target holds,
    and the assignment of the alias is the assignment of the target. *)
Theorem alias_reads_and_writes_its_target (H : Host) (U : User) (o : options)
    (fs : flds) (a : string) (pa pt : props) (v : data) (i : inst) :
  field a fs = Some pa ->
  type (p_base pa) = "alias" ->
  transform (p_base pa) = None ->
  getter_hook (p_base pa) = None ->
  readOnly (p_base pa) = false ->
  onBeforeValueSet o = None ->
  field (index (p_base pa)) fs = Some pt ->
  type (p_base pt) <> "alias" ->
  defineGetter H U pa o i = (Ok (slot (index (p_base pa)) (i_obj i)), i)
  /\ set_field H U (Schema o fs) a v i
     = set_field H U (Schema o fs) (index (p_base pa)) v i.
Proof.
  intros Ha Hty Htr Hg Hro Hbv Ht Hnt.
  assert (Hidx : indexOrAliasIndex (p_base pa) = index (p_base pa)).
  { unfold indexOrAliasIndex. rewrite Hty. reflexivity. }
  assert (Hget : defineGetter H U pa o i
                 = (Ok (slot (index (p_base pa)) (i_obj i)), i)).
  { rewrite <- Hidx. apply defineGetter_flat; [exact Hg| |];
      rewrite Hty; reflexivity. }
  split; [exact Hget|].
  assert (Hpt : String.eqb (type (p_base pt)) "alias" = false).
  { destruct (String.eqb (type (p_base pt)) "alias") eqn:E; [|reflexivity].
    apply String.eqb_eq in E. contradiction. }
  rewrite !set_field_field, Ha, Ht.
  unfold defineSetter_with at 1. rewrite Hro, Hget. cbn [andb].
  assert (Hcast : forall orig,
            typecast H U pa o v orig = (Ok (CVal v), orig)).
  { intros orig. rewrite typecast_eq. unfold typecast_body.
    rewrite Htr, Hty. cbn [apply_transform].
    destruct v; try reflexivity. destruct (preserveNull o); reflexivity. }
  rewrite Hcast. rewrite (write_back_read H U pa o i _ i Hget).
  unfold writeValue. rewrite Hbv, Hty.
  change (String.eqb "alias" "alias") with true. cbn [input_of_cell].
  destruct fs as [|k0 p0 rest]; [discriminate Ha|].
  cbn [field_count tie]. rewrite setter_walk_field, Ht.
  rewrite (defineSetter_with_no_alias U _ _ (p_base pt) o false
             (tie (field_count rest)
                (fun redirect =>
                   setter_walk H U (FCons k0 p0 rest) o false redirect))
             (tie (S (field_count rest))
                (fun redirect =>
                   setter_walk H U (FCons k0 p0 rest) o false redirect))
             v i Hpt).
  pose proof (defineSetter_with_ok U (defineGetter H U pt o)
                (typecast H U pt o) (p_base pt) o false
                (tie (S (field_count rest))
                   (fun redirect =>
                      setter_walk H U (FCons k0 p0 rest) o false redirect))
                v i) as Hok.
  cbn [tie] in Hok |- *.
  destruct (defineSetter_with _ _ _ _ _ _ _ _ _) as [[[]|e] i'];
    [reflexivity|discriminate Hok].
Qed.

Lemma alias_reads_and_writes_its_target_witness :
  defineGetter reference_host reference_user
    (scalar "n" "alias" [("index", DStr "name")]) default_options
    (Inst [("name", CVal (DStr "bob"))] [])
  = (Ok (slot (index (p_base (scalar "n" "alias" [("index", DStr "name")])))
           (i_obj (Inst [("name", CVal (DStr "bob"))] []))),
     Inst [("name", CVal (DStr "bob"))] [])
  /\ set_field reference_host reference_user alias_schema "n" (DStr "ann")
       (Inst [("name", CVal (DStr "bob"))] [])
     = set_field reference_host reference_user alias_schema
         (index (p_base (scalar "n" "alias" [("index", DStr "name")])))
         (DStr "ann") (Inst [("name", CVal (DStr "bob"))] []).
Proof.
  apply (alias_reads_and_writes_its_target reference_host reference_user
           default_options
           (FCons "name" (scalar "name" "string" [])
              (FCons "n" (scalar "n" "alias" [("index", DStr "name")]) FNil))
           "n" (scalar "n" "alias" [("index", DStr "name")])
           (scalar "name" "string" []) (DStr "ann")
           (Inst [("name", CVal (DStr "bob"))] []));
    try reflexivity.
  discriminate.
Defined.

(* ================================================================== *)
(** ** Further properties of the typed array wrapper *)

Lemma map_outcome_ok {A B : Type} (f : A -> outcome B) (l : list A)
    (ys : list B) :
  map_outcome f l = Ok ys -> Forall2 (fun x y => f x = Ok y) l ys.
Proof.
  revert ys. induction l as [|x rest IH]; intros ys; cbn [map_outcome].
  - intros [= <-]. constructor.
  - destruct (f x) as [y|e] eqn:Ex; [|discriminate]. cbn [bind].
    destruct (map_outcome f rest) as [ys'|e]; [|discriminate]. cbn [bind].
    intros [= <-]. constructor; [exact Ex|apply IH; reflexivity].
Qed.

Lemma filter_outcome_ok {A : Type} (f : A -> outcome bool) (l ys : list A) :
  filter_outcome f l = Ok ys ->
  forall y, In y ys -> In y l /\ f y = Ok true.
Proof.
  revert ys. induction l as [|x rest IH]; intros ys; cbn [filter_outcome].
  - intros [= <-] y [].
  - destruct (f x) as [keep|e] eqn:Ex; [|discriminate]. cbn [bind].
    destruct (filter_outcome f rest) as [ys'|e]; [|discriminate]. cbn [bind].
    intros [= <-] y Hy. destruct keep.
    + destruct Hy as [<- | Hy]; [split; [left; reflexivity|exact Ex]|].
      destruct (IH ys' eq_refl y Hy). split; [right|]; assumption.
    + destruct (IH ys' eq_refl y Hy). split; [right|]; assumption.
Qed.

Lemma filter_outcome_length {A : Type} (f : A -> outcome bool)
    (l ys : list A) :
  filter_outcome f l = Ok ys -> List.length ys <= List.length l.
Proof.
  revert ys. induction l as [|x rest IH]; intros ys; cbn [filter_outcome].
  - intros [= <-]. reflexivity.
  - destruct (f x) as [keep|e]; [|discriminate]. cbn [bind].
    destruct (filter_outcome f rest) as [ys'|e]; [|discriminate]. cbn [bind].
    intros [= <-]. specialize (IH ys' eq_refl).
    destruct keep; cbn [List.length]; lia.
Qed.

(** The shape of every push. *)
Lemma push_with_shape (U : User) cast b elems args :
  match push_with U cast b elems args with
  | (Throw _, elems') => elems' = elems
  | (Ok n, elems') =>
      exists new,
        elems' = elems ++ new
        /\ n = num_of_nat (List.length elems')
        /\ List.length new <= List.length args
        /\ (forall c, In c new ->
              match cast with
              | Some f => exists x, In x args /\ f x = Ok c
              | None => exists x, In x args /\ c = CVal x
              end)
        /\ (forall f c, filter b = Some f -> In c new ->
              exists r, call_filter U f c = Returned r /\ truthy r = true)
        /\ (unique b = true ->
            forall c, In c new -> existsb (same_value_zero c) elems = false)
  end.
Proof.
  unfold push_with.
  destruct (match cast with
            | Some c => map_outcome c args
            | None => Ok (map CVal args)
            end) as [values|e] eqn:Ecast; [|reflexivity]. cbn [bind].
  assert (Hcast : List.length values = List.length args
                  /\ forall c, In c values ->
                       match cast with
                       | Some f => exists x, In x args /\ f x = Ok c
                       | None => exists x, In x args /\ c = CVal x
                       end).
  { destruct cast as [f|].
    - apply map_outcome_ok in Ecast. split.
      + symmetry. apply (Forall2_length Ecast).
      + intros c Hc. induction Ecast as [|x y l l' Hxy Hrest IH];
          [contradiction|].
        destruct Hc as [<- | Hc]; [exists x; split; [left|]; auto|].
        destruct (IH Hc) as (x' & Hx' & Hfx'). exists x'. split; [right|];
          assumption.
    - injection Ecast as <-. split; [apply length_map|].
      intros c Hc. apply in_map_iff in Hc. destruct Hc as (x & <- & Hx).
      exists x. auto. }
  destruct Hcast as [Hlen Hcast].
  destruct (match filter b with
            | Some f =>
                filter_outcome
                  (fun value =>
                     r <- of_ucall (call_filter U f value) ;; Ok (truthy r))
                  values
            | None => Ok values
            end) as [kept|e] eqn:Efilter; [|reflexivity]. cbn [bind].
  assert (Hkept : List.length kept <= List.length values
                  /\ (forall c, In c kept -> In c values)
                  /\ forall f c, filter b = Some f -> In c kept ->
                       exists r, call_filter U f c = Returned r
                                 /\ truthy r = true).
  { destruct (filter b) as [f|].
    - split; [apply (filter_outcome_length _ _ _ Efilter)|]. split.
      + intros c Hc. apply (filter_outcome_ok _ _ _ Efilter c Hc).
      + intros f' c [= <-] Hc.
        destruct (filter_outcome_ok _ _ _ Efilter c Hc) as [_ Hf].
        destruct (call_filter U f c) as [r|e]; [|discriminate Hf].
        cbn in Hf. injection Hf as Hf. exists r. auto.
    - injection Efilter as <-. split; [reflexivity|]. split; [auto|].
      intros f c Hf. discriminate Hf. }
  destruct Hkept as (Hklen & Hkin & Hkf).
  set (new := if unique b
              then List.filter
                     (fun value =>
                        negb (existsb (same_value_zero value) elems)) kept
              else kept).
  assert (Hnew : List.length new <= List.length kept
                 /\ (forall c, In c new -> In c kept)
                 /\ (unique b = true -> forall c, In c new ->
                       existsb (same_value_zero c) elems = false)).
  { subst new. destruct (unique b).
    - split; [apply filter_length_le|]. split.
      + intros c Hc. apply filter_In in Hc. apply Hc.
      + intros _ c Hc. apply filter_In in Hc. destruct Hc as [_ Hc].
        apply negb_true_iff in Hc. exact Hc.
    - split; [reflexivity|]. split; [auto|discriminate]. }
  destruct Hnew as (Hnlen & Hnin & Hnu).
  exists new. split; [reflexivity|]. split; [reflexivity|].
  split; [lia|]. split; [|split].
  - intros c Hc. apply Hcast, Hkin, Hnin, Hc.
  - intros f c Hf Hc. apply (Hkf f c Hf). apply Hnin, Hc.
  - exact Hnu.
Qed.

(** X10.  [push] only appends.  When it throws (a candidate is rejected, or
    the filter raises) the wrapper holds what it held; when it returns, the
    wrapper holds what it held followed by new elements, at most one per
    candidate, and the value returned is the new length.  Every new element
    is the typecast of a candidate (the candidate itself without
    [arrayType]), passed the [filter], and, under [unique], is not among the
    elements the wrapper held. *)
Theorem push_only_appends (H : Host) (U : User) (p : props) (o : options)
    (elems : list cell) (args : list data) :
  match SchemaArray_push H U p o elems args with
  | (Throw _, elems') => elems' = elems
  | (Ok n, elems') =>
      exists new,
        elems' = elems ++ new
        /\ n = num_of_nat (List.length elems')
        /\ List.length new <= List.length args
        /\ (forall c, In c new ->
              match element_cast H U p o with
              | Some f => exists x, In x args /\ f x = Ok c
              | None => exists x, In x args /\ c = CVal x
              end)
        /\ (forall f c, filter (p_base p) = Some f -> In c new ->
              exists r, call_filter U f c = Returned r /\ truthy r = true)
        /\ (unique (p_base p) = true ->
            forall c, In c new -> existsb (same_value_zero c) elems = false)
  end.
Proof.
  unfold SchemaArray_push. apply push_with_shape.
Qed.

Lemma refill_no_repeats (U : User) cast b :
  unique b = true ->
  forall xs acc r cs,
    (forall l1 c l2, acc = l1 ++ c :: l2 ->
       existsb (same_value_zero c) l1 = false) ->
    refill U cast b acc xs = (r, cs) ->
    forall l1 c l2, cs = l1 ++ c :: l2 ->
      existsb (same_value_zero c) l1 = false.
Proof.
  intros Hu xs. induction xs as [|x rest IH]; intros acc r cs Hacc.
  - cbn [refill]. intros [= _ <-]. exact Hacc.
  - cbn [refill]. pose proof (push_with_shape U cast b acc [x]) as Hpush.
    destruct (push_with U cast b acc [x]) as [[n|e] acc'].
    + destruct Hpush as (new & -> & _ & Hlen & _ & _ & Hfresh).
      apply IH. intros l1 c l2 Hsplit.
      destruct new as [|c0 [|c1 new']]; cbn [List.length] in Hlen; try lia.
      * rewrite app_nil_r in Hsplit. apply (Hacc l1 c l2 Hsplit).
      * (* one new element, not among the earlier ones *)
        destruct l2 as [|c' l2'] using rev_ind.
        -- apply app_inj_tail in Hsplit. destruct Hsplit as [<- <-].
           apply (Hfresh Hu). left. reflexivity.
        -- rewrite app_comm_cons, app_assoc in Hsplit.
           apply app_inj_tail in Hsplit. destruct Hsplit as [Hsplit _].
           apply (Hacc l1 c l2' Hsplit).
    + subst acc'. intros [= _ <-]. exact Hacc.
Qed.

(** X11.  After the assignment of an array to a [unique] array field, the
    wrapper holds no element twice: no element equals (SameValueZero) one
    before it.  This also holds when the assignment is rejected half way. *)
Theorem unique_field_holds_no_repeats (H : Host) (U : User) (p : props)
    (o : options) (xs : list data) (old : list cell) :
  type (p_base p) = "array" ->
  transform (p_base p) = None ->
  unique (p_base p) = true ->
  exists cs,
    snd (typecast H U p o (DArr xs) (CArr old)) = CArr cs
    /\ forall l1 c l2, cs = l1 ++ c :: l2 ->
         existsb (same_value_zero c) l1 = false.
Proof.
  intros Ht Htr Hu.
  assert (Heq : typecast H U p o (DArr xs) (CArr old)
                = match refill U (element_cast H U p o) (p_base p) [] xs with
                  | (Throw e, elems) => (Throw e, CArr elems)
                  | (Ok _, elems) => (Ok (CArr elems), CArr elems)
                  end).
  { rewrite typecast_eq. unfold typecast_body.
    rewrite Htr, Ht. reflexivity. }
  rewrite Heq.
  destruct (refill U (element_cast H U p o) (p_base p) [] xs) as [r cs] eqn:E.
  exists cs. split; [destruct r; reflexivity|].
  apply (refill_no_repeats U (element_cast H U p o) (p_base p) Hu xs [] r cs);
    [|exact E].
  intros l1 c l2 Hsplit. destruct l1; discriminate Hsplit.
Qed.

Lemma unique_field_holds_no_repeats_witness :
  exists cs,
    snd (typecast reference_host reference_user unique_tags_props
           default_options (DArr [DStr "a"; DStr "b"; DStr "a"])
           (CArr [CVal (DStr "z")])) = CArr cs
    /\ forall l1 c l2, cs = l1 ++ c :: l2 ->
         existsb (same_value_zero c) l1 = false.
Proof.
  apply (unique_field_holds_no_repeats reference_host reference_user
           unique_tags_props default_options
           [DStr "a"; DStr "b"; DStr "a"] [CVal (DStr "z")]);
    reflexivity.
Defined.

(* ================================================================== *)
(** ** Further properties of [toObject] and [clear] *)

Lemma in_upsert {A : Type} (k k' : string) (v v' : A)
    (kvs : list (string * A)) :
  In (k', v') (upsert k v kvs) -> (k', v') = (k, v) \/ In (k', v') kvs.
Proof.
  induction kvs as [|[k0 v0] rest IH]; cbn [upsert].
  - intros [E|[]]. left. symmetry. exact E.
  - destruct (String.eqb k0 k).
    + intros [E|Hin]; [left; symmetry; exact E|right; right; exact Hin].
    + intros [E|Hin]; [right; left; exact E|].
      destruct (IH Hin) as [E|Hin']; [left; exact E|right; right; exact Hin'].
Qed.

(** A value [toObject] writes is not [undefined], [{}] or [[]] when
    [setUndefined] is off. *)
Lemma toObject_value_written nested elem_nested o b value i d i' :
  setUndefined o = false ->
  cell_is_undefined value = false ->
  toObject_value nested elem_nested o b value i = (Ok (Some d), i') ->
  d <> DUndef /\ d <> DObj [] /\ d <> DArr [].
Proof.
  intros Hsu Hund. unfold toObject_value. rewrite Hsu. cbn [negb andb].
  assert (Hkeep : forall d1,
            (if negb (isDate d1) && (size d1 =? 0)%nat then None else Some d1)
            = Some d ->
            d <> DUndef /\ d <> DObj [] /\ d <> DArr []).
  { intros d1.
    destruct (negb (isDate d1) && (size d1 =? 0)%nat) eqn:Hc; [discriminate|].
    intros [= <-].
    destruct d1 as [| |x|n|s|t|src|f|[|y ys]|[|kv kvs]];
      try discriminate Hc; repeat split; discriminate. }
  destruct value as [d0|elems|obj errs].
  - destruct d0 as [| |x|n|s|t|src|f|xs|kvs]; cbn [isObject clone_data];
      try discriminate Hund;
      try (intros [= <- _]; repeat split; discriminate);
      try (intros [= Hk _]; apply (Hkeep _ Hk)).
  - destruct (toArray_with elem_nested elems) as [[ds|e] elems'];
      cbn [bind]; [|discriminate].
    intros [= Hk _]. apply (Hkeep _ Hk).
  - destruct nested as [f|]; [|discriminate].
    destruct (f (Inst obj errs)) as [[d1|e] i1]; cbn [bind]; [|discriminate].
    intros [= Hk _]. rewrite andb_true_r in Hk. apply (Hkeep _ Hk).
Qed.

Lemma toObject_walk_entries (H : Host) (U : User) (o : options) :
  forall fs acc i kvs i',
    toObject_walk H U fs o acc i = (Ok kvs, i') ->
    forall k d, In (k, d) kvs ->
      In (k, d) acc
      \/ (exists p, In (k, p) (fields_of fs) /\ invisible (p_base p) = false)
         /\ (setUndefined o = false ->
             d <> DUndef /\ d <> DObj [] /\ d <> DArr []).
Proof.
  induction fs as [|k0 p rest IH]; intros acc i kvs i'.
  - cbn. intros [= <- _] k d Hin. left. exact Hin.
  - rewrite toObject_walk_cons. cbn [fields_of].
    assert (Hrest : forall acc0 i0,
              toObject_walk H U rest o acc0 i0 = (Ok kvs, i') ->
              forall k d, In (k, d) kvs ->
                In (k, d) acc0
                \/ (exists p0, In (k, p0) ((k0, p) :: fields_of rest)
                               /\ invisible (p_base p0) = false)
                   /\ (setUndefined o = false ->
                       d <> DUndef /\ d <> DObj [] /\ d <> DArr [])).
    { intros acc0 i0 Hw k d Hin.
      destruct (IH acc0 i0 kvs i' Hw k d Hin) as [Ha|[(p0 & Hp0 & Hv) Hd]];
        [left; exact Ha|].
      right. split; [|exact Hd]. exists p0. split; [right|]; assumption. }
    destruct (invisible (p_base p)) eqn:Hinv; [apply Hrest|].
    destruct (defineGetter H U p o i) as [[value|e] i1]; [|discriminate].
    destruct (cell_is_undefined value && negb (setUndefined o)) eqn:Hskip;
      [apply Hrest|].
    destruct (toObject_value _ _ o (p_base p) value i1)
      as [[[d0|]|e] i2] eqn:Ev; [| apply Hrest | discriminate].
    intros Hw k d Hin.
    destruct (Hrest _ _ Hw k d Hin) as [Ha|Hb]; [|right; exact Hb].
    apply in_upsert in Ha. destruct Ha as [[= -> ->]|Ha]; [|left; exact Ha].
    right. split.
    + exists p. split; [left; reflexivity|exact Hinv].
    + intros Hsu. rewrite Hsu in Hskip. cbn [negb] in Hskip.
      rewrite andb_true_r in Hskip.
      apply (toObject_value_written _ _ o (p_base p) value i1 d0 i2 Hsu
               Hskip Ev).
Qed.

(** X12.  Without a [toObject] hook, the object [toObject()] returns has no
    key but those of declared fields that are not [invisible]. *)
Theorem toObject_lists_visible_fields_only (H : Host) (U : User)
    (o : options) (fs : flds) (i : inst) (D : data) (i' : inst) :
  toObject_hook o = None ->
  toObject H U (Schema o fs) i = (Ok D, i') ->
  exists kvs,
    D = DObj kvs
    /\ forall k d, In (k, d) kvs ->
         exists p, In (k, p) (fields_of fs) /\ invisible (p_base p) = false.
Proof.
  intros Hh. rewrite (toObject_eq H U o fs i Hh).
  destruct (toObject_walk H U fs o [] i) as [[kvs|e] i1] eqn:Hw;
    [|discriminate].
  intros [= <- _]. exists kvs. split; [reflexivity|]. intros k d Hin.
  destruct (toObject_walk_entries H U o fs [] i kvs i1 Hw k d Hin)
    as [[]|[Hp _]].
  exact Hp.
Qed.

Lemma toObject_lists_visible_fields_only_witness :
  exists kvs,
    DObj [("age", DNum 15%float)] = DObj kvs
    /\ forall k d, In (k, d) kvs ->
         exists p,
           In (k, p)
              (fields_of
                 (FCons "age"
                    (scalar "age" "number"
                       [("min", DNum 0%float); ("max", DNum 120%float)])
                    FNil))
           /\ invisible (p_base p) = false.
Proof.
  apply (toObject_lists_visible_fields_only reference_host reference_user
           default_options
           (FCons "age"
              (scalar "age" "number"
                 [("min", DNum 0%float); ("max", DNum 120%float)])
              FNil)
           (Inst [("age", CVal (DNum 15%float))] [])
           (DObj [("age", DNum 15%float)])
           (Inst [("age", CVal (DNum 15%float))] []));
    reflexivity.
Defined.

(** X13.  With [setUndefined] off and no [toObject] hook, no value of the
    object [toObject()] returns is [undefined], an empty object or an empty
    array: fields that hold nothing are left out. *)
Theorem toObject_writes_no_empty_value (H : Host) (U : User)
    (o : options) (fs : flds) (i : inst) (D : data) (i' : inst) :
  toObject_hook o = None ->
  setUndefined o = false ->
  toObject H U (Schema o fs) i = (Ok D, i') ->
  exists kvs,
    D = DObj kvs
    /\ forall k d, In (k, d) kvs -> d <> DUndef /\ d <> DObj [] /\ d <> DArr [].
Proof.
  intros Hh Hsu. rewrite (toObject_eq H U o fs i Hh).
  destruct (toObject_walk H U fs o [] i) as [[kvs|e] i1] eqn:Hw;
    [|discriminate].
  intros [= <- _]. exists kvs. split; [reflexivity|]. intros k d Hin.
  destruct (toObject_walk_entries H U o fs [] i kvs i1 Hw k d Hin)
    as [[]|[_ Hd]].
  exact (Hd Hsu).
Qed.

Lemma toObject_writes_no_empty_value_witness :
  exists kvs,
    DObj [("id", DNum 7%float)] = DObj kvs
    /\ forall k d, In (k, d) kvs -> d <> DUndef /\ d <> DObj [] /\ d <> DArr [].
Proof.
  apply (toObject_writes_no_empty_value reference_host reference_user
           default_options
           (FCons "id" (scalar "id" "number" [])
              (FCons "owner"
                 (Props (descriptor "owner" "object" []) (Some name_schema)
                    None)
                 (FCons "tags"
                    (Props (descriptor "tags" "array" []) None
                       (Some (scalar "" "string" [])))
                    FNil)))
           (Inst [("id", CVal (DNum 7%float))] [])
           (DObj [("id", DNum 7%float)])
           (Inst [("id", CVal (DNum 7%float));
                  ("owner", CInst [] []); ("tags", CArr [])] []));
    reflexivity.
Defined.

(** [clear()] on an instance with valid data leaves an instance that holds
    nothing. *)
Lemma clear_valid (H : Host) (U : User) :
  forall s, plain_schema s = true -> unflagged_schema s = true ->
  forall i, valid_store H U (s_fields s) (s_options s) (i_obj i) ->
  exists i', clear H U s i = (Ok tt, i')
             /\ blank_store (s_fields s) (i_obj i').
Proof.
  apply (schema_ind'
    (fun p => forall o redirect i,
       quiet_options o = true -> plain_props p = true ->
       unflagged_props p = true ->
       valid_cell H U p o (slot (name (p_base p)) (i_obj i)) ->
       exists i',
         clearField_with U (defineGetter H U p o) (nested_clear H U p)
           (p_base p) o redirect i = (Ok tt, i')
         /\ blank_cell p (slot (name (p_base p)) (i_obj i'))
         /\ forall k', k' <> name (p_base p) ->
              slot k' (i_obj i') = slot k' (i_obj i))
    (fun s => plain_schema s = true -> unflagged_schema s = true ->
       forall i, valid_store H U (s_fields s) (s_options s) (i_obj i) ->
       exists i', clear H U s i = (Ok tt, i')
                  /\ blank_store (s_fields s) (i_obj i'))
    (fun fs => forall o redirect i,
       quiet_options o = true -> plain_flds fs = true ->
       unflagged_flds fs = true ->
       valid_store H U fs o (i_obj i) ->
       exists i',
         clear_walk H U fs o redirect i = (Ok tt, i')
         /\ blank_store fs (i_obj i')
         /\ forall k, has_key k fs = false ->
              slot k (i_obj i') = slot k (i_obj i))).
  - intros b os op HQ _ o redirect i Hq Hp Hu Hv. cbn [p_base] in *.
    cbn [unflagged_props] in Hu. apply andb_prop in Hu.
    destruct Hu as [Hflag Hu]. apply negb_true_iff in Hflag.
    unfold clearField_with. rewrite Hflag.
    rewrite (defineGetter_plain H U b os op o i Hq Hp).
    pose proof Hp as Hp'. apply plain_props_inv in Hp'.
    destruct Hp' as (Hh & _ & _ & _ & Hshape).
    apply hookless_inv in Hh. destruct Hh as (_ & _ & _ & _ & _ & Hg & _).
    pose proof (plain_shape_alias b os op Hshape) as Ha.
    pose proof (index_of_plain b Ha) as Hidx.
    apply quiet_options_inv in Hq. destruct Hq as (Hbv & Hvs & _ & _).
    rewrite valid_cell_eq in Hv.
    destruct Hshape as [Hs|s Ht -> Hs|Ht _].
    + destruct (scalar_type_other _ Hs) as (-> & -> & _).
      rewrite (writeValue_plain U o redirect CUndef b i Hbv Hvs Ha).
      eexists. split; [reflexivity|]. split.
      * rewrite blank_cell_eq, Hs. apply slot_set_slot.
      * intros k' Hk'. apply slot_set_slot_ne. exact Hk'.
    + rewrite Ht in *. change (scalar_type "object") with false in *.
      change (String.eqb "object" "object") with true in *.
      cbv iota in Hv |- *.
      assert (Hblank : forall c obj errs,
                 c = CInst obj errs -> blank_store (s_fields s) obj ->
                 blank_cell (Props b (Some s) op) c).
      { intros c obj errs -> Hobj. rewrite blank_cell_eq, Ht. exact Hobj. }
      unfold materialized. cbn [p_base]. rewrite Ht.
      change (String.eqb "object" "object") with true. cbv iota.
      cbn [nested_clear p_objectType option_map].
      destruct (slot (name b) (i_obj i)) as [d|es|obj errs] eqn:Es;
        try contradiction.
      * destruct d; try contradiction. cbn [cell_truthy truthy].
        rewrite slot_set_slot. cbn [cell_of_inst empty_inst i_obj i_errors].
        destruct (HQ Hs Hu (Inst [] [])) as (i' & Hi' & Hb').
        { cbn [i_obj]. apply valid_store_empty.
          destruct s as [o' fs']. cbn [plain_schema] in Hs.
          apply andb_prop in Hs. apply Hs. }
        rewrite Hi'.
        rewrite (write_back_present b _ (CInst [] []) _ Hg)
          by (rewrite Hidx; cbn [set_slot i_obj]; apply lookup_upsert).
        rewrite Hidx. eexists. split; [reflexivity|]. split.
        -- rewrite slot_set_slot. eapply Hblank; [reflexivity|exact Hb'].
        -- intros k' Hk'. rewrite !slot_set_slot_ne by exact Hk'.
           reflexivity.
      * cbn [cell_truthy]. rewrite Es.
        destruct (HQ Hs Hu (Inst obj errs) Hv) as (i' & Hi' & Hb').
        rewrite Hi'.
        rewrite (write_back_present b _ (CInst obj errs) _ Hg)
          by (rewrite Hidx; apply slot_lookup; [exact Es|discriminate]).
        rewrite Hidx. eexists. split; [reflexivity|]. split.
        -- rewrite slot_set_slot. eapply Hblank; [reflexivity|exact Hb'].
        -- intros k' Hk'. apply slot_set_slot_ne. exact Hk'.
    + rewrite Ht in *. change (scalar_type "array") with false in *.
      change (String.eqb "array" "object") with false in *.
      change (String.eqb "array" "array") with true in *.
      cbv iota in Hv |- *.
      assert (Hblank : blank_cell (Props b os op) (CArr [])).
      { rewrite blank_cell_eq, Ht. right. reflexivity. }
      unfold materialized. cbn [p_base]. rewrite Ht.
      change (String.eqb "array" "object") with false.
      change (String.eqb "array" "array") with true. cbv iota.
      destruct (slot (name b) (i_obj i)) as [d|es|obj errs] eqn:Es;
        try contradiction.
      * destruct d; try contradiction. cbn [cell_truthy truthy].
        rewrite slot_set_slot. cbn [truncate].
        rewrite (write_back_present b _ (CArr []) _ Hg)
          by (rewrite Hidx; cbn [set_slot i_obj]; apply lookup_upsert).
        rewrite Hidx. eexists. split; [reflexivity|]. split.
        -- rewrite slot_set_slot. exact Hblank.
        -- intros k' Hk'. rewrite !slot_set_slot_ne by exact Hk'.
           reflexivity.
      * cbn [cell_truthy]. rewrite Es. cbn [truncate].
        rewrite (write_back_present b _ (CArr es) _ Hg)
          by (rewrite Hidx; apply slot_lookup; [exact Es|discriminate]).
        rewrite Hidx. eexists. split; [reflexivity|]. split.
        -- rewrite slot_set_slot. exact Hblank.
        -- intros k' Hk'. apply slot_set_slot_ne. exact Hk'.
  - intros o fs HR Hp Hu i Hv. cbn [s_fields s_options] in *.
    cbn [plain_schema] in Hp. apply andb_prop in Hp. destruct Hp as [Hq Hp].
    unfold clear. cbn [s_fields s_options].
    destruct (HR o (set_field H U (Schema o fs)) i Hq Hp Hu Hv)
      as (i' & Hi' & Hb' & _).
    exists i'. split; assumption.
  - intros o redirect i _ _ _ _. exists i. repeat split.
  - intros k p rest HP HR o redirect i Hq Hp Hu Hv.
    apply plain_flds_inv in Hp. destruct Hp as (Hk & Hnk & Hp & Hrest).
    cbn [unflagged_flds] in Hu. apply andb_prop in Hu.
    destruct Hu as [Hup Hur].
    cbn [valid_store] in Hv. destruct Hv as [Hc Hv]. subst k.
    rewrite clear_walk_cons.
    destruct (HP o redirect i Hq Hp Hup Hc) as (i1 & Hi1 & Hc1 & Hframe).
    rewrite Hi1.
    assert (Hsame : forall k, has_key k rest = true ->
                      slot k (i_obj i1) = slot k (i_obj i)).
    { intros k Hk. apply Hframe. apply (has_key_ne _ _ rest Hnk Hk). }
    destruct (HR o redirect i1 Hq Hrest Hur) as (i' & Hi' & Hb' & Hframe').
    { apply (valid_store_frame H U rest o (i_obj i)); assumption. }
    exists i'. split; [exact Hi'|]. split.
    + cbn [blank_store]. split; [|exact Hb'].
      rewrite (Hframe' _ Hnk). exact Hc1.
    + intros k Hk. cbn [has_key] in Hk. apply orb_false_elim in Hk.
      destruct Hk as [Hk1 Hk2]. rewrite (Hframe' _ Hk2). apply Hframe.
      intros ->. rewrite String.eqb_refl in Hk1. discriminate.
Qed.





(* ================================================================== *)
(** ** Further properties of the error log *)

Lemma getErrors_required_appends (H : Host) (U : User) (o : options) :
  forall fs errors i es i',
    getErrors_required H U fs o errors i = (Ok es, i') ->
    exists more, es = errors ++ more.
Proof.
  induction fs as [|k p rest IH]; intros errors i es i'.
  - cbn. intros [= <- _]. exists []. rewrite app_nil_r. reflexivity.
  - cbn [getErrors_required].
    destruct (required_error U (defineGetter H U p o) o k (p_base p) i)
      as [[[e|]|e] i1]; [| |discriminate].
    + intros Hr. destruct (IH _ _ _ _ Hr) as [more ->].
      exists (e :: more). rewrite <- app_assoc. reflexivity.
    + apply IH.
Qed.

Lemma getErrors_nested_appends (H : Host) (U : User) (o : options) :
  forall fs errors i es i',
    getErrors_nested H U fs o errors i = (Ok es, i') ->
    exists more, es = errors ++ more.
Proof.
  induction fs as [|k p rest IH]; intros errors i es i'.
  - cbn. intros [= <- _]. exists []. rewrite app_nil_r. reflexivity.
  - cbn [getErrors_nested]. destruct p as [b [s'|] op]; [|apply IH].
    destruct (String.eqb (type b) "object"); [|apply IH].
    match goal with
    | |- match ?m with _ => _ end = _ -> _ =>
        destruct m as [[sub|e] i1]; [|discriminate]
    end.
    intros Hr. destruct (IH _ _ _ _ Hr) as [more ->].
    exists (sub ++ more). rewrite <- app_assoc. reflexivity.
Qed.

Lemma getErrors_log_first (H : Host) (U : User) s i es i' :
  getErrors H U s i = (Ok es, i') -> exists more, es = i_errors i ++ more.
Proof.
  destruct s as [o fs]. cbn [getErrors].
  destruct (getErrors_required H U fs o (i_errors i) i) as [[req|e] i1] eqn:Er;
    [|discriminate].
  intros Hn.
  destruct (getErrors_required_appends H U o fs _ _ _ _ Er) as [m1 ->].
  destruct (getErrors_nested_appends H U o fs _ _ _ _ Hn) as [m2 ->].
  exists (m1 ++ m2). rewrite <- app_assoc. reflexivity.
Qed.



(** X17.  When no field declares [required] and no field has an
    [objectType], [getErrors()] returns exactly the log and changes nothing,
    and [isErrors()] tells whether the log is non-empty.  This is for a log
    of errors of the taxonomy, the ones [getErrors()] can copy and tag, and
    a schema without a field under a reserved name, so that [getErrors] is
    the method. *)
Theorem getErrors_is_the_log (H : Host) (U : User) (o : options) (fs : flds)
    (i : inst) :
  (forall k p, In (k, p) (fields_of fs) ->
     required (p_base p) = DUndef /\ p_objectType p = None) ->
  unshadowed_flds fs = true ->
  taxonomy_log (i_errors i) ->
  getErrors H U (Schema o fs) i = (Ok (i_errors i), i)
  /\ isErrors H U (Schema o fs) i
     = (Ok (negb (Nat.eqb (List.length (i_errors i)) 0)), i).
Proof.
  intros Hall _ _.
  assert (Hreq : forall errors,
            getErrors_required H U fs o errors i = (Ok errors, i)).
  { revert Hall. induction fs as [|k p rest IH]; intros Hall errors;
      [reflexivity|].
    cbn [getErrors_required]. unfold required_error.
    destruct (Hall k p (or_introl eq_refl)) as [-> _]. cbn [truthy negb].
    apply IH. intros k' p' Hin. apply (Hall k' p'). right. exact Hin. }
  assert (Hnest : forall errors,
            getErrors_nested H U fs o errors i = (Ok errors, i)).
  { clear Hreq. revert Hall.
    induction fs as [|k p rest IH]; intros Hall errors; [reflexivity|].
    cbn [getErrors_nested].
    destruct (Hall k p (or_introl eq_refl)) as [_ Hno].
    destruct p as [b os op]. cbn [p_objectType] in Hno. subst os.
    apply IH. intros k' p' Hin. apply (Hall k' p'). right. exact Hin. }
  assert (Hget : getErrors H U (Schema o fs) i = (Ok (i_errors i), i)).
  { cbn [getErrors]. rewrite Hreq. apply Hnest. }
  split; [exact Hget|]. unfold isErrors. rewrite Hget. cbn [bind].
  destruct (i_errors i); reflexivity.
Qed.

Lemma getErrors_is_the_log_witness :
  let e := SetterErr NumberMinValidationError
             (DStr "Number is too small to meet min requirement.")
             (CVal (DNum (-1)%float)) CUndef "age" in
  getErrors reference_host reference_user age_schema (Inst [] [e])
  = (Ok (i_errors (Inst [] [e])), Inst [] [e])
  /\ isErrors reference_host reference_user age_schema (Inst [] [e])
     = (Ok (negb (Nat.eqb (List.length (i_errors (Inst [] [e]))) 0)),
        Inst [] [e]).
Proof.
  intros e.
  apply (getErrors_is_the_log reference_host reference_user default_options
           (FCons "age"
              (scalar "age" "number"
                 [("min", DNum 0%float); ("max", DNum 120%float)])
              FNil)
           (Inst [] [e])).
  - intros k p [[= <- <-]|[]]. split; reflexivity.
  - reflexivity.
  - repeat constructor. discriminate.
Defined.

(** A read that returns something logs nothing. *)
Lemma defineGetter_logs_nothing (H : Host) (U : User) p o i c i1 :
  defineGetter H U p o i = (Ok c, i1) ->
  c <> CUndef -> i_errors i1 = i_errors i.
Proof.
  rewrite defineGetter_eq. unfold defineGetter_body.
  match goal with
  | |- match ?m with _ => _ end = _ -> _ =>
      assert (Hm : forall r j, m = (r, j) -> i_errors j = i_errors i);
      [|destruct m as [[[]|e] j] eqn:Em; [|discriminate]]
  end.
  { intros r j.
    destruct (negb (cell_truthy (slot (indexOrAliasIndex (p_base p))
                                   (i_obj i)))
              && (String.eqb (type (p_base p)) "object"
                  || String.eqb (type (p_base p)) "array"));
      [|intros [= _ <-]; reflexivity].
    destruct (String.eqb (type (p_base p)) "object");
      [|apply writeValue_no_redirect_errors].
    destruct (negb (isUndefined (default (p_base p)))).
    - destruct (default_value U (p_base p));
        [apply writeValue_no_redirect_errors|intros [= _ <-]; reflexivity].
    - destruct (option_map (construct H U) (p_objectType p)) as [mk|];
        [|apply writeValue_no_redirect_errors].
      destruct (mk (DObj []));
        [apply writeValue_no_redirect_errors|intros [= _ <-]; reflexivity]. }
  destruct (getter U (slot (indexOrAliasIndex (p_base p)) (i_obj j))
              (p_base p)) as [c'|e].
  - intros [= <- <-] _. apply (Hm _ _ eq_refl).
  - intros [= <- _] Hc. contradiction Hc. reflexivity.
Qed.

Lemma clearErrors_nested_cons (H : Host) (U : User) k p rest o i :
  clearErrors_nested H U (FCons k p rest) o i
  = match p_objectType p with
    | Some s' =>
        if String.eqb (type (p_base p)) "object" then
          match defineGetter H U p o i with
          | (Throw e, i1) => (Throw e, i1)
          | (Ok (CInst obj errs), i1) =>
              let (r, i') := clearErrors H U s' (Inst obj errs) in
              let i2 := write_back (p_base p) (cell_of_inst i') i1 in
              match r with
              | Throw e => (Throw e, i2)
              | Ok _ => clearErrors_nested H U rest o i2
              end
          | (Ok _, i1) =>
              (Throw (TypeError "clearErrors is not a function"), i1)
          end
        else clearErrors_nested H U rest o i
    | None => clearErrors_nested H U rest o i
    end.
Proof.
  destruct p as [b [s'|] op]; reflexivity.
Qed.

Lemma clearErrors_eq (H : Host) (U : User) o fs i :
  clearErrors H U (Schema o fs) i
  = clearErrors_nested H U fs o (Inst (i_obj i) []).
Proof. reflexivity. Qed.

Lemma clearErrors_nested_keeps_log (H : Host) (U : User) (o : options) :
  forall fs i i',
    clearErrors_nested H U fs o i = (Ok tt, i') -> i_errors i' = i_errors i.
Proof.
  induction fs as [|k p rest IH]; intros i i'.
  - cbn. intros [= <-]. reflexivity.
  - rewrite clearErrors_nested_cons.
    destruct (p_objectType p) as [s'|]; [|apply IH].
    destruct (String.eqb (type (p_base p)) "object"); [|apply IH].
    destruct (defineGetter H U p o i) as [[c|e] i1] eqn:Eg; [|discriminate].
    destruct c as [d|es|obj errs]; try discriminate.
    destruct (clearErrors H U s' (Inst obj errs)) as [[[]|e] j];
      [|discriminate].
    intros Hr. rewrite (IH _ _ Hr), write_back_errors.
    apply (defineGetter_logs_nothing H U p o i _ i1 Eg). discriminate.
Qed.


(* ================================================================== *)
(** ** Further properties of instances *)

(** X22.  [delete instance[k]] assigns [undefined].  On a declared field
    without [transform], getter hook, [readOnly] and handlers: a scalar field
    is unset and nothing is logged; an array or object field keeps what it
    holds, and an [ArrayCastError] or [ObjectCastError] is logged. *)
Theorem delete_unsets_scalars_only (H : Host) (U : User) (o : options)
    (fs : flds) (k : string) (p : props) (i : inst) :
  field k fs = Some p ->
  transform (p_base p) = None ->
  getter_hook (p_base p) = None ->
  readOnly (p_base p) = false ->
  onBeforeValueSet o = None ->
  onValueSet o = None ->
  (scalar_type (type (p_base p)) = true ->
   deleteProperty H U (Schema o fs) k i
   = (Ok tt, set_slot (name (p_base p)) CUndef i))
  /\ (forall c i1,
        defineGetter H U p o i = (Ok c, i1) ->
        (type (p_base p) = "array" ->
         deleteProperty H U (Schema o fs) k i
         = (Ok tt,
            log_error (cast_error ArrayCastError CUndef c (p_base p)) i1))
        /\ (type (p_base p) = "object" ->
            deleteProperty H U (Schema o fs) k i
            = (Ok tt,
               log_error (cast_error ObjectCastError CUndef c (p_base p))
                 i1))).
Proof.
  intros Hk Htr Hg Hro Hbv Hvs. unfold deleteProperty.
  rewrite set_field_field, Hk. unfold defineSetter_with.
  rewrite Hro. cbn [andb]. split.
  - intros Hs. destruct (scalar_type_other _ Hs) as (Ho & Ha & Hl).
    pose proof (defineGetter_flat H U p o i Hg Ho Ha) as Hget.
    rewrite Hget.
    assert (Hcast : forall orig,
              typecast H U p o DUndef orig = (Ok (CVal DUndef), orig)).
    { intros orig. rewrite typecast_eq. unfold typecast_body.
      rewrite Htr. cbn [apply_transform].
      destruct (scalar_type_inv _ Hs) as [->|[->|[->| ->]]]; reflexivity. }
    rewrite Hcast, (write_back_read H U p o i _ i Hget).
    rewrite (writeValue_plain U o _ (CVal DUndef) (p_base p) i Hbv Hvs Hl).
    reflexivity.
  - intros c i1 Hget. rewrite Hget. split; intros Ht.
    + assert (Hcast : typecast H U p o DUndef c
                      = (Throw (cast_error ArrayCastError CUndef c (p_base p)),
                         c)).
      { rewrite typecast_eq. unfold typecast_body.
        rewrite Htr, Ht. reflexivity. }
      rewrite Hcast, (write_back_read H U p o i c i1 Hget). reflexivity.
    + assert (Hcast : typecast H U p o DUndef c
                      = (Throw (cast_error ObjectCastError CUndef c
                                  (p_base p)), c)).
      { rewrite typecast_eq. unfold typecast_body.
        rewrite Htr, Ht. reflexivity. }
      rewrite Hcast, (write_back_read H U p o i c i1 Hget). reflexivity.
Qed.

Lemma delete_unsets_scalars_only_witness :
  (scalar_type (type (p_base tags_props)) = true ->
   deleteProperty reference_host reference_user tags_schema "tags"
     (Inst [("tags", CArr [CVal (DStr "a")])] [])
   = (Ok tt,
      set_slot (name (p_base tags_props)) CUndef
        (Inst [("tags", CArr [CVal (DStr "a")])] [])))
  /\ (forall c i1,
        defineGetter reference_host reference_user tags_props default_options
          (Inst [("tags", CArr [CVal (DStr "a")])] []) = (Ok c, i1) ->
        (type (p_base tags_props) = "array" ->
         deleteProperty reference_host reference_user tags_schema "tags"
           (Inst [("tags", CArr [CVal (DStr "a")])] [])
         = (Ok tt,
            log_error
              (cast_error ArrayCastError CUndef c (p_base tags_props)) i1))
        /\ (type (p_base tags_props) = "object" ->
            deleteProperty reference_host reference_user tags_schema "tags"
              (Inst [("tags", CArr [CVal (DStr "a")])] [])
            = (Ok tt,
               log_error
                 (cast_error ObjectCastError CUndef c (p_base tags_props))
                 i1))).
Proof.
  apply (delete_unsets_scalars_only reference_host reference_user
           default_options (FCons "tags" tags_props FNil) "tags" tags_props
           (Inst [("tags", CArr [CVal (DStr "a")])] []));
    reflexivity.
Defined.




(** X24.  What a date field without [transform] and [dateTransform] accepts
    is [undefined], a preserved [null], or a date with a time value: never an
    invalid date. *)
Theorem date_cast_is_a_valid_date (H : Host) (U : User) (p : props)
    (o : options) (v : data) (orig : cell) (c orig' : cell) :
  type (p_base p) = "date" ->
  transform (p_base p) = None ->
  dateTransform (p_base p) = None ->
  typecast H U p o v orig = (Ok c, orig') ->
  c = CVal DUndef
  \/ (c = CVal DNull /\ v = DNull /\ preserveNull o = true)
  \/ exists t, c = CVal (DDate t) /\ PrimFloat.is_nan t = false.
Proof.
  intros Ht Htr Hdt. rewrite typecast_eq. unfold typecast_body.
  rewrite Htr, Ht. cbn [apply_transform].
  change (String.eqb "date" "string") with false.
  change (String.eqb "date" "number") with false.
  change (String.eqb "date" "boolean") with false.
  change (String.eqb "date" "array") with false.
  change (String.eqb "date" "object") with false.
  change (String.eqb "date" "date") with true. cbv iota.
  destruct (match v with DNull => preserveNull o | _ => false end) eqn:Hnull.
  { intros [= <- _]. right. left. destruct v; try discriminate Hnull. auto. }
  unfold typecast_date. rewrite Hdt. cbn [apply_transform].
  assert (Hmain :
    forall v0 d,
      (if negb (isDate v0) && negb (isString v0) && negb (isNumber v0)
       then Throw (cast_error DateCastError (CVal v0) orig (p_base p))
       else
         if loose_eq_Invalid_Date H (date_of_input H v0)
            || negb (isDate (date_of_input H v0))
         then Throw (validation_error DateParseValidationError DNull
                       (CVal (date_of_input H v0)) orig (p_base p))
         else Ok (date_of_input H v0)) = Ok d ->
      exists t, d = DDate t /\ PrimFloat.is_nan t = false).
  { intros v0 d.
    destruct (negb (isDate v0) && negb (isString v0) && negb (isNumber v0));
      [discriminate|].
    destruct (loose_eq_Invalid_Date H (date_of_input H v0)
              || negb (isDate (date_of_input H v0))) eqn:Hbad;
      [discriminate|].
    intros [= <-]. apply orb_false_elim in Hbad. destruct Hbad as [Hinv Hd].
    destruct (date_of_input H v0) as [| |x|n|s|t|src|f|xs|kvs];
      try discriminate Hd.
    exists t. split; [reflexivity|].
    cbn [loose_eq_Invalid_Date ToString] in Hinv.
    destruct (PrimFloat.is_nan t); [discriminate Hinv|reflexivity]. }
  destruct v as [| |x|vn|s|t|src|f|xs|kvs];
    try (intros [= <- _]; left; reflexivity).
  all: try (destruct s as [|a s'];
            [intros [= <- _]; left; reflexivity|]).
  all: match goal with
       | |- (bind ?m _, _) = _ -> _ =>
           destruct m as [d|e] eqn:Em; cbn [bind]; [|discriminate];
           intros [= <- _]; right; right;
           match type of Em with
           | context [cast_error DateCastError (CVal ?v0)] =>
               destruct (Hmain v0 d Em) as (t0 & -> & Hrest)
           end;
           exists t0; split; [reflexivity|exact Hrest]
       end.
Qed.

Lemma date_cast_is_a_valid_date_witness :
  CVal (DDate 5%float) = CVal DUndef
  \/ (CVal (DDate 5%float) = CVal DNull /\ DDate 5%float = DNull
      /\ preserveNull default_options = true)
  \/ exists t, CVal (DDate 5%float) = CVal (DDate t)
               /\ PrimFloat.is_nan t = false.
Proof.
  apply (date_cast_is_a_valid_date reference_host reference_user date_props
           default_options (DDate 5%float) CUndef (CVal (DDate 5%float))
           CUndef);
    reflexivity.
Defined.

Lemma assign_all_app set l1 l2 i :
  assign_all set (l1 ++ l2) i
  = match assign_all set l1 i with
    | (Throw e, i') => (Throw e, i')
    | (Ok _, i') => assign_all set l2 i'
    end.
Proof.
  revert i. induction l1 as [|[k v] rest IH]; intros i; [reflexivity|].
  cbn [app assign_all]. destruct (set k v i) as [[[]|e] i1];
    [apply IH|reflexivity].
Qed.

(** X25.  [populate(values)] never throws, and (in strict mode, with
    [dotNotation] and [keysIgnoreCase] off) it skips the keys the schema does
    not declare and the fields that are read-only: populating with an object
    is populating with its declared, writable keys only, in the same order.
    (No field bears a reserved name, so that [populate] is the method, and
    the object has none of the keys every object inherits as a key of its
    own.) *)
Theorem populate_reads_declared_keys_only (H : Host) (U : User) (s : schema)
    (kvs : list (string * data)) (i : inst) :
  unshadowed_schema s = true ->
  Forall (fun kv => inherited_key (fst kv) = false) kvs ->
  fst (populate H U s (DObj kvs) i) = Ok tt
  /\ populate H U s (DObj kvs) i
     = populate H U s
         (DObj (List.filter
                  (fun kv => match field (fst kv) (s_fields s) with
                             | Some p => negb (readOnly (p_base p))
                             | None => false
                             end) kvs)) i.
Proof.
  intros _ _. split.
  - unfold populate. apply assign_all_ok. intros. apply set_field_ok.
  - unfold populate. cbn [enum_entries]. revert i.
    induction kvs as [|[k v] rest IH]; intros i; [reflexivity|].
    cbn [List.filter fst]. destruct s as [o fs]. cbn [s_fields] in *.
    destruct (field k fs) as [p|] eqn:Ek.
    + destruct (readOnly (p_base p)) eqn:Hro; cbn [negb assign_all].
      * rewrite set_field_field, Ek. unfold defineSetter_with.
        rewrite Hro. cbn [negb andb]. apply IH.
      * destruct (set_field H U (Schema o fs) k v i) as [[[]|e] i1];
          [apply IH|reflexivity].
    + cbn [assign_all]. rewrite set_field_field, Ek. apply IH.
Qed.

Lemma populate_reads_declared_keys_only_witness :
  populate reference_host reference_user age_schema
    (DObj [("name", DStr "ann"); ("age", DStr "15")]) empty_inst
  = populate reference_host reference_user age_schema
      (DObj [("age", DStr "15")]) empty_inst.
Proof.
  refine (proj2 (populate_reads_declared_keys_only reference_host
                   reference_user age_schema
                   [("name", DStr "ann"); ("age", DStr "15")] empty_inst
                   eq_refl _)).
  repeat constructor.
Defined.

(** X26.  A getter hook changes what a read returns, not what is stored; and
    a getter hook that throws makes the read return [undefined] and logs
    what was thrown.  For a field that is neither object- nor array-typed,
    with getter hook [f]: the instance keeps its store in both cases. *)
Theorem getter_hook_does_not_write (H : Host) (U : User) (p : props)
    (o : options) (i : inst) (f : string) :
  getter_hook (p_base p) = Some f ->
  type (p_base p) <> "object" ->
  type (p_base p) <> "array" ->
  defineGetter H U p o i
  = match call_getter U f (slot (indexOrAliasIndex (p_base p)) (i_obj i)) with
    | Returned c => (Ok c, i)
    | Raised d => (Ok CUndef, log_error (UserThrow d) i)
    end.
Proof.
  intros Hg Hno Hna.
  assert (Ho : String.eqb (type (p_base p)) "object" = false).
  { destruct (String.eqb (type (p_base p)) "object") eqn:E; [|reflexivity].
    apply String.eqb_eq in E. contradiction. }
  assert (Ha : String.eqb (type (p_base p)) "array" = false).
  { destruct (String.eqb (type (p_base p)) "array") eqn:E; [|reflexivity].
    apply String.eqb_eq in E. contradiction. }
  rewrite defineGetter_eq. unfold defineGetter_body, getter.
  rewrite Hg, Ho, Ha. cbn [orb]. rewrite andb_false_r.
  destruct (call_getter U f _); reflexivity.
Qed.

Lemma getter_hook_does_not_write_witness :
  defineGetter reference_host reference_user
    (scalar "s" "string" [("getter", DFun "nothing")]) default_options
    (Inst [("s", CVal (DStr "a"))] [])
  = match call_getter reference_user "nothing"
            (slot (indexOrAliasIndex
                     (p_base (scalar "s" "string" [("getter", DFun "nothing")])))
               (i_obj (Inst [("s", CVal (DStr "a"))] []))) with
    | Returned c => (Ok c, Inst [("s", CVal (DStr "a"))] [])
    | Raised d =>
        (Ok CUndef, log_error (UserThrow d) (Inst [("s", CVal (DStr "a"))] []))
    end.
Proof.
  apply (getter_hook_does_not_write reference_host reference_user
           (scalar "s" "string" [("getter", DFun "nothing")]) default_options
           (Inst [("s", CVal (DStr "a"))] []) "nothing");
    [reflexivity|discriminate|discriminate].
Defined.

(** X27.  [onBeforeValueSet] cancels an assignment only by returning
    [false] itself.  This is for a handler that only inspects its arguments
    (the handlers of [User] are functions of the value and the field name;
    one that assigns to the instance it is called on is outside it).  For a
    writable field that is neither object- nor array-typed nor an alias,
    without getter hook, and an input the typecast accepts: when the handler
    returns [false] the setter writes nothing (nothing is stored,
    [onValueSet] sees nothing, nothing is logged); when it returns any other
    value, the cast value is stored. *)
Theorem only_false_cancels_the_write (H : Host) (U : User) (p : props)
    (o : options) (redirect : string -> data -> inst -> outcome unit * inst)
    (v : data) (i : inst) (f : string) (c : cell) (r : data) :
  onBeforeValueSet o = Some f ->
  getter_hook (p_base p) = None ->
  readOnly (p_base p) = false ->
  type (p_base p) <> "object" ->
  type (p_base p) <> "array" ->
  type (p_base p) <> "alias" ->
  typecast H U p o v (slot (name (p_base p)) (i_obj i))
  = (Ok c, slot (name (p_base p)) (i_obj i)) ->
  call_onBeforeValueSet U f c (name (p_base p)) = Returned r ->
  (r = DBool false -> defineSetter H U p o redirect v i = (Ok tt, i))
  /\ (r <> DBool false ->
      exists i',
        defineSetter H U p o redirect v i = (Ok tt, i')
        /\ i_obj i' = upsert (name (p_base p)) c (i_obj i)).
Proof.
  intros Hbv Hg Hro Hno Hna Hnl Hcast Hcall.
  assert (Hne : forall t, type (p_base p) <> t ->
                  String.eqb (type (p_base p)) t = false).
  { intros t Ht. destruct (String.eqb (type (p_base p)) t) eqn:E;
      [|reflexivity]. apply String.eqb_eq in E. contradiction. }
  assert (Hidx : indexOrAliasIndex (p_base p) = name (p_base p)).
  { apply index_of_plain. apply Hne. exact Hnl. }
  pose proof (defineGetter_flat H U p o i Hg (Hne _ Hno) (Hne _ Hna)) as Hget.
  rewrite Hidx in Hget.
  unfold defineSetter, defineSetter_with. rewrite Hro, Hget, Hcast.
  cbn [andb]. rewrite (write_back_read H U p o i _ i Hget).
  unfold writeValue. rewrite Hbv, Hcall. cbn [of_ucall bind].
  split.
  - intros ->. reflexivity.
  - intros Hr.
    assert (Hs : strict_eq r (DBool false) = false).
    { destruct r as [| |[|]| | | | | | |]; try reflexivity.
      contradiction Hr. reflexivity. }
    rewrite Hs, (Hne _ Hnl). cbn [negb].
    destruct (onValueSet o) as [g|].
    + destruct (of_ucall (call_onValueSet U g c (name (p_base p))));
        eexists; split; reflexivity.
    + eexists. split; reflexivity.
Qed.

Lemma only_false_cancels_the_write_witness :
  (DBool false = DBool false ->
   defineSetter reference_host reference_user (scalar "s" "string" [])
     vetoing_options no_redirect (DStr "a") empty_inst = (Ok tt, empty_inst))
  /\ (DBool false <> DBool false ->
      exists i',
        defineSetter reference_host reference_user (scalar "s" "string" [])
          vetoing_options no_redirect (DStr "a") empty_inst = (Ok tt, i')
        /\ i_obj i'
           = upsert (name (p_base (scalar "s" "string" [])))
               (CVal (DStr "a")) (i_obj empty_inst)).
Proof.
  apply (only_false_cancels_the_write reference_host reference_user
           (scalar "s" "string" []) vetoing_options no_redirect (DStr "a")
           empty_inst "veto" (CVal (DStr "a")) (DBool false));
    try reflexivity; discriminate.
Defined.


(** X28.  The constructor throws only when a default producer throws: when
    every [default] that is a function returns, [new Factory(values)]
    returns an instance, whatever the values; the defaults and values that
    fail their typecast are logged, not thrown.  This is for a schema
    without a field under a reserved name, so that [this.populate] is the
    method, and for values without a key every object inherits. *)
Theorem constructor_returns (H : Host) (U : User) (s : schema)
    (values : data) :
  (forall k p f, In (k, p) (fields_of (s_fields s)) ->
     default (p_base p) = DFun f -> exists d, call_default U f = Returned d) ->
  unshadowed_schema s = true ->
  Forall (fun kv => inherited_key (fst kv) = false) (enum_entries values) ->
  exists i, new_instance H U s values = Ok i.
Proof.
  intros Hprod _ _. unfold new_instance. rewrite construct_eq.
  unfold construct_body.
  assert (Hdef : forall l i,
            (forall k p f, In (k, p) (fields_of l) ->
               default (p_base p) = DFun f ->
               exists d, call_default U f = Returned d) ->
            exists i', apply_defaults U (assign H U s) l i = Ok i').
  { induction l as [|k p rest IH]; intros i Hl; [exists i; reflexivity|].
    cbn [apply_defaults].
    assert (Hrest : forall k' p' f, In (k', p') (fields_of rest) ->
              default (p_base p') = DFun f ->
              exists d, call_default U f = Returned d).
    { intros k' p' f Hin. apply (Hl k' p' f). right. exact Hin. }
    destruct (isUndefined (default (p_base p))); [apply IH; exact Hrest|].
    assert (Hd : exists d, default_value U (p_base p) = Ok d).
    { unfold default_value.
      destruct (default (p_base p)) eqn:Ed; try (eexists; reflexivity).
      destruct (Hl k p f (or_introl eq_refl) Ed) as [d ->].
      exists d. reflexivity. }
    destruct Hd as [d ->].
    pose proof (assign_ok H U s true k d i) as Hok.
    destruct (assign H U s true k d i) as [[[]|e] i1];
      [apply IH; exact Hrest|discriminate Hok]. }
  destruct (Hdef (s_fields s) empty_inst Hprod) as [i0 ->].
  pose proof (assign_all_ok (assign H U s false) (enum_entries values) i0
                (fun k v j => assign_ok H U s false k v j)) as Hok.
  destruct (assign_all (assign H U s false) (enum_entries values) i0)
    as [[[]|e] i1]; [exists i1; reflexivity|discriminate Hok].
Qed.

Lemma constructor_returns_witness :
  exists i,
    new_instance reference_host reference_user age_schema
      (DObj [("age", DStr "-1")]) = Ok i.
Proof.
  apply (constructor_returns reference_host reference_user age_schema
           (DObj [("age", DStr "-1")])).
  - intros k p f [[= <- <-]|[]] Hd. discriminate Hd.
  - reflexivity.
  - repeat constructor.
Defined.


(** *** The Schema Compiler *)

Module CompilerFacts.
Import Compiler.


Lemma length_hupdate h l o : List.length (hupdate h l o) = List.length h.
Proof.
  revert l. induction h as [|x t IH]; intros l; [reflexivity|].
  destruct l; cbn; [reflexivity|]. rewrite IH. reflexivity.
Qed.

Lemma hread_hupdate_ne h l l' o : l <> l' -> hread (hupdate h l' o) l = hread h l.
Proof.
  unfold hread. revert l l'. induction h as [|x t IH]; intros l l' Hne; [reflexivity|].
  destruct l', l; cbn; try reflexivity; try congruence.
  apply IH. congruence.
Qed.

Lemma length_hset h l k v : List.length (hset h l k v) = List.length h.
Proof.
  unfold hset. destruct (hread h l); [apply length_hupdate|reflexivity].
Qed.

Lemma hread_hset_ne h l l' k v : l <> l' -> hread (hset h l' k v) l = hread h l.
Proof.
  intros Hne. unfold hset. destruct (hread h l'); [|reflexivity].
  apply hread_hupdate_ne. exact Hne.
Qed.

Lemma extends_refl keep h : extends_except keep h h.
Proof. split; [lia|]. intros l _ _. reflexivity. Qed.

Lemma extends_trans keep h0 h1 h2 :
  extends_except keep h0 h1 -> extends_except keep h1 h2 ->
  extends_except keep h0 h2.
Proof.
  intros [L1 U1] [L2 U2]. split; [lia|].
  intros l Hl Hk. rewrite U2 by (try lia; assumption). apply U1; assumption.
Qed.

Lemma extends_weaken (keep keep' : loc -> bool) h0 h :
  (forall l, keep' l = true -> keep l = true) ->
  extends_except keep h0 h -> extends_except keep' h0 h.
Proof.
  intros Hk [L Un]. split; [exact L|]. intros l Hl Hkl. apply Un; auto.
Qed.

Lemma extends_alloc keep (h : heap) o : extends_except keep h (h ++ [o])%list.
Proof.
  split; cbn; [rewrite length_app; lia|].
  intros l Hl _. unfold hread. apply nth_error_app1. exact Hl.
Qed.

Lemma extends_hset keep h0 h l k v :
  (l < List.length h0 -> keep l = false) ->
  extends_except keep h0 h -> extends_except keep h0 (hset h l k v).
Proof.
  intros Hfresh [L Un]. split; [rewrite length_hset; exact L|].
  intros l0 Hl0 Hk. rewrite hread_hset_ne; [apply Un; assumption|].
  intros ->. rewrite (Hfresh Hl0) in Hk. discriminate.
Qed.


Lemma extends_hset_fresh h0 h l k v :
  List.length h0 <= l ->
  extends_except all h0 h -> extends_except all h0 (hset h l k v).
Proof.
  intros Hl. apply extends_hset. intros Hlt. lia.
Qed.

Lemma clone_entries_extends cl l' es st h0 :
  (forall x s, extends_except all (fst s) (fst (snd (cl x s)))) ->
  List.length h0 <= l' ->
  extends_except all h0 (fst st) ->
  extends_except all h0 (fst (clone_entries cl l' es st)).
Proof.
  intros Hcl Hl'. revert st. induction es as [|[k x] rest IH]; intros st Hst; [exact Hst|].
  cbn. specialize (Hcl x st). destruct (cl x st) as [x' st1]. cbn in Hcl.
  apply IH. cbn. apply extends_hset_fresh; [exact Hl'|].
  eapply extends_trans; eassumption.
Qed.

Lemma clone_extends fuel : forall nested v st,
  extends_except all (fst st) (fst (snd (clone fuel nested v st))).
Proof.
  induction fuel as [|fuel IH]; intros nested v st; [apply extends_refl|].
  cbn. destruct v; try apply extends_refl.
  destruct (seen_clone l (snd st)); [apply extends_refl|].
  destruct (hread (fst st) l) as [o|]; [|apply extends_refl].
  destruct (kind o);
    try (cbn; apply clone_entries_extends;
         [intros x s; apply IH | cbn; lia
         | apply (extends_alloc all (fst st))]).
  - destruct nested; [apply extends_refl|]. cbn. apply (extends_alloc all (fst st)).
  - destruct nested; [apply extends_refl|]. cbn. apply (extends_alloc all (fst st)).
Qed.

Lemma hread_none_fresh h l : hread h l = None -> List.length h <= l.
Proof. unfold hread. apply nth_error_None. Qed.

Lemma cloneDeep_fresh h v v' h' :
  cloneDeep h v = (v', h') ->
  extends_except all h h'
  /\ forall l, v' = JRef l -> List.length h <= l.
Proof.
  unfold cloneDeep.
  pose proof (clone_extends (S (List.length h)) false v (h, [])) as Hext.
  destruct (clone (S (List.length h)) false v (h, [])) as [v1 st] eqn:Ec.
  intros [= <- <-]. split; [exact Hext|].
  intros l ->. cbn in Ec. destruct v; try discriminate.
  cbn in Ec. destruct (hread h l0) as [o|] eqn:Er.
  - destruct (kind o); cbn in Ec; injection Ec as <- _; lia.
  - injection Ec as <- _. apply hread_none_fresh. exact Er.
Qed.

Lemma inherit_entries_extends h0 l es h :
  List.length h0 <= l ->
  extends_except all h0 h -> extends_except all h0 (inherit_entries l es h).
Proof.
  intros Hl. revert h. induction es as [|[k v] rest IH]; intros h Hh; [exact Hh|].
  cbn [inherit_entries]. apply IH.
  destruct (is_undef (get h (JRef l) k)); [|exact Hh].
  apply extends_hset_fresh; assumption.
Qed.

Ltac frame_step :=
  match goal with
  | |- extends_except all _ (hset _ _ _ _) => apply extends_hset_fresh; [lia|]
  | |- extends_except all _ (inherit_entries _ _ _) =>
      apply inherit_entries_extends; [lia|]
  | |- extends_except all _ (if ?c then _ else _) => destruct c
  | |- extends_except all _ (match ?x with _ => _ end) => destruct x
  | |- extends_except all _ (?h ++ [?o])%list =>
      apply (extends_trans all _ h); [|apply (extends_alloc all h o)]
  | H : extends_except all ?a ?b |- extends_except all ?a ?b => exact H
  end.

Lemma inherit_type_extends h0 l h :
  List.length h0 <= l -> extends_except all h0 h ->
  extends_except all h0 (inherit_type l h).
Proof. intros Hl Hh. unfold inherit_type. cbv zeta. repeat frame_step. Qed.

Lemma name_type_extends h0 l h :
  List.length h0 <= l -> extends_except all h0 h ->
  extends_except all h0 (name_type l h).
Proof. intros Hl Hh. unfold name_type. cbv zeta. repeat frame_step. Qed.

Lemma lower_type_extends h0 l h :
  List.length h0 <= l -> extends_except all h0 h ->
  extends_except all h0 (lower_type l h).
Proof. intros Hl Hh. unfold lower_type. repeat frame_step. Qed.

Lemma array_type_extends h0 l h :
  List.length h0 <= l -> extends_except all h0 h ->
  extends_except all h0 (array_type l h).
Proof. intros Hl Hh. unfold array_type. cbv zeta. repeat frame_step. Qed.

Lemma object_type_extends h0 l h :
  List.length h0 <= l -> extends_except all h0 h ->
  extends_except all h0 (object_type l h).
Proof.
  intros Hl Hh. unfold object_type, halloc. cbv beta iota zeta.
  repeat frame_step.
Qed.

Lemma set_name_extends h0 l name h :
  List.length h0 <= l -> extends_except all h0 h ->
  extends_except all h0 (set_name l name h).
Proof. intros Hl Hh. unfold set_name. repeat frame_step. Qed.

Lemma own_properties_fresh h properties v h' :
  own_properties h properties = (v, h') ->
  extends_except all h h'
  /\ (jtruthy properties = true -> forall l, v = JRef l -> List.length h <= l).
Proof.
  unfold own_properties. destruct (jtruthy properties).
  - destruct (is_undef (get h properties "type")).
    + cbn [halloc]. intros [= <- <-]. split.
      * apply (extends_alloc all h).
      * intros _ l [= <-]. lia.
    + intros Ec. destruct (cloneDeep_fresh h properties v h' Ec) as [He Hf].
      split; [exact He|]. intros _. exact Hf.
  - intros [= <- <-]. split; [apply extends_refl|discriminate].
Qed.

Lemma normalizeProperties_extends h properties name r h' :
  normalizeProperties h properties name = (r, h') ->
  extends_except all h h'.
Proof.
  unfold normalizeProperties.
  destruct (own_properties h properties) as [v h1] eqn:Eo.
  destruct (own_properties_fresh h properties v h1 Eo) as [Hext Hfresh].
  destruct v as [ | |b|n|s|l]; try (intros [= _ <-]; exact Hext).
  intros [= _ <-].
  assert (Hl : List.length h <= l).
  { apply Hfresh; [|reflexivity].
    unfold own_properties in Eo.
    destruct (jtruthy properties) eqn:Et; [reflexivity|].
    injection Eo as -> _. discriminate Et. }
  apply set_name_extends; [exact Hl|].
  apply object_type_extends; [exact Hl|].
  apply array_type_extends; [exact Hl|].
  apply lower_type_extends; [exact Hl|].
  apply name_type_extends; [exact Hl|].
  apply inherit_type_extends; [exact Hl|]. exact Hext.
Qed.


Lemma normalize_loop_extends ls keys : forall h r h',
  normalize_loop ls keys h = (r, h') ->
  extends_except (not_loc ls) h h'.
Proof.
  induction keys as [|index rest IH]; intros h r h'; cbn [normalize_loop].
  - intros [= _ <-]. apply extends_refl.
  - destruct (normalizeProperties h (get h (JRef ls) index) (JStr index))
      as [[d|e] h1] eqn:En.
    + intros Hl. eapply extends_trans; [|apply (IH _ _ _ Hl)].
      apply extends_hset.
      * intros _. unfold not_loc. rewrite Nat.eqb_refl. reflexivity.
      * eapply extends_weaken; [|apply (normalizeProperties_extends _ _ _ _ _ En)].
        reflexivity.
    + intros [= _ <-].
      eapply extends_weaken; [|apply (normalizeProperties_extends _ _ _ _ _ En)].
      reflexivity.
Qed.

Lemma hread_fresh (h : heap) (o : object) :
  hread (h ++ [o]) (List.length h) = Some o.
Proof.
  unfold hread. rewrite nth_error_app2 by lia.
  rewrite Nat.sub_diag. reflexivity.
Qed.

Lemma hread_old (h : heap) (o : object) (l : loc) (x : object) :
  hread h l = Some x -> hread (h ++ [o]) l = Some x.
Proof.
  unfold hread. intros Hl. rewrite nth_error_app1; [exact Hl|].
  apply nth_error_Some. congruence.
Qed.

Lemma hupdate_fresh (h : heap) (o o' : object) :
  hupdate (h ++ [o]) (List.length h) o' = h ++ [o'].
Proof.
  induction h as [|x t IH]; [reflexivity|].
  cbn [app List.length hupdate]. rewrite IH. reflexivity.
Qed.

Lemma hset_fresh (h : heap) (o : object) (k : string) (v : jval) :
  hset (h ++ [o]) (List.length h) k v
  = h ++ [{| kind := kind o; entries := upsert k v (entries o) |}].
Proof.
  unfold hset. rewrite hread_fresh. apply hupdate_fresh.
Qed.

Lemma get_fresh (h : heap) (o : object) (k : string) :
  get (h ++ [o]) (JRef (List.length h)) k
  = match lookup k (entries o) with
    | Some x => x
    | None =>
        if String.eqb k "name" then
          match kind o with
          | KFunction f => JStr f
          | KFactory _ => JStr "SchemaObjectInstance"
          | _ => JUndef
          end
        else JUndef
    end.
Proof. unfold get. rewrite hread_fresh. reflexivity. Qed.

Lemma get_old (h : heap) (o x : object) (l : loc) (k : string) :
  hread h l = Some x -> get (h ++ [o]) (JRef l) k = get h (JRef l) k.
Proof.
  intros Hl. unfold get. rewrite (hread_old h o l x Hl), Hl. reflexivity.
Qed.

Lemma hread_at (h rest : heap) (x : object) :
  hread (h ++ x :: rest) (List.length h) = Some x.
Proof.
  unfold hread. rewrite nth_error_app2 by lia.
  rewrite Nat.sub_diag. reflexivity.
Qed.

Lemma hupdate_at (h rest : heap) (x x' : object) :
  hupdate (h ++ x :: rest) (List.length h) x' = h ++ x' :: rest.
Proof.
  induction h as [|z t IH]; [reflexivity|].
  cbn [app List.length hupdate]. rewrite IH. reflexivity.
Qed.

Lemma hset_at (h rest : heap) (x : object) (k : string) (v : jval) :
  hset (h ++ x :: rest) (List.length h) k v
  = h ++ {| kind := kind x; entries := upsert k v (entries x) |} :: rest.
Proof.
  unfold hset. rewrite hread_at. apply hupdate_at.
Qed.

(** The shorthand [index: { ... }] with a non-empty plain object without a
    [type] key: [normalizeProperties] returns a new properties hash
    [{ type: 'object', objectType: F, name: index }] where [F] is a new
    factory closed over the declaration object itself. *)
Lemma nested_shorthand (h : heap) (lt : loc) (es : list (string * jval))
    (index : string) :
  hread h lt = Some {| kind := KPlain; entries := es |} ->
  es <> [] -> lookup "type" es = None -> index <> "" ->
  normalizeProperties h (JRef lt) (JStr index)
  = (Ok (JRef (List.length h)),
     h ++ [{| kind := KPlain;
              entries := [("type", JStr "object");
                          ("objectType", JRef (S (List.length h)));
                          ("name", JStr index)] |};
           {| kind := KFactory lt; entries := [] |}]).
Proof.
  intros Hlt Hes Hty Hidx.
  assert (Eidx : String.eqb index "" = false).
  { destruct (String.eqb index "") eqn:E; [|reflexivity].
    apply String.eqb_eq in E. contradiction. }
  assert (Hlen : Nat.eqb (List.length es) 0 = false).
  { destruct es; [contradiction|reflexivity]. }
  unfold normalizeProperties, own_properties. cbn [jtruthy].
  assert (Ht : get h (JRef lt) "type" = JUndef).
  { unfold get. rewrite Hlt. cbn [entries kind]. rewrite Hty. reflexivity. }
  rewrite Ht. cbn [is_undef halloc].
  set (o0 := {| kind := KPlain; entries := [("type", JRef lt)] |}).
  assert (H1 : inherit_type (List.length h) (h ++ [o0]) = h ++ [o0]).
  { unfold inherit_type. rewrite get_fresh. cbn [o0 entries lookup].
    cbn [String.eqb Ascii.eqb Bool.eqb]. cbn [jisObject].
    rewrite (get_old h o0 _ lt "type" Hlt), Ht. reflexivity. }
  rewrite H1.
  assert (H2 : name_type (List.length h) (h ++ [o0]) = h ++ [o0]).
  { unfold name_type. rewrite get_fresh. cbn [o0 entries lookup].
    cbn [String.eqb Ascii.eqb Bool.eqb].
    unfold own_entries. rewrite (hread_old h o0 lt _ Hlt).
    cbn [entries].
    destruct (get (h ++ [o0]) (JRef lt) "name"); try reflexivity.
    rewrite Hlen, andb_false_r. reflexivity. }
  rewrite H2.
  assert (H3 : lower_type (List.length h) (h ++ [o0]) = h ++ [o0]).
  { unfold lower_type. rewrite get_fresh. reflexivity. }
  rewrite H3.
  assert (H4 : array_type (List.length h) (h ++ [o0]) = h ++ [o0]).
  { unfold array_type. rewrite get_fresh. cbn [o0 entries lookup].
    cbn [String.eqb Ascii.eqb Bool.eqb].
    unfold jisArray, kind_of. rewrite (hread_old h o0 lt _ Hlt).
    reflexivity. }
  rewrite H4.
  assert (H5 : object_type (List.length h) (h ++ [o0])
               = h ++ [{| kind := KPlain;
                          entries := [("type", JStr "object");
                                      ("objectType",
                                       JRef (S (List.length h)))] |};
                       {| kind := KFactory lt; entries := [] |}]).
  { unfold object_type. rewrite get_fresh. cbn [o0 entries lookup].
    cbn [String.eqb Ascii.eqb Bool.eqb].
    unfold jisFunction, kind_of. rewrite (hread_old h o0 lt _ Hlt).
    cbn [option_map kind jisObject].
    unfold own_entries. rewrite (hread_old h o0 lt _ Hlt).
    cbn [entries]. rewrite Hlen. cbn [halloc].
    rewrite length_app. cbn [List.length]. rewrite Nat.add_1_r.
    rewrite <- app_assoc. cbn [app].
    rewrite !hset_at. reflexivity. }
  rewrite H5.
  unfold set_name. cbn [jtruthy]. rewrite Eidx. cbn [negb].
  rewrite hset_at. reflexivity.
Qed.



(** The caller's field declaration objects are written to as well: from
    [{ owner: { name: String } }], the constructor makes for [owner] a
    factory over the nested declaration object (at 1), and the constructor
    of that factory replaces the entry [name] of that very object by the
    descriptor [{ type: 'string', name: 'name' }]. *)
Lemma nested_constructor_rewrites_the_callers_declaration :
  let h1 := snd (normalize_schema owner_heap 0) in
  let h2 := snd (normalize_schema h1 1) in
  fst (normalize_schema owner_heap 0) = Ok tt
  /\ get h1 (get h1 (JRef 0) "owner") "objectType" = JRef 4
  /\ kind_of h1 (JRef 4) = Some (KFactory 1)
  /\ hread h1 1 = hread owner_heap 1
  /\ fst (normalize_schema h1 1) = Ok tt
  /\ hread h2 1 = Some {| kind := KPlain; entries := [("name", JRef 5)] |}
  /\ hread h2 5
     = Some {| kind := KPlain;
               entries := [("type", JStr "string"); ("name", JStr "name")] |}
  /\ hread h2 1 <> hread owner_heap 1.
Proof.
  vm_compute. repeat split. discriminate.
Qed.


End CompilerFacts.

(* ================================================================== *)
(** ** Further properties of the Schema Compiler *)

Module CompilerShorthand.
Import Compiler.
Import CompilerFacts.

(** X19.  A declaration that is falsy ([index: undefined], [null], [false],
    [0], [NaN] or [""]) is not read as "any type": [normalizeProperties]
    throws a [TypeError] on it, and the heap is as it was. *)
Theorem falsy_declaration_throws (h : heap) (properties name : jval) :
  jtruthy properties = false ->
  exists what,
    normalizeProperties h properties name = (Throw (TypeError what), h).
Proof.
  intros Hf. unfold normalizeProperties, own_properties. rewrite Hf.
  destruct properties; try discriminate Hf; eexists; reflexivity.
Qed.

Lemma falsy_declaration_throws_witness :
  exists what,
    normalizeProperties age_heap JNull (JStr "age")
    = (Throw (TypeError what), age_heap).
Proof.
  apply (falsy_declaration_throws age_heap JNull (JStr "age")). reflexivity.
Defined.

(** X20.  The shorthand [index: Type] with a constructor function (a
    function named [nm] without own properties, such as [String] or
    [Number]): [normalizeProperties] returns a new properties hash
    [{ type: nm.toLowerCase(), name: index }], and writes to no object that
    existed. *)
Theorem function_shorthand (h : heap) (lt : loc) (nm index : string) :
  hread h lt = Some {| kind := KFunction nm; entries := [] |} ->
  nm <> "SchemaObjectInstance" ->
  index <> "" ->
  normalizeProperties h (JRef lt) (JStr index)
  = (Ok (JRef (List.length h)),
     h ++ [{| kind := KPlain;
              entries := [("type", JStr (toLowerCase nm));
                          ("name", JStr index)] |}]).
Proof.
  intros Hfn Hnm Hidx.
  assert (Enm : String.eqb nm "SchemaObjectInstance" = false).
  { destruct (String.eqb nm "SchemaObjectInstance") eqn:E; [|reflexivity].
    apply String.eqb_eq in E. contradiction. }
  assert (Eidx : String.eqb index "" = false).
  { destruct (String.eqb index "") eqn:E; [|reflexivity].
    apply String.eqb_eq in E. contradiction. }
  unfold normalizeProperties, own_properties. cbn [jtruthy].
  assert (Hty : get h (JRef lt) "type" = JUndef).
  { unfold get. rewrite Hfn. reflexivity. }
  rewrite Hty. cbn [is_undef halloc].
  set (o0 := {| kind := KPlain; entries := [("type", JRef lt)] |}).
  (* properties.type.type is undefined: nothing is inherited *)
  assert (H1 : inherit_type (List.length h) (h ++ [o0]) = h ++ [o0]).
  { unfold inherit_type. rewrite get_fresh. cbn [o0 entries lookup].
    cbn [String.eqb Ascii.eqb Bool.eqb]. cbn [jisObject].
    rewrite (get_old h o0 _ lt "type" Hfn), Hty. reflexivity. }
  rewrite H1.
  (* the type becomes the name of the function *)
  assert (H2 : name_type (List.length h) (h ++ [o0])
               = h ++ [{| kind := KPlain; entries := [("type", JStr nm)] |}]).
  { unfold name_type. rewrite get_fresh. cbn [o0 entries lookup].
    cbn [String.eqb Ascii.eqb Bool.eqb].
    rewrite (get_old h o0 _ lt "name" Hfn).
    unfold get at 1. rewrite Hfn. cbn [entries lookup kind].
    cbn [String.eqb Ascii.eqb Bool.eqb]. rewrite Enm.
    unfold own_entries. rewrite (hread_old h o0 lt _ Hfn).
    cbn [entries List.length Nat.eqb negb andb].
    rewrite hset_fresh. reflexivity. }
  rewrite H2.
  assert (H3 : lower_type (List.length h)
                 (h ++ [{| kind := KPlain; entries := [("type", JStr nm)] |}])
               = h ++ [{| kind := KPlain;
                          entries := [("type", JStr (toLowerCase nm))] |}]).
  { unfold lower_type. rewrite get_fresh. cbn [entries lookup].
    cbn [String.eqb Ascii.eqb Bool.eqb]. rewrite hset_fresh. reflexivity. }
  rewrite H3.
  assert (H4 : forall s,
            array_type (List.length h)
              (h ++ [{| kind := KPlain; entries := [("type", JStr s)] |}])
            = h ++ [{| kind := KPlain; entries := [("type", JStr s)] |}]).
  { intros s. unfold array_type. rewrite get_fresh. cbn [entries lookup].
    cbn [String.eqb Ascii.eqb Bool.eqb]. reflexivity. }
  rewrite H4.
  assert (H5 : forall s,
            object_type (List.length h)
              (h ++ [{| kind := KPlain; entries := [("type", JStr s)] |}])
            = h ++ [{| kind := KPlain; entries := [("type", JStr s)] |}]).
  { intros s. unfold object_type. rewrite get_fresh. cbn [entries lookup].
    cbn [String.eqb Ascii.eqb Bool.eqb]. reflexivity. }
  rewrite H5.
  unfold set_name. cbn [jtruthy]. rewrite Eidx. cbn [negb].
  rewrite hset_fresh. reflexivity.
Qed.

Lemma function_shorthand_witness :
  normalizeProperties age_heap (JRef 1) (JStr "age")
  = (Ok (JRef (List.length age_heap)),
     age_heap ++ [{| kind := KPlain;
                     entries := [("type", JStr (toLowerCase "Number"));
                                 ("name", JStr "age")] |}]).
Proof.
  apply (function_shorthand age_heap 1 "Number" "age");
    [reflexivity|discriminate|discriminate].
Defined.

(** X21.  The shorthand [index: [Type]] or [index: []]: for an array
    without own [type] and [name] properties, [normalizeProperties] returns
    a new properties hash [{ type: 'array', arrayType: <the first element>,
    name: index }], without [arrayType] when the array is empty; only the
    first element of the array is read, and it is not normalized here. *)
Theorem array_shorthand (h : heap) (la : loc) (es : list (string * jval))
    (index : string) :
  hread h la = Some {| kind := KArray; entries := es |} ->
  lookup "type" es = None ->
  lookup "name" es = None ->
  index <> "" ->
  normalizeProperties h (JRef la) (JStr index)
  = (Ok (JRef (List.length h)),
     h ++ [{| kind := KPlain;
              entries :=
                match es with
                | [] => [("type", JStr "array"); ("name", JStr index)]
                | _ :: _ =>
                    [("type", JStr "array");
                     ("arrayType",
                      match lookup "0" es with
                      | Some x => x
                      | None => JUndef
                      end);
                     ("name", JStr index)]
                end |}]).
Proof.
  intros Harr Hty Hnm Hidx.
  assert (Eidx : String.eqb index "" = false).
  { destruct (String.eqb index "") eqn:E; [|reflexivity].
    apply String.eqb_eq in E. contradiction. }
  unfold normalizeProperties, own_properties. cbn [jtruthy].
  assert (Hget : forall k, String.eqb k "name" = false ->
                   get h (JRef la) k
                   = match lookup k es with Some x => x | None => JUndef end).
  { intros k Hk. unfold get. rewrite Harr. cbn [entries]. rewrite Hk.
    reflexivity. }
  rewrite (Hget "type" eq_refl), Hty. cbn [is_undef halloc].
  set (o0 := {| kind := KPlain; entries := [("type", JRef la)] |}).
  assert (H1 : inherit_type (List.length h) (h ++ [o0]) = h ++ [o0]).
  { unfold inherit_type. rewrite get_fresh. cbn [o0 entries lookup].
    cbn [String.eqb Ascii.eqb Bool.eqb]. cbn [jisObject].
    rewrite (get_old h o0 _ la "type" Harr), (Hget "type" eq_refl), Hty.
    reflexivity. }
  rewrite H1.
  assert (H2 : name_type (List.length h) (h ++ [o0]) = h ++ [o0]).
  { unfold name_type. rewrite get_fresh. cbn [o0 entries lookup].
    cbn [String.eqb Ascii.eqb Bool.eqb].
    rewrite (get_old h o0 _ la "name" Harr).
    unfold get. rewrite Harr. cbn [entries kind]. rewrite Hnm.
    reflexivity. }
  rewrite H2.
  assert (H3 : lower_type (List.length h) (h ++ [o0]) = h ++ [o0]).
  { unfold lower_type. rewrite get_fresh. reflexivity. }
  rewrite H3.
  assert (H4 : array_type (List.length h) (h ++ [o0])
               = h ++ [{| kind := KPlain;
                          entries :=
                            match es with
                            | [] => [("type", JStr "array")]
                            | _ :: _ =>
                                [("type", JStr "array");
                                 ("arrayType",
                                  match lookup "0" es with
                                  | Some x => x
                                  | None => JUndef
                                  end)]
                            end |}]).
  { unfold array_type. rewrite get_fresh. cbn [o0 entries lookup].
    cbn [String.eqb Ascii.eqb Bool.eqb].
    unfold jisArray, kind_of, own_entries.
    rewrite (hread_old h o0 la _ Harr). cbn [option_map kind entries].
    rewrite (get_old h o0 _ la "0" Harr), (Hget "0" eq_refl).
    destruct es as [|e es']; cbn [List.length Nat.eqb].
    - rewrite hset_fresh. reflexivity.
    - rewrite hset_fresh.
      change (List.length h) with (List.length h).
      rewrite hset_fresh. reflexivity. }
  rewrite H4.
  assert (H5 : forall rest,
            object_type (List.length h)
              (h ++ [{| kind := KPlain;
                        entries := ("type", JStr "array") :: rest |}])
            = h ++ [{| kind := KPlain;
                       entries := ("type", JStr "array") :: rest |}]).
  { intros rest. unfold object_type. rewrite get_fresh.
    cbn [entries lookup]. cbn [String.eqb Ascii.eqb Bool.eqb]. reflexivity. }
  unfold set_name. cbn [jtruthy]. rewrite Eidx. cbn [negb].
  destruct es as [|e es']; rewrite H5, hset_fresh; reflexivity.
Qed.

Lemma array_shorthand_witness :
  normalizeProperties
    [ {| kind := KArray; entries := [("0", JRef 1)] |};
      {| kind := KFunction "String"; entries := [] |} ]
    (JRef 0) (JStr "tags")
  = (Ok (JRef 2),
     [ {| kind := KArray; entries := [("0", JRef 1)] |};
       {| kind := KFunction "String"; entries := [] |} ]
     ++ [{| kind := KPlain;
            entries := [("type", JStr "array"); ("arrayType", JRef 1);
                        ("name", JStr "tags")] |}]).
Proof.
  apply (array_shorthand
           [ {| kind := KArray; entries := [("0", JRef 1)] |};
             {| kind := KFunction "String"; entries := [] |} ]
           0 [("0", JRef 1)] "tags");
    try reflexivity.
  discriminate.
Defined.

End CompilerShorthand.
